(** * SceneManager.cpp: texture and material registries, transform
      composition and shader-state dispatch

    A shallow embedding of [Source/SceneManager.cpp].  Methods of the class
    become computations in a state-and-fault monad over a [World]: the
    object's members, the texture-name allocator of the GL driver, the image
    files the decoder can read, and the ordered trace of every call made to an
    external collaborator (stb_image, OpenGL, the shader manager, the mesh
    provider).

    Conventions.
    - [int] values are [Z]; an increment past [INT_MAX] is a fault.
    - [float] values are IEEE 754 binary32 values and every operation on them
      rounds to nearest, ties to even, evaluated in the order the source writes
      it (no fused multiply-add).  The C library's [cos] and [sin], whose
      results the language does not fix to the last bit, are a parameter of the
      methods that reach them.
    - A C++ array is a list whose length is the array's extent; an access
      outside it is a fault, as is a call through a null pointer.
    - Diagnostics written to [std::cout] are not part of the trace. *)

From Stdlib Require Import ZArith String List Bool Lia SpecFloat.
From stdpp Require Import base list.
Import ListNotations.

Local Open Scope string_scope.
Local Open Scope list_scope.
Local Open Scope Z_scope.

(** ** Scalars *)

(** [float] is IEEE 754 binary32: 24 bits of precision, exponents below 128.
    A value is a signed zero, a signed infinity, the NaN, or
    [S754_finite s m e], which is [(-1)^s * m * 2^e]. *)
Definition float : Type := spec_float.

Module f32.

Definition prec : Z := 24.
Definition emax : Z := 128.

Definition add : float -> float -> float := SFadd prec emax.
Definition sub : float -> float -> float := SFsub prec emax.
Definition mul : float -> float -> float := SFmul prec emax.
Definition div : float -> float -> float := SFdiv prec emax.
Definition sqrt : float -> float := SFsqrt prec emax.
Definition opp : float -> float := SFopp.

(** A decimal literal [ddd.ddd] (as [0.35f] in the source): the value nearest
    to the quotient of its digits by the power of ten. *)
Definition of_decimal (d : Decimal.decimal) : option spec_float :=
  match d with
  | Decimal.Decimal i f =>
      let negative := match i with Decimal.Neg _ => true | Decimal.Pos _ => false end in
      let power := Z.to_pos (10 ^ Z.of_nat (Decimal.nb_digits f)) in
      match Z.of_int (Decimal.app_int i f) with
      | Z0 => Some (S754_zero negative)
      | Zpos m => Some (SFdiv prec emax (S754_finite false m 0) (S754_finite false power 0))
      | Zneg m => Some (SFdiv prec emax (S754_finite true m 0) (S754_finite false power 0))
      end
  | Decimal.DecimalExp _ _ _ => None
  end.

Definition of_number (n : Number.number) : option spec_float :=
  match n with
  | Number.Decimal d => of_decimal d
  | Number.Hexadecimal _ => None
  end.

Definition to_number (x : spec_float) : option Number.number := None.

(** The same bits. *)
Definition eqb (x y : float) : bool :=
  match x, y with
  | S754_zero s, S754_zero s' => Bool.eqb s s'
  | S754_infinity s, S754_infinity s' => Bool.eqb s s'
  | S754_nan, S754_nan => true
  | S754_finite s m e, S754_finite s' m' e' => Bool.eqb s s' && (m =? m')%positive && (e =? e')
  | _, _ => false
  end.

End f32.

Declare Scope f32_scope.
Delimit Scope f32_scope with f32.
Number Notation spec_float f32.of_number f32.to_number : f32_scope.
Bind Scope f32_scope with float spec_float.
Infix "+" := f32.add : f32_scope.
Infix "-" := f32.sub : f32_scope.
Infix "*" := f32.mul : f32_scope.
Infix "/" := f32.div : f32_scope.
Notation "- x" := (f32.opp x) : f32_scope.

(** [cos] and [sin] of the C library on [float]. *)
Record libm : Type := mklibm {
  cosf : float -> float;
  sinf : float -> float
}.

Definition INT_MAX : Z := 2147483647.

(** ** The part of GLM the scene manager uses

    [glm::mat4] is column-major: a matrix is four column vectors and
    [m[c][r]] is row [r] of column [c].  The definitions follow GLM's
    [type_mat4x4.inl], [matrix_transform.inl] and [gtx/transform.inl]. *)

Module glm.
Local Open Scope f32_scope.

Record vec2 : Type := Vec2 { u2 : float; v2 : float }.
Record vec3 : Type := Vec3 { x3 : float; y3 : float; z3 : float }.
Record vec4 : Type := Vec4 { x : float; y : float; z : float; w : float }.
Record mat4 : Type := Mat4 { col0 : vec4; col1 : vec4; col2 : vec4; col3 : vec4 }.

(** [vec4 * float] and [vec4 + vec4] *)
Definition vmul (a : vec4) (s : float) : vec4 :=
  Vec4 (x a * s) (y a * s) (z a * s) (w a * s).

Definition vadd (a b : vec4) : vec4 :=
  Vec4 (x a + x b) (y a + y b) (z a + z b) (w a + w b).

(** [glm::mat4(1.0f)] *)
Definition identity : mat4 :=
  Mat4 (Vec4 1 0 0 0) (Vec4 0 1 0 0) (Vec4 0 0 1 0) (Vec4 0 0 0 1).

(** [operator*(mat4, mat4)] *)
Definition mul (m1 m2 : mat4) : mat4 :=
  let column (b : vec4) :=
    vadd (vadd (vadd (vmul (col0 m1) (x b)) (vmul (col1 m1) (y b)))
               (vmul (col2 m1) (z b)))
         (vmul (col3 m1) (w b)) in
  Mat4 (column (col0 m2)) (column (col1 m2)) (column (col2 m2)) (column (col3 m2)).

(** [operator*(mat4, vec4)] *)
Definition apply (m : mat4) (v : vec4) : vec4 :=
  vadd (vadd (vmul (col0 m) (x v)) (vmul (col1 m) (y v)))
       (vadd (vmul (col2 m) (z v)) (vmul (col3 m) (w v))).

(** [glm::radians]: [degrees * static_cast<float>(0.01745329251994329576923690768489)] *)
Definition radians (degrees : float) : float :=
  degrees * 0.01745329251994329576923690768489.

(** [glm::normalize(vec3)]: [v * inversesqrt(dot(v, v))], and
    [inversesqrt(x)] is [1 / sqrt(x)] *)
Definition dot (a b : vec3) : float := x3 a * x3 b + y3 a * y3 b + z3 a * z3 b.

Definition normalize (v : vec3) : vec3 :=
  let k := 1 / f32.sqrt (dot v v) in
  Vec3 (x3 v * k) (y3 v * k) (z3 v * k).

(** [glm::scale(v)] is [scale(mat4(1), v)] *)
Definition scale (v : vec3) : mat4 :=
  let m := identity in
  Mat4 (vmul (col0 m) (x3 v)) (vmul (col1 m) (y3 v)) (vmul (col2 m) (z3 v)) (col3 m).

(** [glm::translate(v)] is [translate(mat4(1), v)] *)
Definition translate (v : vec3) : mat4 :=
  let m := identity in
  Mat4 (col0 m) (col1 m) (col2 m)
       (vadd (vadd (vadd (vmul (col0 m) (x3 v)) (vmul (col1 m) (y3 v)))
                   (vmul (col2 m) (z3 v)))
             (col3 m)).

(** [glm::rotate(angle, v)] is [rotate(mat4(1), angle, v)] *)
Definition rotate (lm : libm) (angle : float) (v : vec3) : mat4 :=
  let m := identity in
  let a := angle in
  let c := cosf lm a in
  let s := sinf lm a in
  let axis := normalize v in
  let temp := Vec3 ((1 - c) * x3 axis) ((1 - c) * y3 axis) ((1 - c) * z3 axis) in
  let r00 := c + x3 temp * x3 axis in
  let r01 := x3 temp * y3 axis + s * z3 axis in
  let r02 := x3 temp * z3 axis - s * y3 axis in
  let r10 := y3 temp * x3 axis - s * z3 axis in
  let r11 := c + y3 temp * y3 axis in
  let r12 := y3 temp * z3 axis + s * x3 axis in
  let r20 := z3 temp * x3 axis + s * y3 axis in
  let r21 := z3 temp * y3 axis - s * x3 axis in
  let r22 := c + z3 temp * z3 axis in
  Mat4 (vadd (vadd (vmul (col0 m) r00) (vmul (col1 m) r01)) (vmul (col2 m) r02))
       (vadd (vadd (vmul (col0 m) r10) (vmul (col1 m) r11)) (vmul (col2 m) r12))
       (vadd (vadd (vmul (col0 m) r20) (vmul (col1 m) r21)) (vmul (col2 m) r22))
       (col3 m).

(** Row [r] of a column vector, and entry (row [r], column [c]) of a matrix. *)
Definition coord (v : vec4) (r : nat) : float :=
  match r with
  | 0%nat => x v
  | 1%nat => y v
  | 2%nat => z v
  | _ => w v
  end.

Definition column (m : mat4) (c : nat) : vec4 :=
  match c with
  | 0%nat => col0 m
  | 1%nat => col1 m
  | 2%nat => col2 m
  | _ => col3 m
  end.

Definition entry (m : mat4) (r c : nat) : float := coord (column m c) r.

End glm.

(** ** Data model *)

(** [TEXTURE_INFO]: a GL texture name and the tag it was registered under. *)
Record TEXTURE_INFO : Type := mkTEXTURE_INFO {
  ID : Z;
  tex_tag : string
}.

(** [OBJECT_MATERIAL] *)
Record OBJECT_MATERIAL : Type := mkOBJECT_MATERIAL {
  ambientColor : glm.vec3;
  ambientStrength : float;
  diffuseColor : glm.vec3;
  specularColor : glm.vec3;
  shininess : float;
  tag : string
}.

(** A pointer is null or the address of a live object. *)
Inductive pointer : Type :=
| NULL
| Addr (a : positive).

Definition is_null (p : pointer) : bool :=
  match p with
  | NULL => true
  | Addr _ => false
  end.

(** The members of [SceneManager] that the methods use.  [m_textureIDs] is a
    C++ array: the list's length is its extent. *)
Record SceneManager : Type := mkSceneManager {
  m_pShaderManager : pointer;
  m_basicMeshes : pointer;
  m_loadedTextures : Z;
  m_textureIDs : list TEXTURE_INFO;
  m_objectMaterials : list OBJECT_MATERIAL
}.

(** Modelled from the spec: the extent of [m_textureIDs] is declared in
    [SceneManager.h], which is not among the sources.  The spec's data model
    has 16 slots ("slot: integer index in [0,16)"), and the comments of
    [BindGLTextures] and [LoadSceneTextures] say the same. *)
Definition TEXTURE_SLOTS : nat := 16.

(** ** External collaborators *)

Inductive MeshKind : Type :=
| Box | Plane | Cylinder | Cone | Prism | Pyramid4 | Sphere | TaperedCylinder | Torus.

Inductive GLenum : Type :=
| GL_TEXTURE_2D
| GL_TEXTURE_WRAP_S | GL_TEXTURE_WRAP_T
| GL_TEXTURE_MIN_FILTER | GL_TEXTURE_MAG_FILTER
| GL_REPEAT | GL_LINEAR
| GL_RGB8 | GL_RGBA8 | GL_RGB | GL_RGBA
| GL_UNSIGNED_BYTE.

(** What [stbi_load] hands back for a readable file. *)
Record Image : Type := mkImage {
  width : Z;
  height : Z;
  colorChannels : Z
}.

(** One call to a collaborator, with the arguments that matter. *)
Inductive Event : Type :=
| stbi_set_flip_vertically_on_load (flag : bool)
| stbi_image_free
| glGenTextures (name : Z)
| glDeleteTextures (name : Z)
| glBindTexture (target : GLenum) (name : Z)
| glTexParameteri (target pname param : GLenum)
| glTexImage2D (target internalformat : GLenum) (w h : Z) (format type : GLenum)
| glGenerateMipmap (target : GLenum)
| glActiveTexture (unit : Z)
| setMat4Value (name : string) (value : glm.mat4)
| setIntValue (name : string) (value : Z)
| setBoolValue (name : string) (value : bool)
| setFloatValue (name : string) (value : float)
| setVec2Value (name : string) (value : glm.vec2)
| setVec3Value (name : string) (value : glm.vec3)
| setVec4Value (name : string) (value : glm.vec4)
| setSampler2DValue (name : string) (value : Z)
| LoadMesh (kind : MeshKind)
| DrawMesh (kind : MeshKind).

(** The world a method runs in.  [gl_next] is the next unused texture name of
    the driver; [stbi_load] is the decoder applied to the files on disk. *)
Record World : Type := mkWorld {
  this : SceneManager;
  gl_next : Z;
  stbi_load : string -> option Image;
  trace : list Event
}.

Definition set_this (s : SceneManager) (w : World) : World :=
  mkWorld s (gl_next w) (stbi_load w) (trace w).

Definition add_trace (ev : list Event) (w : World) : World :=
  mkWorld (this w) (gl_next w) (stbi_load w) (trace w ++ ev).

(** ** The monad *)

Inductive fault : Type :=
| NullDereference
| OutOfBounds (index : Z)
| SignedOverflow.

Inductive Result (A : Type) : Type :=
| Ok (a : A)
| Fault (f : fault)
| OutOfFuel.

Arguments Ok {A} a.
Arguments Fault {A} f.
Arguments OutOfFuel {A}.

Definition M (A : Type) : Type := World -> Result (A * World).

Definition ret {A} (a : A) : M A := fun w => Ok (a, w).

Definition bind {A B} (c : M A) (k : A -> M B) : M B :=
  fun w =>
    match c w with
    | Ok (a, w') => k a w'
    | Fault f => Fault f
    | OutOfFuel => OutOfFuel
    end.

Definition raise {A} (f : fault) : M A := fun _ => Fault f.

Declare Scope M_scope.
Delimit Scope M_scope with M.
Bind Scope M_scope with M.

Notation "x <- c ;; k" := (bind c (fun x => k))
  (at level 20, c at level 99, k at level 200, only parsing) : M_scope.
Notation "c ;; k" := (bind c (fun _ => k))
  (at level 100, k at level 200, right associativity, only parsing) : M_scope.

Local Open Scope M_scope.

Definition gets {A} (f : SceneManager -> A) : M A := fun w => Ok (f (this w), w).

Definition modify (f : SceneManager -> SceneManager) : M unit :=
  fun w => Ok (tt, set_this (f (this w)) w).

Definition emit (e : Event) : M unit := fun w => Ok (tt, add_trace [e] w).

(** [while (cond) body], with the loop's local variables as [St]. *)
Fixpoint while {St} (fuel : nat) (cond : St -> M bool) (body : St -> M St) (s : St) : M St :=
  match fuel with
  | O => fun _ => OutOfFuel
  | S fuel' =>
      c <- cond s ;;
      if c then (s' <- body s ;; while fuel' cond body s') else ret s
  end.

(** [i++] on an [int] *)
Definition incr (i : Z) : M Z :=
  if i <? INT_MAX then ret (i + 1) else raise SignedOverflow.

(** [p->method(...)]: the call reaches the collaborator only through a
    non-null pointer. *)
Definition call_through (p : SceneManager -> pointer) (e : Event) : M unit :=
  q <- gets p ;;
  if is_null q then raise NullDereference else emit e.

Definition shader (e : Event) : M unit := call_through m_pShaderManager e.
Definition meshes (e : Event) : M unit := call_through m_basicMeshes e.

(** [m_textureIDs[i]] as an rvalue and as the target of a member store. *)
Definition textureIDs_at (i : Z) : M TEXTURE_INFO :=
  bank <- gets m_textureIDs ;;
  if i <? 0 then raise (OutOfBounds i)
  else match bank !! Z.to_nat i with
       | Some e => ret e
       | None => raise (OutOfBounds i)
       end.

Definition set_textureIDs (bank : list TEXTURE_INFO) (s : SceneManager) : SceneManager :=
  mkSceneManager (m_pShaderManager s) (m_basicMeshes s) (m_loadedTextures s) bank
                 (m_objectMaterials s).

Definition set_loadedTextures (n : Z) (s : SceneManager) : SceneManager :=
  mkSceneManager (m_pShaderManager s) (m_basicMeshes s) n (m_textureIDs s)
                 (m_objectMaterials s).

Definition set_objectMaterials (l : list OBJECT_MATERIAL) (s : SceneManager) : SceneManager :=
  mkSceneManager (m_pShaderManager s) (m_basicMeshes s) (m_loadedTextures s)
                 (m_textureIDs s) l.

Definition textureIDs_store (i : Z) (f : TEXTURE_INFO -> TEXTURE_INFO) : M unit :=
  e <- textureIDs_at i ;;
  modify (fun s => set_textureIDs (<[Z.to_nat i := f e]> (m_textureIDs s)) s).

(** [glGenTextures(1, &name)]: the driver hands out its next unused name. *)
Definition gl_GenTexture : M Z :=
  fun w =>
    let name := gl_next w in
    Ok (name, mkWorld (this w) (name + 1) (stbi_load w) (trace w ++ [glGenTextures name])).

(** ** Uniform names (the anonymous namespace at the top of the file) *)

Definition g_ModelName : string := "model".
Definition g_ColorValueName : string := "objectColor".
Definition g_TextureValueName : string := "objectTexture".
Definition g_UseTextureName : string := "bUseTexture".
Definition g_UseLightingName : string := "bUseLighting".

(** ** Texture registry *)

(** The tail of the [if (image)] block of [CreateGLTexture], from
    [glGenerateMipmap] to [return true]: both the RGB and the RGBA branch
    fall through to it. *)
Definition CreateGLTexture_register (textureID : Z) (tag : string) : M bool :=
  emit (glGenerateMipmap GL_TEXTURE_2D) ;;
  emit stbi_image_free ;;
  emit (glBindTexture GL_TEXTURE_2D 0) ;;
  n <- gets m_loadedTextures ;;
  textureIDs_store n (fun e => mkTEXTURE_INFO textureID (tex_tag e)) ;;
  n <- gets m_loadedTextures ;;
  textureIDs_store n (fun e => mkTEXTURE_INFO (ID e) tag) ;;
  n <- gets m_loadedTextures ;;
  n' <- incr n ;;
  modify (set_loadedTextures n') ;;
  ret true.

(** [CreateGLTexture(filename, tag)] *)
Definition CreateGLTexture (filename : string) (tag : string) : M bool :=
  emit (stbi_set_flip_vertically_on_load true) ;;
  image <- (fun w => Ok (stbi_load w filename, w)) ;;
  match image with
  | Some img =>
      textureID <- gl_GenTexture ;;
      emit (glBindTexture GL_TEXTURE_2D textureID) ;;
      emit (glTexParameteri GL_TEXTURE_2D GL_TEXTURE_WRAP_S GL_REPEAT) ;;
      emit (glTexParameteri GL_TEXTURE_2D GL_TEXTURE_WRAP_T GL_REPEAT) ;;
      emit (glTexParameteri GL_TEXTURE_2D GL_TEXTURE_MIN_FILTER GL_LINEAR) ;;
      emit (glTexParameteri GL_TEXTURE_2D GL_TEXTURE_MAG_FILTER GL_LINEAR) ;;
      if colorChannels img =? 3 then
        emit (glTexImage2D GL_TEXTURE_2D GL_RGB8 (width img) (height img)
                           GL_RGB GL_UNSIGNED_BYTE) ;;
        CreateGLTexture_register textureID tag
      else if colorChannels img =? 4 then
        emit (glTexImage2D GL_TEXTURE_2D GL_RGBA8 (width img) (height img)
                           GL_RGBA GL_UNSIGNED_BYTE) ;;
        CreateGLTexture_register textureID tag
      else ret false
  | None => ret false
  end.

(** [for (int i = 0; i < bound; i++) body(i)] *)
Definition for_loop (fuel : nat) (bound : M Z) (body : Z -> M unit) : M unit :=
  while fuel
        (fun i => n <- bound ;; ret (i <? n))
        (fun i => body i ;; incr i)
        0 ;;
  ret tt.

(** [BindGLTextures()]; [GL_TEXTURE0 + i] is recorded as the unit [i]. *)
Definition BindGLTextures : M unit :=
  n <- gets m_loadedTextures ;;
  for_loop (S (Z.to_nat n)) (gets m_loadedTextures)
    (fun i =>
       emit (glActiveTexture i) ;;
       e <- textureIDs_at i ;;
       emit (glBindTexture GL_TEXTURE_2D (ID e))).

(** The statement inside the [for] of [DestroyGLTextures]:
    [glGenTextures(1, &m_textureIDs[i].ID)]. *)
Definition DestroyGLTextures_body (i : Z) : M unit :=
  e <- textureIDs_at i ;;
  name <- gl_GenTexture ;;
  modify (fun s =>
            set_textureIDs
              (<[Z.to_nat i := mkTEXTURE_INFO name (tex_tag e)]> (m_textureIDs s)) s).

(** [DestroyGLTextures()] *)
Definition DestroyGLTextures : M unit :=
  n <- gets m_loadedTextures ;;
  for_loop (S (Z.to_nat n)) (gets m_loadedTextures) DestroyGLTextures_body.

(** The locals of the scan in [FindTextureSlot]. *)
Record SlotScan : Type := mkSlotScan {
  textureSlot : Z;
  slot_index : Z;
  slot_bFound : bool
}.

(** The condition and the body of the [while] in [FindTextureSlot]. *)
Definition FindTextureSlot_cond (l : SlotScan) : M bool :=
  n <- gets m_loadedTextures ;;
  ret ((slot_index l <? n) && Bool.eqb (slot_bFound l) false).

Definition FindTextureSlot_body (tag : string) (l : SlotScan) : M SlotScan :=
  e <- textureIDs_at (slot_index l) ;;
  if String.eqb (tex_tag e) tag then
    ret (mkSlotScan (slot_index l) (slot_index l) true)
  else
    i <- incr (slot_index l) ;;
    ret (mkSlotScan (textureSlot l) i (slot_bFound l)).

(** [FindTextureSlot(tag)] *)
Definition FindTextureSlot (tag : string) : M Z :=
  n <- gets m_loadedTextures ;;
  l <- while (S (Z.to_nat n)) FindTextureSlot_cond (FindTextureSlot_body tag)
         (mkSlotScan (-1) 0 false) ;;
  ret (textureSlot l).

(** [GLuint] to [int]: [ID] is what [glGenTextures] writes through
    [&m_textureIDs[i].ID], an unsigned 32-bit name; assigning it to an [int]
    keeps the value modulo 2^32. *)
Definition to_int (u : Z) : Z := (u + 2147483648) mod 4294967296 - 2147483648.

(** The locals of the scan in [FindTextureID]. *)
Record IDScan : Type := mkIDScan {
  textureID : Z;
  id_index : Z;
  id_bFound : bool
}.

(** The condition and the body of the [while] in [FindTextureID]. *)
Definition FindTextureID_cond (l : IDScan) : M bool :=
  n <- gets m_loadedTextures ;;
  ret ((id_index l <? n) && Bool.eqb (id_bFound l) false).

Definition FindTextureID_body (tag : string) (l : IDScan) : M IDScan :=
  e <- textureIDs_at (id_index l) ;;
  if String.eqb (tex_tag e) tag then
    ret (mkIDScan (to_int (ID e)) (id_index l) true)
  else
    i <- incr (id_index l) ;;
    ret (mkIDScan (textureID l) i (id_bFound l)).

(** [FindTextureID(tag)] *)
Definition FindTextureID (tag : string) : M Z :=
  n <- gets m_loadedTextures ;;
  l <- while (S (Z.to_nat n)) FindTextureID_cond (FindTextureID_body tag)
         (mkIDScan (-1) 0 false) ;;
  ret (textureID l).

(** ** Material registry *)

(** The locals of the scan in [FindMaterial], with the caller's [material]. *)
Record MaterialScan : Type := mkMaterialScan {
  mat_index : Z;
  mat_bFound : bool;
  material : OBJECT_MATERIAL
}.

(** [m_objectMaterials[index]] *)
Definition objectMaterials_at (i : Z) : M OBJECT_MATERIAL :=
  mats <- gets m_objectMaterials ;;
  if i <? 0 then raise (OutOfBounds i)
  else match mats !! Z.to_nat i with
       | Some m => ret m
       | None => raise (OutOfBounds i)
       end.

(** The condition and the body of the [while] in [FindMaterial].  [index]
    is never negative, so converting it to [size_t] for the comparison with
    [size()] changes nothing.  Five members are copied on a match;
    [material.tag] is not assigned. *)
Definition FindMaterial_cond (l : MaterialScan) : M bool :=
  mats <- gets m_objectMaterials ;;
  ret ((mat_index l <? Z.of_nat (length mats)) && Bool.eqb (mat_bFound l) false).

Definition FindMaterial_body (tag_ : string) (l : MaterialScan) : M MaterialScan :=
  m <- objectMaterials_at (mat_index l) ;;
  if String.eqb (tag m) tag_ then
    ret (mkMaterialScan (mat_index l) true
           (mkOBJECT_MATERIAL (ambientColor m) (ambientStrength m)
              (diffuseColor m) (specularColor m) (shininess m)
              (tag (material l))))
  else
    i <- incr (mat_index l) ;;
    ret (mkMaterialScan i (mat_bFound l) (material l)).

(** [FindMaterial(tag, material)]: the reference parameter goes in and comes
    back next to the returned [bool]. *)
Definition FindMaterial (tag_ : string) (material_ : OBJECT_MATERIAL)
  : M (bool * OBJECT_MATERIAL) :=
  mats <- gets m_objectMaterials ;;
  if (length mats =? 0)%nat then ret (false, material_)
  else
    l <- while (S (length mats)) FindMaterial_cond (FindMaterial_body tag_)
           (mkMaterialScan 0 false material_) ;;
    ret (true, material l).

(** ** Shader-state dispatch *)

(** The value of the local [modelView] in [SetTransformations]. *)
Definition modelView (lm : libm) (scaleXYZ : glm.vec3)
    (XrotationDegrees YrotationDegrees ZrotationDegrees : float)
    (positionXYZ : glm.vec3) : glm.mat4 :=
  let scale := glm.scale scaleXYZ in
  let rotationX := glm.rotate lm (glm.radians XrotationDegrees) (glm.Vec3 1 0 0) in
  let rotationY := glm.rotate lm (glm.radians YrotationDegrees) (glm.Vec3 0 1 0) in
  let rotationZ := glm.rotate lm (glm.radians ZrotationDegrees) (glm.Vec3 0 0 1) in
  let translation := glm.translate positionXYZ in
  glm.mul (glm.mul (glm.mul (glm.mul translation rotationX) rotationY) rotationZ) scale.

(** [SetTransformations(scaleXYZ, X, Y, Z, positionXYZ)]; [lm] is the C
    library that [glm::rotate] calls. *)
Definition SetTransformations (lm : libm) (scaleXYZ : glm.vec3)
    (XrotationDegrees YrotationDegrees ZrotationDegrees : float)
    (positionXYZ : glm.vec3) : M unit :=
  let modelView :=
    modelView lm scaleXYZ XrotationDegrees YrotationDegrees ZrotationDegrees positionXYZ in
  p <- gets m_pShaderManager ;;
  if negb (is_null p) then shader (setMat4Value g_ModelName modelView)
  else ret tt.

(** [SetShaderColor(r, g, b, a)]; [setIntValue(name, false)] passes 0. *)
Definition SetShaderColor (redColorValue greenColorValue blueColorValue alphaValue : float)
  : M unit :=
  let currentColor := glm.Vec4 redColorValue greenColorValue blueColorValue alphaValue in
  p <- gets m_pShaderManager ;;
  if negb (is_null p) then
    shader (setIntValue g_UseTextureName 0) ;;
    shader (setVec4Value g_ColorValueName currentColor)
  else ret tt.

(** [SetShaderTexture(textureTag)]; [setIntValue(name, true)] passes 1. *)
Definition SetShaderTexture (textureTag : string) : M unit :=
  p <- gets m_pShaderManager ;;
  if negb (is_null p) then
    shader (setIntValue g_UseTextureName 1) ;;
    textureID <- FindTextureSlot textureTag ;;
    shader (setSampler2DValue g_TextureValueName textureID)
  else ret tt.

(** [SetTextureUVScale(u, v)] *)
Definition SetTextureUVScale (u v : float) : M unit :=
  p <- gets m_pShaderManager ;;
  if negb (is_null p) then shader (setVec2Value "UVscale" (glm.Vec2 u v))
  else ret tt.

(** [SetShaderMaterial(materialTag)].  The local [OBJECT_MATERIAL material;]
    is declared without an initialiser: [uninit] is whatever it holds. *)
Definition SetShaderMaterial (materialTag : string) (uninit : OBJECT_MATERIAL) : M unit :=
  mats <- gets m_objectMaterials ;;
  if (0 <? length mats)%nat then
    r <- FindMaterial materialTag uninit ;;
    let (bReturn, material) := r in
    if Bool.eqb bReturn true then
      shader (setVec3Value "material.ambientColor" (ambientColor material)) ;;
      shader (setFloatValue "material.ambientStrength" (ambientStrength material)) ;;
      shader (setVec3Value "material.diffuseColor" (diffuseColor material)) ;;
      shader (setVec3Value "material.specularColor" (specularColor material)) ;;
      shader (setFloatValue "material.shininess" (shininess material))
    else ret tt
  else ret tt.

(** ** Scene preparation *)

(** [LoadSceneTextures()]; the results of the five loads are not looked at. *)
Definition LoadSceneTextures : M unit :=
  CreateGLTexture "../../Utilities/textures/green_apple.jpg" "apple" ;;
  CreateGLTexture "../../Utilities/textures/apple_stem.jpg" "stem" ;;
  CreateGLTexture "../../Utilities/textures/rusticwood.jpg" "table" ;;
  CreateGLTexture "../../Utilities/textures/ceramic1.jpg" "ceramic" ;;
  CreateGLTexture "../../Utilities/textures/white_cardboard.jpg" "cardboard" ;;
  BindGLTextures.

(** [m_objectMaterials.push_back(m)] *)
Definition push_back (m : OBJECT_MATERIAL) : M unit :=
  modify (fun s => set_objectMaterials (m_objectMaterials s ++ [m]) s).

Definition goldMaterial : OBJECT_MATERIAL :=
  mkOBJECT_MATERIAL (glm.Vec3 0.2 0.2 0.1) 0.4 (glm.Vec3 0.3 0.3 0.2)
                    (glm.Vec3 0.6 0.5 0.4) 22 "gold".
Definition appleMaterial : OBJECT_MATERIAL :=
  mkOBJECT_MATERIAL (glm.Vec3 0.2 0.2 0.1) 0.2 (glm.Vec3 0.3 0.3 0.2)
                    (glm.Vec3 0.3 0.3 0.3) 5 "appleskin".
Definition cementMaterial : OBJECT_MATERIAL :=
  mkOBJECT_MATERIAL (glm.Vec3 0.2 0.2 0.2) 0.2 (glm.Vec3 0.5 0.5 0.5)
                    (glm.Vec3 0.4 0.4 0.4) 0.5 "cement".
Definition woodMaterial : OBJECT_MATERIAL :=
  mkOBJECT_MATERIAL (glm.Vec3 0.2 0.2 0.2) 0.2 (glm.Vec3 0.3 0.3 0.3)
                    (glm.Vec3 0.4 0.4 0.4) 0.3 "wood".
Definition polishwoodMaterial : OBJECT_MATERIAL :=
  mkOBJECT_MATERIAL (glm.Vec3 0.4 0.3 0.1) 0.2 (glm.Vec3 0.3 0.2 0.1)
                    (glm.Vec3 0.1 0.1 0.1) 11 "polishWood".
Definition tileMaterial : OBJECT_MATERIAL :=
  mkOBJECT_MATERIAL (glm.Vec3 0.2 0.3 0.4) 0.3 (glm.Vec3 0.3 0.2 0.1)
                    (glm.Vec3 0.4 0.5 0.6) 25 "tile".
Definition glassMaterial : OBJECT_MATERIAL :=
  mkOBJECT_MATERIAL (glm.Vec3 0.4 0.4 0.4) 0.3 (glm.Vec3 0.3 0.3 0.3)
                    (glm.Vec3 0.6 0.6 0.6) 85 "glass".
Definition clayMaterial : OBJECT_MATERIAL :=
  mkOBJECT_MATERIAL (glm.Vec3 0.2 0.2 0.3) 0.3 (glm.Vec3 0.4 0.4 0.5)
                    (glm.Vec3 0.2 0.2 0.4) 0.5 "clay".
Definition polishclayMaterial : OBJECT_MATERIAL :=
  mkOBJECT_MATERIAL (glm.Vec3 0.4 0.3 0.1) 0.2 (glm.Vec3 0.3 0.2 0.1)
                    (glm.Vec3 0.1 0.1 0.1) 30 "polishClay".

(** [DefineObjectMaterials()] *)
Definition DefineObjectMaterials : M unit :=
  push_back goldMaterial ;;
  push_back appleMaterial ;;
  push_back cementMaterial ;;
  push_back woodMaterial ;;
  push_back polishwoodMaterial ;;
  push_back tileMaterial ;;
  push_back glassMaterial ;;
  push_back clayMaterial ;;
  push_back polishclayMaterial.

(** [SetupSceneLights()]; the three-float overload of [setVec3Value] is
    recorded with the vector it builds. *)
Definition SetupSceneLights : M unit :=
  shader (setBoolValue g_UseLightingName true) ;;
  shader (setVec3Value "lightSources[0].position" (glm.Vec3 3 14 0)) ;;
  shader (setVec3Value "lightSources[0].ambientColor" (glm.Vec3 0.01 0.01 0.01)) ;;
  shader (setVec3Value "lightSources[0].diffuseColor" (glm.Vec3 0.4 0.4 0.4)) ;;
  shader (setVec3Value "lightSources[0].specularColor" (glm.Vec3 0.1 0.1 0.1)) ;;
  shader (setFloatValue "lightSources[0].focalStrength" 32) ;;
  shader (setFloatValue "lightSources[0].specularIntensity" 0.05) ;;
  shader (setVec3Value "lightSources[1].position" (glm.Vec3 (-3) 14 0)) ;;
  shader (setVec3Value "lightSources[1].ambientColor" (glm.Vec3 0.01 0.01 0.01)) ;;
  shader (setVec3Value "lightSources[1].diffuseColor" (glm.Vec3 0.4 0.4 0.4)) ;;
  shader (setVec3Value "lightSources[1].specularColor" (glm.Vec3 0 0 0)) ;;
  shader (setFloatValue "lightSources[1].focalStrength" 32) ;;
  shader (setFloatValue "lightSources[1].specularIntensity" 0.05) ;;
  shader (setVec3Value "lightSources[2].position" (glm.Vec3 0.6 5 6)) ;;
  shader (setVec3Value "lightSources[2].ambientColor" (glm.Vec3 0.01 0.01 0.01)) ;;
  shader (setVec3Value "lightSources[2].diffuseColor" (glm.Vec3 0.3 0.3 0.3)) ;;
  shader (setVec3Value "lightSources[2].specularColor" (glm.Vec3 0.3 0.3 0.3)) ;;
  shader (setFloatValue "lightSources[2].focalStrength" 12) ;;
  shader (setFloatValue "lightSources[2].specularIntensity" 0.5) ;;
  shader (setVec3Value "lightSources[3].position" (glm.Vec3 (-0.6) 5 6)) ;;
  shader (setVec3Value "lightSources[3].ambientColor" (glm.Vec3 0.01 0.01 0.01)) ;;
  shader (setVec3Value "lightSources[3].diffuseColor" (glm.Vec3 0.3 0.3 0.3)) ;;
  shader (setVec3Value "lightSources[3].specularColor" (glm.Vec3 0.3 0.3 0.3)) ;;
  shader (setFloatValue "lightSources[3].focalStrength" 12) ;;
  shader (setFloatValue "lightSources[3].specularIntensity" 0.5) ;;
  shader (setBoolValue "bUseLighting" true).

(** [PrepareScene()] *)
Definition PrepareScene : M unit :=
  LoadSceneTextures ;;
  DefineObjectMaterials ;;
  SetupSceneLights ;;
  meshes (LoadMesh Box) ;;
  meshes (LoadMesh Plane) ;;
  meshes (LoadMesh Cylinder) ;;
  meshes (LoadMesh Cone) ;;
  meshes (LoadMesh Prism) ;;
  meshes (LoadMesh Pyramid4) ;;
  meshes (LoadMesh Sphere) ;;
  meshes (LoadMesh TaperedCylinder) ;;
  meshes (LoadMesh Torus).

(** ** Rendering *)

(** [RenderScene()].  Each of the eleven calls of [SetShaderMaterial] has its
    own uninitialised local; [uninit k] is what the [k]-th one holds.  [lm] is
    the C library behind [SetTransformations]. *)
Definition RenderScene (lm : libm) (uninit : nat -> OBJECT_MATERIAL) : M unit :=
  (* table plane *)
  SetTransformations lm (glm.Vec3 20 0 10) 0 0 0 (glm.Vec3 0 1.5 0) ;;
  SetShaderColor 0.9 0.8 0.7 1 ;;
  SetShaderMaterial "polishWood" (uninit 0%nat) ;;
  SetShaderTexture "table" ;;
  meshes (DrawMesh Plane) ;;
  (* apple *)
  SetTransformations lm (glm.Vec3 1 1.1 1) 0 0 (-1) (glm.Vec3 0 2.5 0) ;;
  SetShaderMaterial "appleskin" (uninit 1%nat) ;;
  SetShaderTexture "apple" ;;
  meshes (DrawMesh Sphere) ;;
  (* apple stem *)
  SetTransformations lm (glm.Vec3 0.1 1 0.1) 0 0 (-15) (glm.Vec3 0 3 0) ;;
  SetShaderMaterial "wood" (uninit 2%nat) ;;
  SetShaderTexture "stem" ;;
  meshes (DrawMesh Cylinder) ;;
  (* container *)
  SetTransformations lm (glm.Vec3 1.5 2 1.5) 0 0 0 (glm.Vec3 2.5 1.5 0) ;;
  SetShaderMaterial "polishClay" (uninit 3%nat) ;;
  SetShaderTexture "ceramic" ;;
  meshes (DrawMesh Cylinder) ;;
  (* lid top *)
  SetTransformations lm (glm.Vec3 0.5 0.325 0.5) 0 0 0 (glm.Vec3 2.5 3.85 0) ;;
  SetShaderMaterial "polishClay" (uninit 4%nat) ;;
  SetShaderTexture "ceramic" ;;
  meshes (DrawMesh Sphere) ;;
  (* lid2 *)
  SetTransformations lm (glm.Vec3 1.25 1.25 1.25) 90 0 0 (glm.Vec3 2.5 3.45 0) ;;
  SetShaderMaterial "polishClay" (uninit 5%nat) ;;
  SetShaderTexture "ceramic" ;;
  meshes (DrawMesh Torus) ;;
  (* lid3 *)
  SetTransformations lm (glm.Vec3 1.25 0.25 1.25) 0 0 0 (glm.Vec3 2.5 3.45 0) ;;
  SetShaderMaterial "polishClay" (uninit 6%nat) ;;
  SetShaderTexture "ceramic" ;;
  meshes (DrawMesh Cylinder) ;;
  (* box 1 *)
  SetTransformations lm (glm.Vec3 4 3 3) 0 (-30) 0 (glm.Vec3 2.5 3 (-3.5)) ;;
  SetShaderColor 1 1 1 1 ;;
  SetShaderMaterial "wood" (uninit 7%nat) ;;
  SetShaderTexture "cardboard" ;;
  meshes (DrawMesh Box) ;;
  (* box 2 *)
  SetTransformations lm (glm.Vec3 2.5 3.25 0.5) 0 25 0 (glm.Vec3 (-0.35) 3.25 (-1.5)) ;;
  SetShaderColor 1 1 1 1 ;;
  SetShaderMaterial "wood" (uninit 8%nat) ;;
  SetShaderTexture "cardboard" ;;
  meshes (DrawMesh Box) ;;
  (* teacup *)
  SetTransformations lm (glm.Vec3 1.5 1.5 1.5) 180 0 0 (glm.Vec3 2.5 6 (-3.5)) ;;
  SetShaderColor 1 1 1 1 ;;
  SetShaderMaterial "polishClay" (uninit 9%nat) ;;
  SetShaderTexture "ceramic" ;;
  meshes (DrawMesh TaperedCylinder) ;;
  (* teacup handle *)
  SetTransformations lm (glm.Vec3 0.5 0.5 0.5) 0 0 0 (glm.Vec3 3.5 5.25 (-3.5)) ;;
  SetShaderColor 1 1 1 1 ;;
  SetShaderMaterial "polishClay" (uninit 10%nat) ;;
  SetShaderTexture "ceramic" ;;
  meshes (DrawMesh Torus).

(** * Vocabulary of the statements *)

(** ** Materials *)

(** What a match copies into the caller's [material]. *)
Definition copy_material (m out : OBJECT_MATERIAL) : OBJECT_MATERIAL :=
  mkOBJECT_MATERIAL (ambientColor m) (ambientStrength m) (diffuseColor m)
                    (specularColor m) (shininess m) (tag out).

(** The first entry, in insertion order, that carries the tag. *)
Definition first_material (tag_ : string) (mats : list OBJECT_MATERIAL)
  : option OBJECT_MATERIAL :=
  List.find (fun m => String.eqb (tag m) tag_) mats.

Definition scanned (tag_ : string) (mats : list OBJECT_MATERIAL) (out : OBJECT_MATERIAL)
  : OBJECT_MATERIAL :=
  match first_material tag_ mats with
  | Some m => copy_material m out
  | None => out
  end.

(** The five uniforms [SetShaderMaterial] pushes for a material. *)
Definition material_events (m : OBJECT_MATERIAL) : list Event :=
  [setVec3Value "material.ambientColor" (ambientColor m);
   setFloatValue "material.ambientStrength" (ambientStrength m);
   setVec3Value "material.diffuseColor" (diffuseColor m);
   setVec3Value "material.specularColor" (specularColor m);
   setFloatValue "material.shininess" (shininess m)].

Definition found_events (tag_ : string) (s : SceneManager) : list Event :=
  match first_material tag_ (m_objectMaterials s) with
  | Some m => material_events m
  | None => []
  end.

Definition with_materials (l : list OBJECT_MATERIAL) (w : World) : World :=
  set_this (set_objectMaterials l (this w)) w.

Definition sceneMaterials : list OBJECT_MATERIAL :=
  [goldMaterial; appleMaterial; cementMaterial; woodMaterial; polishwoodMaterial;
   tileMaterial; glassMaterial; clayMaterial; polishclayMaterial].

(** ** Textures *)

(** The bank has its 16 slots and the count of loaded textures is within it. *)
Definition registry_ok (s : SceneManager) : Prop :=
  length (m_textureIDs s) = TEXTURE_SLOTS /\
  0 <= m_loadedTextures s <= Z.of_nat TEXTURE_SLOTS.

(** The registered entries: the first [m_loadedTextures] slots of the bank. *)
Definition entries (s : SceneManager) : list TEXTURE_INFO :=
  take (Z.to_nat (m_loadedTextures s)) (m_textureIDs s).

(** Position, counted from [i], of the first tag equal to [tag]; -1 if none. *)
Fixpoint first_index (tag : string) (tags : list string) (i : Z) : Z :=
  match tags with
  | [] => -1
  | t :: ts => if String.eqb t tag then i else first_index tag ts (i + 1)
  end.

(** The members after a load has registered texture [id] under tag [t]. *)
Definition registered (id : Z) (t : string) (s : SceneManager) : SceneManager :=
  mkSceneManager (m_pShaderManager s) (m_basicMeshes s) (m_loadedTextures s + 1)
    (<[Z.to_nat (m_loadedTextures s) := mkTEXTURE_INFO id t]> (m_textureIDs s))
    (m_objectMaterials s).

(** [loaded w0 loads w]: [w] is reached from [w0] by calls of
    [CreateGLTexture] that all returned.  [loads] lists, in load order, the
    tag of every call that returned [true] with the slot it stored into (the
    value of [m_loadedTextures] when it was called). *)
Inductive loaded (w0 : World) : list (string * Z) -> World -> Prop :=
| loaded_nil : loaded w0 [] w0
| loaded_success loads w f t w' :
    loaded w0 loads w ->
    CreateGLTexture f t w = Ok (true, w') ->
    loaded w0 (loads ++ [(t, m_loadedTextures (this w))]) w'
| loaded_failure loads w f t w' :
    loaded w0 loads w ->
    CreateGLTexture f t w = Ok (false, w') ->
    loaded w0 loads w'.

(** The [k] texture names the driver hands out from [g] on. *)
Definition fresh_names (g : Z) (k : nat) : list Z :=
  map (fun j => g + Z.of_nat j) (seq 0 k).

(** The part of the members a texture load leaves alone. *)
Definition texture_frame (s s' : SceneManager) : Prop :=
  m_pShaderManager s' = m_pShaderManager s /\
  m_basicMeshes s' = m_basicMeshes s /\
  m_objectMaterials s' = m_objectMaterials s /\
  (registry_ok s -> registry_ok s').

(** ** Frames *)

(** Modelled from the spec: the constructor in the source assigns the two
    pointers only, and any initial value of [m_loadedTextures] would come from
    [SceneManager.h], which is not among the sources.  The spec's slots are the
    zero-based load order, so a freshly constructed manager counts 0 loaded
    textures in its 16-slot bank; its vector of materials is empty. *)
Definition constructed (s : SceneManager) : Prop :=
  registry_ok s /\ m_loadedTextures s = 0 /\ m_objectMaterials s = [].

Definition defined (tag_ : string) (s : SceneManager) : Prop :=
  first_material tag_ (m_objectMaterials s) <> None.

(** What [RenderScene] relies on. *)
Definition prepared (s : SceneManager) : Prop :=
  is_null (m_pShaderManager s) = false /\
  is_null (m_basicMeshes s) = false /\
  registry_ok s /\
  Z.of_nat (length (m_objectMaterials s)) <= INT_MAX /\
  defined "polishWood" s /\ defined "appleskin" s /\
  defined "wood" s /\ defined "polishClay" s.

(** [op] returns, leaves everything but the trace alone, and appends the
    events [E] computes from the members. *)
Definition writes (P : SceneManager -> Prop) (op : M unit)
    (E : SceneManager -> list Event) : Prop :=
  forall w, P (this w) -> op w = Ok (tt, add_trace (E (this w)) w).

Definition keeps_this {A} (op : M A) : Prop :=
  forall w a w', op w = Ok (a, w') -> this w' = this w.

(** ** Transform composition in textbook form *)

(** The spec's transform composition, in textbook form and in the arithmetic
    of the code: matrices are lists of rows, the product is rows by columns
    and a product of several matrices is taken from left to right. *)
Module Spec.
Local Open Scope f32_scope.

Definition matrix : Type := list (list float).

Definition at_ (A : matrix) (i j : nat) : float := nth j (nth i A []) 0.

Definition product (A B : matrix) : matrix :=
  map (fun i =>
         map (fun j => at_ A i 0 * at_ B 0 j + at_ A i 1 * at_ B 1 j
                       + at_ A i 2 * at_ B 2 j + at_ A i 3 * at_ B 3 j)
             [0; 1; 2; 3]%nat)
      [0; 1; 2; 3]%nat.

Definition Translation (tx ty tz : float) : matrix :=
  [[1; 0; 0; tx];
   [0; 1; 0; ty];
   [0; 0; 1; tz];
   [0; 0; 0; 1]].

(** The rotations, from the cosine [c] and the sine [s] of the angle. *)
Definition RotationX (c s : float) : matrix :=
  [[1; 0; 0;   0];
   [0; c; - s; 0];
   [0; s; c;   0];
   [0; 0; 0;   1]].

Definition RotationY (c s : float) : matrix :=
  [[c;   0; s; 0];
   [0;   1; 0; 0];
   [- s; 0; c; 0];
   [0;   0; 0; 1]].

Definition RotationZ (c s : float) : matrix :=
  [[c; - s; 0; 0];
   [s; c;   0; 0];
   [0; 0;   1; 0];
   [0; 0;   0; 1]].

Definition Scale (sx sy sz : float) : matrix :=
  [[sx; 0;  0;  0];
   [0;  sy; 0;  0];
   [0;  0;  sz; 0];
   [0;  0;  0;  1]].

Definition to_radians (degrees : float) : float :=
  degrees * 0.01745329251994329576923690768489.

Definition Compose (lm : libm) (sx sy sz rotXdeg rotYdeg rotZdeg tx ty tz : float)
  : matrix :=
  let rx := to_radians rotXdeg in
  let ry := to_radians rotYdeg in
  let rz := to_radians rotZdeg in
  product
    (product
       (product
          (product (Translation tx ty tz) (RotationX (cosf lm rx) (sinf lm rx)))
          (RotationY (cosf lm ry) (sinf lm ry)))
       (RotationZ (cosf lm rz) (sinf lm rz)))
    (Scale sx sy sz).

Definition identity : matrix :=
  [[1; 0; 0; 0];
   [0; 1; 0; 0];
   [0; 0; 1; 0];
   [0; 0; 0; 1]].

End Spec.

(** The rows of a column-major [glm::mat4]. *)
Definition rows (m : glm.mat4) : Spec.matrix :=
  [[glm.x (glm.col0 m); glm.x (glm.col1 m); glm.x (glm.col2 m); glm.x (glm.col3 m)];
   [glm.y (glm.col0 m); glm.y (glm.col1 m); glm.y (glm.col2 m); glm.y (glm.col3 m)];
   [glm.z (glm.col0 m); glm.z (glm.col1 m); glm.z (glm.col2 m); glm.z (glm.col3 m)];
   [glm.w (glm.col0 m); glm.w (glm.col1 m); glm.w (glm.col2 m); glm.w (glm.col3 m)]].

(** ** Transform composition as GLM evaluates it *)

(** [glm::rotate] builds a rotation from the axis-angle formula; on the
    diagonal, at the rotation axis, it leaves [c + (1 - c)], rounded, where
    the textbook matrix has 1. *)
Definition axis_entry (c : float) : float := (c + (1 - c))%f32.

Definition RotationX_glm (c s : float) : Spec.matrix :=
  [[axis_entry c; 0; 0; 0];
   [0; c; - s; 0];
   [0; s; c;   0];
   [0; 0; 0;   1]]%f32.

Definition RotationY_glm (c s : float) : Spec.matrix :=
  [[c;   0; s; 0];
   [0;   axis_entry c; 0; 0];
   [- s; 0; c; 0];
   [0;   0; 0; 1]]%f32.

Definition RotationZ_glm (c s : float) : Spec.matrix :=
  [[c; - s; 0; 0];
   [s; c;   0; 0];
   [0; 0;   axis_entry c; 0];
   [0; 0;   0; 1]]%f32.

Definition Compose_glm (lm : libm) (sx sy sz rotXdeg rotYdeg rotZdeg tx ty tz : float)
  : Spec.matrix :=
  let rx := Spec.to_radians rotXdeg in
  let ry := Spec.to_radians rotYdeg in
  let rz := Spec.to_radians rotZdeg in
  Spec.product
    (Spec.product
       (Spec.product
          (Spec.product (Spec.Translation tx ty tz)
                        (RotationX_glm (cosf lm rx) (sinf lm rx)))
          (RotationY_glm (cosf lm ry) (sinf lm ry)))
       (RotationZ_glm (cosf lm rz) (sinf lm rz)))
    (Spec.Scale sx sy sz).

(** The same value: the same bits, or two zeros whatever their signs. *)
Definition is_zero (x : float) : bool :=
  match x with
  | S754_zero _ => true
  | _ => false
  end.

Definition same_value (x y : float) : Prop :=
  x = y \/ (is_zero x = true /\ is_zero y = true).

Definition same_entries (A B : Spec.matrix) : Prop :=
  Forall2 (Forall2 same_value) A B.

(** A zero or a finite number in binary32 format: neither infinite nor NaN. *)
Definition finite32 (x : float) : bool :=
  match x with
  | S754_zero _ => true
  | S754_finite _ m e => bounded f32.prec f32.emax m e
  | _ => false
  end.

(** The cosine and the sine the library returns for the angle are finite, and
    so are [1 - c] and [c + (1 - c)], which [glm::rotate] forms from them. *)
Definition rotation_finite (lm : libm) (degrees : float) : bool :=
  let c := cosf lm (glm.radians degrees) in
  let s := sinf lm (glm.radians degrees) in
  finite32 c && finite32 s && finite32 (1 - c)%f32 && finite32 (axis_entry c).

(** The library returns what the C standard fixes at zero: [cos(0)] is 1 and
    [sin(0)] is 0. *)
Definition exact_at_zero (lm : libm) : Prop :=
  cosf lm 0%f32 = 1%f32 /\ sinf lm 0%f32 = 0%f32.


(** ** The scene as data *)

Record SceneObject : Type := mkSceneObject {
  meshKind : MeshKind;
  objScale : glm.vec3;
  rotationDegrees : glm.vec3;
  objPosition : glm.vec3;
  overrideColor : option glm.vec4;
  materialTag : string;
  textureTag : string
}.

Definition sceneObjects : list SceneObject :=
  [ mkSceneObject Plane (glm.Vec3 20 0 10) (glm.Vec3 0 0 0) (glm.Vec3 0 1.5 0)
      (Some (glm.Vec4 0.9 0.8 0.7 1)) "polishWood" "table";
    mkSceneObject Sphere (glm.Vec3 1 1.1 1) (glm.Vec3 0 0 (-1)) (glm.Vec3 0 2.5 0)
      None "appleskin" "apple";
    mkSceneObject Cylinder (glm.Vec3 0.1 1 0.1) (glm.Vec3 0 0 (-15)) (glm.Vec3 0 3 0)
      None "wood" "stem";
    mkSceneObject Cylinder (glm.Vec3 1.5 2 1.5) (glm.Vec3 0 0 0) (glm.Vec3 2.5 1.5 0)
      None "polishClay" "ceramic";
    mkSceneObject Sphere (glm.Vec3 0.5 0.325 0.5) (glm.Vec3 0 0 0) (glm.Vec3 2.5 3.85 0)
      None "polishClay" "ceramic";
    mkSceneObject Torus (glm.Vec3 1.25 1.25 1.25) (glm.Vec3 90 0 0) (glm.Vec3 2.5 3.45 0)
      None "polishClay" "ceramic";
    mkSceneObject Cylinder (glm.Vec3 1.25 0.25 1.25) (glm.Vec3 0 0 0) (glm.Vec3 2.5 3.45 0)
      None "polishClay" "ceramic";
    mkSceneObject Box (glm.Vec3 4 3 3) (glm.Vec3 0 (-30) 0) (glm.Vec3 2.5 3 (-3.5))
      (Some (glm.Vec4 1 1 1 1)) "wood" "cardboard";
    mkSceneObject Box (glm.Vec3 2.5 3.25 0.5) (glm.Vec3 0 25 0) (glm.Vec3 (-0.35) 3.25 (-1.5))
      (Some (glm.Vec4 1 1 1 1)) "wood" "cardboard";
    mkSceneObject TaperedCylinder (glm.Vec3 1.5 1.5 1.5) (glm.Vec3 180 0 0)
      (glm.Vec3 2.5 6 (-3.5)) (Some (glm.Vec4 1 1 1 1)) "polishClay" "ceramic";
    mkSceneObject Torus (glm.Vec3 0.5 0.5 0.5) (glm.Vec3 0 0 0) (glm.Vec3 3.5 5.25 (-3.5))
      (Some (glm.Vec4 1 1 1 1)) "polishClay" "ceramic" ].

Definition object_matrix (lm : libm) (o : SceneObject) : glm.mat4 :=
  modelView lm (objScale o) (glm.x3 (rotationDegrees o)) (glm.y3 (rotationDegrees o))
            (glm.z3 (rotationDegrees o)) (objPosition o).

Definition color_events (c : option glm.vec4) : list Event :=
  match c with
  | Some c => [setIntValue g_UseTextureName 0; setVec4Value g_ColorValueName c]
  | None => []
  end.

Definition object_events (lm : libm) (s : SceneManager) (o : SceneObject) : list Event :=
  [setMat4Value g_ModelName (object_matrix lm o)] ++
  color_events (overrideColor o) ++
  found_events (materialTag o) s ++
  [setIntValue g_UseTextureName 1;
   setSampler2DValue g_TextureValueName
     (first_index (textureTag o) (map tex_tag (entries s)) 0)] ++
  [DrawMesh (meshKind o)].

Definition frame_events (lm : libm) (s : SceneManager) : list Event :=
  flat_map (object_events lm s) sceneObjects.


(** ** Concrete worlds *)

(** A decoder that reads every file as a 64 by 64 RGB image. *)
Definition decoder (path : string) : option Image := Some (mkImage 64 64 3).

(** A freshly constructed manager: both pointers live, a 16-slot bank, no
    texture loaded, no material defined. *)
Definition world0 : World :=
  mkWorld (mkSceneManager (Addr 1) (Addr 2) 0 (replicate 16 (mkTEXTURE_INFO 0 "")) [])
          1 decoder [].

(** The same manager built on a null shader manager. *)
Definition world_null : World :=
  mkWorld (mkSceneManager NULL (Addr 2) 0 (replicate 16 (mkTEXTURE_INFO 0 "")) [])
          1 decoder [].

(** A C library that returns the correctly rounded cosine and sine at the
    angles of the scene (0, 90, 180, -1, -15, -30 and 25 degrees, converted by
    [glm::radians]) and NaN elsewhere. *)
Definition tabulated (table : list (float * float)) (x : float) : float :=
  match List.find (fun p => f32.eqb (fst p) x) table with
  | Some p => snd p
  | None => S754_nan
  end.

Definition scene_cosines : list (float * float) :=
  [ (glm.radians 0, 1%f32);
    (glm.radians 90, S754_finite true 12303662 (-48));
    (glm.radians 180, (-1)%f32);
    (glm.radians (-1), S754_finite false 16774661 (-24));
    (glm.radians (-15), S754_finite false 16205546 (-24));
    (glm.radians (-30), S754_finite false 14529495 (-24));
    (glm.radians 25, S754_finite false 15205321 (-24)) ].

Definition scene_sines : list (float * float) :=
  [ (glm.radians 0, 0%f32);
    (glm.radians 90, 1%f32);
    (glm.radians 180, S754_finite true 12303662 (-47));
    (glm.radians (-1), S754_finite true 9369689 (-29));
    (glm.radians (-15), S754_finite true 8684526 (-25));
    (glm.radians (-30), (-0.5)%f32);
    (glm.radians 25, S754_finite false 14180716 (-25)) ].

Definition scene_libm : libm :=
  mklibm (tabulated scene_cosines) (tabulated scene_sines).

(** The world a computation leaves. *)
Definition after {A} (c : M A) (w : World) : World :=
  match c w with
  | Ok (_, w') => w'
  | _ => w
  end.

Fixpoint load_textures (n : nat) : M unit :=
  match n with
  | O => ret tt
  | S k => load_textures k ;; CreateGLTexture "texture.jpg" "texture" ;; ret tt
  end.

Definition world_gold : World := with_materials [goldMaterial] world0.

Definition glossyWood : OBJECT_MATERIAL :=
  mkOBJECT_MATERIAL (glm.Vec3 0.4 0.3 0.1) 0.2 (glm.Vec3 0.3 0.2 0.1)
                    (glm.Vec3 0.1 0.1 0.1) 11 "wood".

Definition world_two_woods : World := with_materials [woodMaterial; glossyWood] world0.

Definition world_apple : World := Eval vm_compute in
  after (CreateGLTexture "green_apple.jpg" "apple") world0.

Definition world_apple_stem : World := Eval vm_compute in
  after (CreateGLTexture "apple_stem.jpg" "stem") world_apple.

Definition world_full : World := Eval vm_compute in
  after (load_textures 16) world0.

(** The worlds after 0, 1, ..., 16 loads, and the slots those loads are
    given. *)
Definition worlds_full : list World := Eval vm_compute in
  map (fun k => after (load_textures k) world0) (seq 0 17).

Definition loads_upto (n : nat) : list (string * Z) :=
  map (fun k => ("texture", Z.of_nat k)) (seq 0 n).

Definition world_prepared : World := Eval vm_compute in
  after PrepareScene world0.

(** * Vocabulary of the further properties *)

(** [stbi_load] reads the file and the image has a channel count
    [CreateGLTexture] uploads. *)
Definition decodable (w : World) (filename : string) : bool :=
  match stbi_load w filename with
  | Some img => (colorChannels img =? 3) || (colorChannels img =? 4)
  | None => false
  end.

(** The calls [CreateGLTexture] makes, from the flip request to the last
    [glTexParameteri], once [stbi_load] has returned an image. *)
Definition setup_events (id : Z) : list Event :=
  [stbi_set_flip_vertically_on_load true;
   glGenTextures id;
   glBindTexture GL_TEXTURE_2D id;
   glTexParameteri GL_TEXTURE_2D GL_TEXTURE_WRAP_S GL_REPEAT;
   glTexParameteri GL_TEXTURE_2D GL_TEXTURE_WRAP_T GL_REPEAT;
   glTexParameteri GL_TEXTURE_2D GL_TEXTURE_MIN_FILTER GL_LINEAR;
   glTexParameteri GL_TEXTURE_2D GL_TEXTURE_MAG_FILTER GL_LINEAR].

Definition upload_event (img : Image) : Event :=
  if colorChannels img =? 3 then
    glTexImage2D GL_TEXTURE_2D GL_RGB8 (width img) (height img) GL_RGB GL_UNSIGNED_BYTE
  else
    glTexImage2D GL_TEXTURE_2D GL_RGBA8 (width img) (height img) GL_RGBA GL_UNSIGNED_BYTE.

Definition finish_events : list Event :=
  [glGenerateMipmap GL_TEXTURE_2D; stbi_image_free; glBindTexture GL_TEXTURE_2D 0].

(** The name, as an [int], held by the first entry carrying the tag; -1 if
    there is none. *)
Fixpoint first_id (tag : string) (es : list TEXTURE_INFO) : Z :=
  match es with
  | [] => -1
  | e :: es' => if String.eqb (tex_tag e) tag then to_int (ID e) else first_id tag es'
  end.

(** Unit [i] is activated and the [i]-th entry bound to it, and so on. *)
Fixpoint bind_events (es : list TEXTURE_INFO) (i : Z) : list Event :=
  match es with
  | [] => []
  | e :: es' =>
      glActiveTexture i :: glBindTexture GL_TEXTURE_2D (ID e) :: bind_events es' (i + 1)
  end.

(** The entries with their names replaced by [g], [g + 1], ... *)
Fixpoint rename (es : list TEXTURE_INFO) (g : Z) : list TEXTURE_INFO :=
  match es with
  | [] => []
  | e :: es' => mkTEXTURE_INFO g (tex_tag e) :: rename es' (g + 1)
  end.

(** The value of the last [setIntValue] made under [name], if any. *)
Fixpoint last_int (name : string) (tr : list Event) : option Z :=
  match tr with
  | [] => None
  | e :: tr' =>
      match last_int name tr' with
      | Some v => Some v
      | None =>
          match e with
          | setIntValue n v => if String.eqb n name then Some v else None
          | _ => None
          end
      end
  end.

(** The mesh kinds drawn, in order. *)
Fixpoint draws_of (tr : list Event) : list MeshKind :=
  match tr with
  | [] => []
  | DrawMesh k :: tr' => k :: draws_of tr'
  | _ :: tr' => draws_of tr'
  end.

Definition is_delete (e : Event) : bool :=
  match e with
  | glDeleteTextures _ => true
  | _ => false
  end.

(** [op] relates the world it starts in to every world it returns in. *)
Definition respects {A} (R : World -> World -> Prop) (op : M A) : Prop :=
  forall w a w', op w = Ok (a, w') -> R w w'.

(** Only the trace may differ. *)
Definition same_members (w w' : World) : Prop :=
  this w' = this w /\ gl_next w' = gl_next w /\ stbi_load w' = stbi_load w.

(** The trace has grown, by events none of which is a [glDeleteTextures]. *)
Definition no_delete (w w' : World) : Prop :=
  exists ev, trace w' = trace w ++ ev /\ forallb (fun e => negb (is_delete e)) ev = true.

(** The files and tags of [LoadSceneTextures], in load order. *)
Definition sceneTextures : list (string * string) :=
  [("../../Utilities/textures/green_apple.jpg", "apple");
   ("../../Utilities/textures/apple_stem.jpg", "stem");
   ("../../Utilities/textures/rusticwood.jpg", "table");
   ("../../Utilities/textures/ceramic1.jpg", "ceramic");
   ("../../Utilities/textures/white_cardboard.jpg", "cardboard")].

(** The tags, in order, of the files of a list that decode. *)
Definition decoded_tags (w : World) (files : list (string * string)) : list string :=
  map snd (List.filter (fun p => decodable w (fst p)) files).

(** The loads of a list of files one after the other, results ignored, and
    then [k]: [LoadSceneTextures] is [loads_then sceneTextures BindGLTextures]. *)
Fixpoint loads_then {A} (files : list (string * string)) (k : M A) : M A :=
  match files with
  | [] => k
  | (f, t) :: rest => CreateGLTexture f t ;; loads_then rest k
  end.

(** What [SetShaderMaterial] pushes through a live shader manager. *)
Definition pushed_material (tag_ : string) (uninit : OBJECT_MATERIAL) (s : SceneManager)
  : list Event :=
  match m_objectMaterials s with
  | [] => []
  | _ => material_events (scanned tag_ (m_objectMaterials s) uninit)
  end.

(** The state [RenderScene] needs to return: live pointers, a count within
    the bank, a registry of materials an [int] can index. *)
Definition renderable (s : SceneManager) : Prop :=
  is_null (m_pShaderManager s) = false /\
  is_null (m_basicMeshes s) = false /\
  registry_ok s /\
  Z.of_nat (length (m_objectMaterials s)) <= INT_MAX.

(** A decoder that reads no file, and one that reads a greyscale image. *)
Definition world_no_files : World :=
  mkWorld (mkSceneManager (Addr 1) (Addr 2) 0 (replicate 16 (mkTEXTURE_INFO 0 "")) [])
          1 (fun _ => None) [].

Definition world_grey : World :=
  mkWorld (mkSceneManager (Addr 1) (Addr 2) 0 (replicate 16 (mkTEXTURE_INFO 0 "")) [])
          1 (fun _ => Some (mkImage 64 64 1)) [].

(** A null shader manager and one material defined. *)
Definition world_null_gold : World := with_materials [goldMaterial] world_null.

(** A null shader manager and a full bank. *)
Definition world_null_full : World := Eval vm_compute in
  set_this (mkSceneManager NULL (m_basicMeshes (this world_full))
                           (m_loadedTextures (this world_full))
                           (m_textureIDs (this world_full))
                           (m_objectMaterials (this world_full)))
           world_full.

(** * Proofs *)

(** ** Equations of the monad *)

Lemma bind_Ok {A B} (c : M A) (k : A -> M B) w a w' :
  c w = Ok (a, w') -> bind c k w = k a w'.
Proof. intros H. unfold bind. rewrite H. reflexivity. Qed.

Lemma bind_Fault {A B} (c : M A) (k : A -> M B) w f :
  c w = Fault f -> bind c k w = Fault f.
Proof. intros H. unfold bind. rewrite H. reflexivity. Qed.

Lemma bind_assoc {A B C} (c : M A) (k : A -> M B) (k' : B -> M C) w :
  bind (bind c k) k' w = bind c (fun a => bind (k a) k') w.
Proof. unfold bind. destruct (c w) as [[a w']| |]; reflexivity. Qed.

Lemma bind_ret {A B} (a : A) (k : A -> M B) w : bind (ret a) k w = k a w.
Proof. reflexivity. Qed.

Lemma bind_inv {A B} (c : M A) (k : A -> M B) w r :
  bind c k w = Ok r -> exists a w', c w = Ok (a, w') /\ k a w' = Ok r.
Proof.
  unfold bind. destruct (c w) as [[a w']| |]; [|discriminate|discriminate].
  intros H. exists a, w'. split; [reflexivity|exact H].
Qed.

Lemma while_S {St} fuel (cond : St -> M bool) (body : St -> M St) s :
  while (S fuel) cond body s =
  bind (cond s) (fun c => if c then bind (body s) (while fuel cond body) else ret s).
Proof. reflexivity. Qed.

Lemma incr_Ok i w : i < INT_MAX -> incr i w = Ok (i + 1, w).
Proof.
  intros H. unfold incr. apply Z.ltb_lt in H. rewrite H. reflexivity.
Qed.

Lemma emit_eq e w : emit e w = Ok (tt, add_trace [e] w).
Proof. reflexivity. Qed.

Lemma gets_eq {A} (f : SceneManager -> A) w : gets f w = Ok (f (this w), w).
Proof. reflexivity. Qed.

Lemma add_trace_add ev1 ev2 w : add_trace ev2 (add_trace ev1 w) = add_trace (ev1 ++ ev2) w.
Proof. unfold add_trace. cbn. rewrite app_assoc. reflexivity. Qed.

Lemma add_trace_nil w : add_trace [] w = w.
Proof. destruct w. unfold add_trace. cbn. rewrite app_nil_r. reflexivity. Qed.


Ltac step H := rewrite (bind_Ok _ _ _ _ _ H).

(** Reduce the projections of the records, and nothing else. *)
Ltac members :=
  cbn [this gl_next stbi_load trace m_pShaderManager m_basicMeshes m_loadedTextures
       m_textureIDs m_objectMaterials].

(** ** Calls through the two pointers *)

Lemma shader_Ok e w :
  is_null (m_pShaderManager (this w)) = false -> shader e w = Ok (tt, add_trace [e] w).
Proof.
  intros Hp. unfold shader, call_through. step (gets_eq m_pShaderManager w).
  rewrite Hp. reflexivity.
Qed.

Lemma shader_Fault e w :
  is_null (m_pShaderManager (this w)) = true -> shader e w = Fault NullDereference.
Proof.
  intros Hp. unfold shader, call_through. step (gets_eq m_pShaderManager w).
  rewrite Hp. reflexivity.
Qed.

Lemma shader_inv e w r :
  shader e w = Ok r -> is_null (m_pShaderManager (this w)) = false.
Proof.
  intros H. destruct (is_null (m_pShaderManager (this w))) eqn:Hp; [|reflexivity].
  rewrite shader_Fault in H by exact Hp. discriminate.
Qed.

Lemma meshes_Ok e w :
  is_null (m_basicMeshes (this w)) = false -> meshes e w = Ok (tt, add_trace [e] w).
Proof.
  intros Hp. unfold meshes, call_through. step (gets_eq m_basicMeshes w).
  rewrite Hp. reflexivity.
Qed.

Lemma meshes_inv e w r :
  meshes e w = Ok r -> is_null (m_basicMeshes (this w)) = false /\ this (snd r) = this w.
Proof.
  intros H. destruct (is_null (m_basicMeshes (this w))) eqn:Hp.
  - unfold meshes, call_through in H. rewrite (bind_Ok _ _ _ _ _ (gets_eq _ w)) in H.
    rewrite Hp in H. discriminate.
  - rewrite meshes_Ok in H by exact Hp. inversion H. split; reflexivity.
Qed.


(** ** The material scan *)

Lemma objectMaterials_at_app pre m suf w :
  m_objectMaterials (this w) = pre ++ m :: suf ->
  objectMaterials_at (Z.of_nat (length pre)) w = Ok (m, w).
Proof.
  intros Hm. unfold objectMaterials_at, bind, gets. rewrite Hm.
  destruct (Z.ltb_spec (Z.of_nat (length pre)) 0); [lia|].
  rewrite Nat2Z.id.
  rewrite (list_lookup_middle pre suf m (length pre) eq_refl). reflexivity.
Qed.

Lemma FindMaterial_cond_eq l w :
  FindMaterial_cond l w =
  Ok ((mat_index l <? Z.of_nat (length (m_objectMaterials (this w))))
        && Bool.eqb (mat_bFound l) false, w).
Proof. reflexivity. Qed.

Lemma FindMaterial_scan tag_ suf : forall pre fuel out w,
  m_objectMaterials (this w) = pre ++ suf ->
  Z.of_nat (length (pre ++ suf)) <= INT_MAX ->
  (length suf < fuel)%nat ->
  exists i,
    while fuel FindMaterial_cond (FindMaterial_body tag_)
          (mkMaterialScan (Z.of_nat (length pre)) false out) w
    = Ok (mkMaterialScan i (match first_material tag_ suf with
                            | Some _ => true
                            | None => false
                            end)
                         (scanned tag_ suf out), w).
Proof.
  induction suf as [|m suf IH]; intros pre fuel out w Hm Hlen Hfuel;
    (destruct fuel as [|fuel]; [simpl in Hfuel; lia|]);
    rewrite while_S; step (FindMaterial_cond_eq (mkMaterialScan (Z.of_nat (length pre)) false out) w);
    rewrite Hm; cbn [mat_index mat_bFound Bool.eqb].
  - exists (Z.of_nat (length pre)).
    rewrite app_nil_r, Z.ltb_irrefl. reflexivity.
  - rewrite length_app in *. cbn [length] in *.
    replace (Z.of_nat (length pre) <? Z.of_nat (length pre + S (length suf))) with true
      by (symmetry; apply Z.ltb_lt; lia).
    cbn [andb]. unfold FindMaterial_body at 1. cbn [mat_index mat_bFound material].
    rewrite bind_assoc.
    step (objectMaterials_at_app pre m suf w Hm).
    unfold scanned, first_material. cbn [List.find].
    destruct (String.eqb (tag m) tag_) eqn:Htag.
    + exists (Z.of_nat (length pre)). rewrite bind_ret.
      destruct fuel as [|fuel]; [lia|].
      rewrite while_S.
      step (FindMaterial_cond_eq (mkMaterialScan (Z.of_nat (length pre)) true
                                    (mkOBJECT_MATERIAL (ambientColor m) (ambientStrength m)
              (diffuseColor m) (specularColor m) (shininess m)
              (tag out))) w).
      cbn [mat_bFound Bool.eqb]. rewrite andb_false_r. reflexivity.
    + rewrite bind_assoc. step (incr_Ok (Z.of_nat (length pre)) w ltac:(lia)).
      rewrite bind_ret.
      replace (Z.of_nat (length pre) + 1) with (Z.of_nat (length (pre ++ [m])))
        by (rewrite length_app; simpl; lia).
      apply IH.
      * rewrite <- app_assoc. exact Hm.
      * rewrite <- app_assoc, length_app. simpl. lia.
      * lia.
Qed.

Lemma FindMaterial_spec tag_ out w :
  Z.of_nat (length (m_objectMaterials (this w))) <= INT_MAX ->
  FindMaterial tag_ out w =
  Ok (match m_objectMaterials (this w) with [] => false | _ => true end,
      scanned tag_ (m_objectMaterials (this w)) out, w).
Proof.
  intros Hlen. unfold FindMaterial, bind at 1, gets.
  destruct (m_objectMaterials (this w)) as [|m mats] eqn:Hm.
  - reflexivity.
  - cbn [length Nat.eqb]. 
    destruct (FindMaterial_scan tag_ (m :: mats) [] (S (S (length mats))) out w Hm Hlen) as [i Hi].
    { simpl. lia. }
    cbn [length Z.of_nat] in Hi.
    step Hi. reflexivity.
Qed.


Lemma first_material_None tag_ mats :
  (forall m, In m mats -> tag m <> tag_) -> first_material tag_ mats = None.
Proof.
  unfold first_material. induction mats as [|m mats IH]; intros H; cbn [List.find].
  - reflexivity.
  - destruct (String.eqb_spec (tag m) tag_) as [Heq|_].
    + exfalso. apply (H m); [left; reflexivity|exact Heq].
    + apply IH. intros x Hx. apply H. right. exact Hx.
Qed.

Lemma first_material_app tag_ pre m rest :
  (forall x, In x pre -> tag x <> tag_) -> tag m = tag_ ->
  first_material tag_ (pre ++ m :: rest) = Some m.
Proof.
  unfold first_material. intros Hpre Hm.
  induction pre as [|p pre IH]; cbn [app List.find].
  - rewrite Hm, String.eqb_refl. reflexivity.
  - destruct (String.eqb_spec (tag p) tag_) as [Heq|_].
    + exfalso. apply (Hpre p); [left; reflexivity|exact Heq].
    + apply IH. intros x Hx. apply Hpre. right. exact Hx.
Qed.

(** ** The texture scan *)

Lemma entries_length s :
  registry_ok s -> Z.of_nat (length (entries s)) = m_loadedTextures s.
Proof.
  intros [Hb Hn]. unfold entries. rewrite length_take_le; [lia|].
  rewrite Hb. unfold TEXTURE_SLOTS in *. lia.
Qed.

Lemma textureIDs_at_Ok i e w :
  0 <= i -> m_textureIDs (this w) !! Z.to_nat i = Some e ->
  textureIDs_at i w = Ok (e, w).
Proof.
  intros Hi Hl. unfold textureIDs_at. step (gets_eq m_textureIDs w).
  destruct (Z.ltb_spec i 0); [lia|]. rewrite Hl. reflexivity.
Qed.

Lemma textureIDs_at_Fault i w :
  i < 0 \/ m_textureIDs (this w) !! Z.to_nat i = None ->
  textureIDs_at i w = Fault (OutOfBounds i).
Proof.
  intros Hi. unfold textureIDs_at. step (gets_eq m_textureIDs w).
  destruct (Z.ltb_spec i 0); [reflexivity|].
  destruct Hi as [Hi|Hi]; [lia|]. rewrite Hi. reflexivity.
Qed.

Lemma textureIDs_at_entry pre e suf w :
  entries (this w) = pre ++ e :: suf ->
  textureIDs_at (Z.of_nat (length pre)) w = Ok (e, w).
Proof.
  intros He. unfold textureIDs_at, bind, gets.
  destruct (Z.ltb_spec (Z.of_nat (length pre)) 0); [lia|].
  rewrite Nat2Z.id.
  assert (Hl : entries (this w) !! length pre = Some e).
  { rewrite He. apply list_lookup_middle. reflexivity. }
  unfold entries in Hl. apply lookup_take_Some in Hl. destruct Hl as [Hl _].
  rewrite Hl. reflexivity.
Qed.

Lemma FindTextureSlot_cond_eq l w :
  FindTextureSlot_cond l w =
  Ok ((slot_index l <? m_loadedTextures (this w)) && Bool.eqb (slot_bFound l) false, w).
Proof. reflexivity. Qed.

Lemma FindTextureSlot_scan tag_ suf : forall pre fuel w,
  registry_ok (this w) ->
  entries (this w) = pre ++ suf ->
  (length suf < fuel)%nat ->
  exists i b,
    while fuel FindTextureSlot_cond (FindTextureSlot_body tag_)
          (mkSlotScan (-1) (Z.of_nat (length pre)) false) w
    = Ok (mkSlotScan (first_index tag_ (map tex_tag suf) (Z.of_nat (length pre))) i b, w).
Proof.
  induction suf as [|e suf IH]; intros pre fuel w Hok He Hfuel;
    (destruct fuel as [|fuel]; [simpl in Hfuel; lia|]);
    rewrite while_S;
    step (FindTextureSlot_cond_eq (mkSlotScan (-1) (Z.of_nat (length pre)) false) w);
    rewrite <- (entries_length _ Hok), He; cbn [slot_index slot_bFound Bool.eqb].
  - exists (Z.of_nat (length pre)), false.
    rewrite app_nil_r, Z.ltb_irrefl. reflexivity.
  - rewrite length_app. cbn [length].
    replace (Z.of_nat (length pre) <? Z.of_nat (length pre + S (length suf))) with true
      by (symmetry; apply Z.ltb_lt; lia).
    cbn [andb]. unfold FindTextureSlot_body at 1. cbn [slot_index slot_bFound textureSlot].
    rewrite bind_assoc.
    step (textureIDs_at_entry pre e suf w He).
    cbn [map first_index].
    destruct (String.eqb (tex_tag e) tag_) eqn:Htag.
    + exists (Z.of_nat (length pre)), true. rewrite bind_ret.
      destruct fuel as [|fuel]; [simpl in Hfuel; lia|].
      rewrite while_S.
      step (FindTextureSlot_cond_eq
              (mkSlotScan (Z.of_nat (length pre)) (Z.of_nat (length pre)) true) w).
      cbn [slot_bFound Bool.eqb]. rewrite andb_false_r. reflexivity.
    + assert (Hlt : Z.of_nat (length pre) < INT_MAX).
      { pose proof (entries_length _ Hok) as Hl. rewrite He, length_app in Hl.
        destruct Hok as [_ Hn]. unfold TEXTURE_SLOTS, INT_MAX in *. simpl in Hl. lia. }
      rewrite bind_assoc. step (incr_Ok (Z.of_nat (length pre)) w Hlt).
      rewrite bind_ret.
      replace (Z.of_nat (length pre) + 1) with (Z.of_nat (length (pre ++ [e])))
        by (rewrite length_app; simpl; lia).
      apply IH; [exact Hok| |simpl in Hfuel; lia].
      rewrite <- app_assoc. exact He.
Qed.

Lemma FindTextureSlot_spec tag_ w :
  registry_ok (this w) ->
  FindTextureSlot tag_ w = Ok (first_index tag_ (map tex_tag (entries (this w))) 0, w).
Proof.
  intros Hok. unfold FindTextureSlot, bind at 1, gets.
  destruct (FindTextureSlot_scan tag_ (entries (this w)) []
              (S (Z.to_nat (m_loadedTextures (this w)))) w Hok eq_refl) as (i & b & Hs).
  { pose proof (entries_length _ Hok). lia. }
  cbn [length Z.of_nat] in Hs. step Hs. reflexivity.
Qed.

Lemma first_index_spec tag_ tags : forall i,
  0 <= i ->
  (first_index tag_ tags i = -1 /\ ~ In tag_ tags) \/
  (exists k : nat,
      first_index tag_ tags i = i + Z.of_nat k /\
      tags !! k = Some tag_ /\
      forall j t, (j < k)%nat -> tags !! j = Some t -> t <> tag_).
Proof.
  induction tags as [|t tags IH]; intros i Hi; cbn [first_index].
  - left. split; [reflexivity|]. intros [].
  - destruct (String.eqb_spec t tag_) as [Heq|Hne].
    + right. exists 0%nat. subst. repeat split; [lia|]. intros j t Hj. lia.
    + destruct (IH (i + 1) ltac:(lia)) as [[Hr Hn]|(k & Hr & Hk & Hlt)].
      * left. split; [exact Hr|]. intros [H|H]; [exact (Hne H)|exact (Hn H)].
      * right. exists (S k). repeat split; [lia|exact Hk|].
        intros [|j] t' Hj Hl; cbn in Hl.
        -- inversion Hl; subst. exact Hne.
        -- eapply Hlt; [|exact Hl]. lia.
Qed.


Lemma first_index_none tag_ tags i :
  (forall t, In t tags -> t <> tag_) -> first_index tag_ tags i = -1.
Proof.
  revert i. induction tags as [|t tags IH]; intros i H; cbn [first_index].
  - reflexivity.
  - destruct (String.eqb_spec t tag_) as [Heq|_].
    + exfalso. apply (H t); [left; reflexivity|exact Heq].
    + apply IH. intros x Hx. apply H. right. exact Hx.
Qed.

(** ** Registering a texture *)

Lemma CreateGLTexture_register_Ok id t w e :
  0 <= m_loadedTextures (this w) < INT_MAX ->
  m_textureIDs (this w) !! Z.to_nat (m_loadedTextures (this w)) = Some e ->
  CreateGLTexture_register id t w =
  Ok (true, set_this (registered id t (this w))
              (add_trace [glGenerateMipmap GL_TEXTURE_2D; stbi_image_free;
                          glBindTexture GL_TEXTURE_2D 0] w)).
Proof.
  intros Hn Hl. unfold CreateGLTexture_register.
  do 3 (erewrite bind_Ok; [|apply emit_eq]).
  erewrite bind_Ok; [|apply gets_eq].
  unfold textureIDs_store. rewrite bind_assoc.
  erewrite bind_Ok; [|apply textureIDs_at_Ok; [apply Hn|exact Hl]].
  erewrite bind_Ok; [|reflexivity].
  erewrite bind_Ok; [|apply gets_eq].
  rewrite bind_assoc.
  erewrite bind_Ok;
    [|apply textureIDs_at_Ok;
      [apply Hn|cbn; apply list_lookup_insert_eq; eapply lookup_lt_Some; exact Hl]].
  erewrite bind_Ok; [|reflexivity].
  erewrite bind_Ok; [|apply gets_eq].
  erewrite bind_Ok; [|apply incr_Ok; apply Hn].
  erewrite bind_Ok; [|reflexivity].
  unfold ret, registered, set_this, add_trace. cbn.
  rewrite list_insert_insert_eq, <- !app_assoc. reflexivity.
Qed.

Lemma CreateGLTexture_register_Fault id t w :
  m_loadedTextures (this w) < 0 \/
  m_textureIDs (this w) !! Z.to_nat (m_loadedTextures (this w)) = None ->
  CreateGLTexture_register id t w = Fault (OutOfBounds (m_loadedTextures (this w))).
Proof.
  intros Hn. unfold CreateGLTexture_register.
  do 3 (erewrite bind_Ok; [|apply emit_eq]).
  erewrite bind_Ok; [|apply gets_eq].
  unfold textureIDs_store. rewrite bind_assoc.
  erewrite bind_Fault; [reflexivity|].
  apply textureIDs_at_Fault. exact Hn.
Qed.

Lemma CreateGLTexture_register_inv id t w b w' :
  CreateGLTexture_register id t w = Ok (b, w') ->
  b = true /\ 0 <= m_loadedTextures (this w) /\
  (Z.to_nat (m_loadedTextures (this w)) < length (m_textureIDs (this w)))%nat /\
  this w' = registered id t (this w).
Proof.
  intros H.
  destruct (Z.ltb_spec (m_loadedTextures (this w)) 0) as [Hn|Hn].
  { rewrite CreateGLTexture_register_Fault in H by (left; exact Hn). discriminate. }
  destruct (m_textureIDs (this w) !! Z.to_nat (m_loadedTextures (this w))) as [e|] eqn:Hl.
  2: { rewrite CreateGLTexture_register_Fault in H by (right; exact Hl). discriminate. }
  destruct (Z.ltb_spec (m_loadedTextures (this w)) INT_MAX) as [Hm|Hm].
  - rewrite (CreateGLTexture_register_Ok id t w e) in H by (auto; lia).
    inversion H; subst. repeat split; [exact Hn|].
    eapply lookup_lt_Some. exact Hl.
  - exfalso. revert H. unfold CreateGLTexture_register.
    do 3 (erewrite bind_Ok; [|apply emit_eq]).
    erewrite bind_Ok; [|apply gets_eq].
    unfold textureIDs_store. rewrite bind_assoc.
    erewrite bind_Ok; [|apply textureIDs_at_Ok; [apply Hn|exact Hl]].
    erewrite bind_Ok; [|reflexivity].
    erewrite bind_Ok; [|apply gets_eq].
    rewrite bind_assoc.
    erewrite bind_Ok;
      [|apply textureIDs_at_Ok;
        [apply Hn|cbn; apply list_lookup_insert_eq; eapply lookup_lt_Some; exact Hl]].
    erewrite bind_Ok; [|reflexivity].
    erewrite bind_Ok; [|apply gets_eq].
    erewrite bind_Fault; [discriminate|].
    unfold incr. cbn. destruct (Z.ltb_spec (m_loadedTextures (this w)) INT_MAX); [lia|].
    reflexivity.
Qed.

Lemma CreateGLTexture_inv f t w b w' :
  CreateGLTexture f t w = Ok (b, w') ->
  (b = false /\ this w' = this w) \/
  (b = true /\ 0 <= m_loadedTextures (this w) /\
   (Z.to_nat (m_loadedTextures (this w)) < length (m_textureIDs (this w)))%nat /\
   exists id, this w' = registered id t (this w)).
Proof.
  unfold CreateGLTexture.
  erewrite bind_Ok; [|apply emit_eq].
  erewrite bind_Ok; [|reflexivity]. cbn [stbi_load add_trace].
  destruct (stbi_load w f) as [img|]; [|intros H; inversion H; left; auto].
  erewrite bind_Ok; [|reflexivity].
  do 5 (erewrite bind_Ok; [|apply emit_eq]).
  destruct (colorChannels img =? 3); [|destruct (colorChannels img =? 4)].
  3: { intros H; inversion H; left; auto. }
  all: erewrite bind_Ok; [|apply emit_eq].
  all: intros H; apply CreateGLTexture_register_inv in H.
  all: right; cbn in H; destruct H as (Hb & Hn & Hl & Hs).
  all: repeat split; auto; eexists; exact Hs.
Qed.

Lemma CreateGLTexture_full f t w img :
  stbi_load w f = Some img ->
  colorChannels img = 3 \/ colorChannels img = 4 ->
  m_loadedTextures (this w) = Z.of_nat (length (m_textureIDs (this w))) ->
  CreateGLTexture f t w = Fault (OutOfBounds (m_loadedTextures (this w))).
Proof.
  intros Hf Hc Hn. unfold CreateGLTexture.
  erewrite bind_Ok; [|apply emit_eq].
  erewrite bind_Ok; [|reflexivity]. cbn [stbi_load add_trace]. rewrite Hf.
  erewrite bind_Ok; [|reflexivity].
  do 5 (erewrite bind_Ok; [|apply emit_eq]).
  assert (Hreg : forall id w1, this w1 = this w ->
            CreateGLTexture_register id t w1 = Fault (OutOfBounds (m_loadedTextures (this w)))).
  { intros id w1 Hw. rewrite <- Hw. apply CreateGLTexture_register_Fault. right.
    rewrite Hw, Hn, Nat2Z.id. apply lookup_ge_None. lia. }
  destruct Hc as [Hc|Hc]; rewrite Hc; cbn [Z.eqb Pos.eqb];
    (erewrite bind_Ok; [|apply emit_eq]); apply Hreg; reflexivity.
Qed.

Lemma registered_entries id t s :
  registry_ok s -> (Z.to_nat (m_loadedTextures s) < length (m_textureIDs s))%nat ->
  registry_ok (registered id t s) /\
  entries (registered id t s) = entries s ++ [mkTEXTURE_INFO id t].
Proof.
  intros [Hb Hn] Hlt. split.
  - split; cbn; [rewrite length_insert; exact Hb|]. rewrite Hb in Hlt. lia.
  - unfold entries, registered. cbn.
    replace (Z.to_nat (m_loadedTextures s + 1)) with (S (Z.to_nat (m_loadedTextures s))) by lia.
    erewrite take_S_r by (apply list_lookup_insert_eq; exact Hlt).
    rewrite take_insert_ge by lia. reflexivity.
Qed.

Lemma loaded_invariant w0 loads w :
  registry_ok (this w0) -> m_loadedTextures (this w0) = 0 ->
  loaded w0 loads w ->
  registry_ok (this w) /\
  m_loadedTextures (this w) = Z.of_nat (length loads) /\
  map tex_tag (entries (this w)) = map fst loads /\
  (forall k t s, loads !! k = Some (t, s) -> s = Z.of_nat k).
Proof.
  intros Hok H0 Hl. induction Hl as [|loads w f t w' Hl IH Hc|loads w f t w' Hl IH Hc].
  - repeat split; try apply Hok; [exact H0| |intros k t s H; discriminate].
    unfold entries. rewrite H0. reflexivity.
  - destruct IH as (Hokw & Hn & He & Hs).
    apply CreateGLTexture_inv in Hc.
    destruct Hc as [[Hb _]|(_ & Hn0 & Hlt & id & Hw)]; [discriminate|].
    destruct (registered_entries id t (this w) Hokw Hlt) as [Hok' He'].
    rewrite Hw. repeat split; try apply Hok'.
    + cbn. rewrite Hn, length_app. cbn. lia.
    + rewrite He', !map_app, He. reflexivity.
    + intros k t' s Hk. apply lookup_app_Some in Hk.
      destruct Hk as [Hk|[Hge Hk]]; [eauto|].
      destruct (k - length loads)%nat as [|d] eqn:Hd; [|discriminate].
      cbn in Hk. inversion Hk; subst. lia.
  - destruct IH as (Hokw & Hn & He & Hs).
    apply CreateGLTexture_inv in Hc.
    destruct Hc as [[_ Hw]|(Hb & _)]; [|discriminate].
    rewrite Hw. auto.
Qed.


(** ** The teardown loop *)

Lemma fresh_names_S g k : fresh_names g (S k) = g :: fresh_names (g + 1) k.
Proof.
  unfold fresh_names. cbn [seq map]. rewrite <- seq_shift, map_map.
  f_equal; [lia|]. apply map_ext. intros j. lia.
Qed.

Lemma DestroyGLTextures_body_Ok i w :
  registry_ok (this w) -> 0 <= i < m_loadedTextures (this w) ->
  exists w',
    DestroyGLTextures_body i w = Ok (tt, w') /\
    registry_ok (this w') /\
    m_loadedTextures (this w') = m_loadedTextures (this w) /\
    gl_next w' = gl_next w + 1 /\
    trace w' = trace w ++ [glGenTextures (gl_next w)].
Proof.
  intros [Hb Hn] Hi.
  destruct (lookup_lt_is_Some_2 (m_textureIDs (this w)) (Z.to_nat i)) as [e He].
  { rewrite Hb. lia. }
  eexists. split.
  - unfold DestroyGLTextures_body.
    erewrite bind_Ok; [|apply textureIDs_at_Ok; [lia|exact He]].
    erewrite bind_Ok; [|reflexivity]. reflexivity.
  - unfold registry_ok, set_this, set_textureIDs.
    members. repeat split; try lia. rewrite length_insert. exact Hb.
Qed.

Lemma DestroyGLTextures_loop k : forall i fuel w,
  registry_ok (this w) -> 0 <= i ->
  i + Z.of_nat k = m_loadedTextures (this w) ->
  (k < fuel)%nat ->
  exists w',
    while fuel (fun i => n <- gets m_loadedTextures ;; ret (i <? n))
               (fun i => DestroyGLTextures_body i ;; incr i) i w
    = Ok (m_loadedTextures (this w), w') /\
    registry_ok (this w') /\
    m_loadedTextures (this w') = m_loadedTextures (this w) /\
    trace w' = trace w ++ map glGenTextures (fresh_names (gl_next w) k).
Proof.
  induction k as [|k IH]; intros i fuel w Hok Hi Hn Hfuel;
    (destruct fuel as [|fuel]; [lia|]); rewrite while_S;
    rewrite bind_assoc; (erewrite bind_Ok; [|apply gets_eq]); rewrite bind_ret.
  - replace (i <? m_loadedTextures (this w)) with false
      by (symmetry; apply Z.ltb_ge; lia).
    exists w. replace i with (m_loadedTextures (this w)) by lia.
    repeat split; try apply Hok. cbn. rewrite app_nil_r. reflexivity.
  - replace (i <? m_loadedTextures (this w)) with true
      by (symmetry; apply Z.ltb_lt; lia).
    destruct (DestroyGLTextures_body_Ok i w Hok ltac:(lia)) as (w1 & Hb & Hok1 & Hn1 & Hg1 & Ht1).
    rewrite bind_assoc. erewrite bind_Ok; [|exact Hb].
    erewrite bind_Ok; [|apply incr_Ok; destruct Hok as [_ Hr]; unfold TEXTURE_SLOTS, INT_MAX in *; lia].
    destruct (IH (i + 1) fuel w1 Hok1 ltac:(lia) ltac:(lia) ltac:(lia))
      as (w' & Hw & Hok' & Hn' & Ht').
    exists w'. rewrite Hw, Hn1. repeat split; try apply Hok'; [congruence|].
    rewrite Ht', Ht1, Hg1, fresh_names_S, <- app_assoc. reflexivity.
Qed.

Lemma DestroyGLTextures_spec w :
  registry_ok (this w) ->
  exists w',
    DestroyGLTextures w = Ok (tt, w') /\
    m_loadedTextures (this w') = m_loadedTextures (this w) /\
    trace w' = trace w ++ map glGenTextures
                 (fresh_names (gl_next w) (Z.to_nat (m_loadedTextures (this w)))).
Proof.
  intros Hok. unfold DestroyGLTextures.
  erewrite bind_Ok; [|apply gets_eq]. unfold for_loop.
  destruct (DestroyGLTextures_loop (Z.to_nat (m_loadedTextures (this w))) 0
              (S (Z.to_nat (m_loadedTextures (this w)))) w Hok)
    as (w' & Hw & _ & Hn & Ht); [lia|destruct Hok; lia|lia|].
  exists w'. erewrite bind_Ok; [|exact Hw]. auto.
Qed.


(** ** The dispatcher under a live shader manager *)

Lemma SetShaderMaterial_Ok tag_ uninit w :
  is_null (m_pShaderManager (this w)) = false ->
  Z.of_nat (length (m_objectMaterials (this w))) <= INT_MAX ->
  SetShaderMaterial tag_ uninit w =
  Ok (tt, add_trace (match m_objectMaterials (this w) with
                     | [] => []
                     | _ => material_events (scanned tag_ (m_objectMaterials (this w)) uninit)
                     end) w).
Proof.
  intros Hp Hlen. unfold SetShaderMaterial. step (gets_eq m_objectMaterials w).
  destruct (m_objectMaterials (this w)) as [|m mats] eqn:Hm.
  - cbn. rewrite add_trace_nil. reflexivity.
  - cbn [length Nat.ltb Nat.leb].
    rewrite <- Hm in Hlen. step (FindMaterial_spec tag_ uninit w Hlen).
    rewrite Hm. cbn [Bool.eqb].
    rewrite <- Hm.
    repeat (erewrite bind_Ok; [|apply shader_Ok; exact Hp]).
    rewrite shader_Ok by exact Hp.
    rewrite !add_trace_add. reflexivity.
Qed.

Lemma SetShaderTexture_Ok tag_ w :
  is_null (m_pShaderManager (this w)) = false ->
  registry_ok (this w) ->
  SetShaderTexture tag_ w =
  Ok (tt, add_trace [setIntValue g_UseTextureName 1;
                     setSampler2DValue g_TextureValueName
                       (first_index tag_ (map tex_tag (entries (this w))) 0)] w).
Proof.
  intros Hp Hok. unfold SetShaderTexture. step (gets_eq m_pShaderManager w).
  rewrite Hp. cbn [negb].
  erewrite bind_Ok; [|apply shader_Ok; exact Hp].
  erewrite bind_Ok; [|apply FindTextureSlot_spec; exact Hok].
  rewrite shader_Ok by exact Hp.
  rewrite add_trace_add. reflexivity.
Qed.

Lemma SetTransformations_Ok lm sc rx ry rz pos w :
  is_null (m_pShaderManager (this w)) = false ->
  SetTransformations lm sc rx ry rz pos w =
  Ok (tt, add_trace [setMat4Value g_ModelName (modelView lm sc rx ry rz pos)] w).
Proof.
  intros Hp. unfold SetTransformations. step (gets_eq m_pShaderManager w).
  rewrite Hp. cbn [negb]. apply shader_Ok. exact Hp.
Qed.

Lemma SetShaderColor_Ok r g b a w :
  is_null (m_pShaderManager (this w)) = false ->
  SetShaderColor r g b a w =
  Ok (tt, add_trace [setIntValue g_UseTextureName 0;
                     setVec4Value g_ColorValueName (glm.Vec4 r g b a)] w).
Proof.
  intros Hp. unfold SetShaderColor. step (gets_eq m_pShaderManager w).
  rewrite Hp. cbn [negb].
  erewrite bind_Ok; [|apply shader_Ok; exact Hp].
  rewrite shader_Ok by exact Hp.
  rewrite add_trace_add. reflexivity.
Qed.

(** ** Computations that leave the members alone *)

Create HintDb keeps.

Lemma keeps_bind {A B} (c : M A) (k : A -> M B) :
  keeps_this c -> (forall a, keeps_this (k a)) -> keeps_this (bind c k).
Proof.
  intros Hc Hk w b w' H. apply bind_inv in H. destruct H as (a & w1 & H1 & H2).
  rewrite (Hk a _ _ _ H2). exact (Hc _ _ _ H1).
Qed.

Lemma keeps_ret {A} (a : A) : keeps_this (ret a).
Proof. intros w b w' H. inversion H. reflexivity. Qed.

Lemma keeps_raise {A} f : keeps_this (@raise A f).
Proof. intros w b w' H. discriminate. Qed.

Lemma keeps_gets {A} (f : SceneManager -> A) : keeps_this (gets f).
Proof. intros w b w' H. inversion H. reflexivity. Qed.

Lemma keeps_emit e : keeps_this (emit e).
Proof. intros w b w' H. inversion H. reflexivity. Qed.

Lemma keeps_incr i : keeps_this (incr i).
Proof. unfold incr. destruct (i <? INT_MAX); [apply keeps_ret|apply keeps_raise]. Qed.

Lemma keeps_call_through p e : keeps_this (call_through p e).
Proof.
  unfold call_through. apply keeps_bind; [apply keeps_gets|].
  intros q. destruct (is_null q); [apply keeps_raise|apply keeps_emit].
Qed.

Lemma keeps_textureIDs_at i : keeps_this (textureIDs_at i).
Proof.
  unfold textureIDs_at. apply keeps_bind; [apply keeps_gets|]. intros bank.
  destruct (i <? 0); [apply keeps_raise|].
  destruct (bank !! Z.to_nat i); [apply keeps_ret|apply keeps_raise].
Qed.

Lemma keeps_while {St} (cond : St -> M bool) (body : St -> M St) :
  (forall s, keeps_this (cond s)) -> (forall s, keeps_this (body s)) ->
  forall fuel s, keeps_this (while fuel cond body s).
Proof.
  intros Hc Hb. induction fuel as [|fuel IH]; intros s.
  - intros w a w' H. discriminate.
  - rewrite while_S. apply keeps_bind; [apply Hc|].
    intros [|]; [|apply keeps_ret].
    apply keeps_bind; [apply Hb|apply IH].
Qed.


#[local] Hint Resolve keeps_bind keeps_ret keeps_raise keeps_gets keeps_emit keeps_incr
  keeps_call_through keeps_textureIDs_at : keeps.

Lemma keeps_BindGLTextures : keeps_this BindGLTextures.
Proof.
  unfold BindGLTextures, for_loop.
  apply keeps_bind; [auto with keeps|intros n].
  apply keeps_bind; [|auto with keeps].
  apply keeps_while; intros i; auto 8 with keeps.
Qed.

Lemma keeps_SetupSceneLights : keeps_this SetupSceneLights.
Proof.
  unfold SetupSceneLights, shader.
  repeat (apply keeps_bind; [auto with keeps|intros _]).
  auto with keeps.
Qed.

(** ** What scene preparation establishes *)

Lemma texture_frame_refl s : texture_frame s s.
Proof. unfold texture_frame. tauto. Qed.

Lemma texture_frame_trans s1 s2 s3 :
  texture_frame s1 s2 -> texture_frame s2 s3 -> texture_frame s1 s3.
Proof.
  intros (A1 & B1 & C1 & D1) (A2 & B2 & C2 & D2).
  unfold texture_frame. split; [congruence|]. split; [congruence|].
  split; [congruence|auto].
Qed.

Lemma CreateGLTexture_frame f t w b w' :
  CreateGLTexture f t w = Ok (b, w') -> texture_frame (this w) (this w').
Proof.
  intros H. apply CreateGLTexture_inv in H.
  destruct H as [[_ Hw]|(_ & Hn & Hlt & id & Hw)]; rewrite Hw.
  - apply texture_frame_refl.
  - unfold texture_frame. split; [reflexivity|]. split; [reflexivity|].
    split; [reflexivity|]. intros Hok. apply registered_entries; assumption.
Qed.

Lemma LoadSceneTextures_frame w w' :
  LoadSceneTextures w = Ok (tt, w') -> texture_frame (this w) (this w').
Proof.
  unfold LoadSceneTextures. intros H.
  repeat (apply bind_inv in H;
          let b := fresh "b" in let w1 := fresh "w" in
          let H1 := fresh "H" in
          destruct H as (b & w1 & H1 & H);
          apply CreateGLTexture_frame in H1).
  apply keeps_BindGLTextures in H. rewrite H.
  repeat (eapply texture_frame_trans; [eassumption|]).
  apply texture_frame_refl.
Qed.

Lemma push_back_eq m w :
  push_back m w = Ok (tt, with_materials (m_objectMaterials (this w) ++ [m]) w).
Proof. reflexivity. Qed.

Lemma push_back_again m l w :
  push_back m (with_materials l w) = Ok (tt, with_materials (l ++ [m]) w).
Proof. reflexivity. Qed.

Lemma DefineObjectMaterials_eq w :
  DefineObjectMaterials w =
  Ok (tt, with_materials (m_objectMaterials (this w) ++ sceneMaterials) w).
Proof.
  unfold DefineObjectMaterials.
  erewrite bind_Ok; [|apply push_back_eq].
  repeat (erewrite bind_Ok; [|apply push_back_again]).
  rewrite push_back_again, <- !app_assoc. reflexivity.
Qed.

Lemma PrepareScene_prepared w0 w1 :
  constructed (this w0) -> PrepareScene w0 = Ok (tt, w1) -> prepared (this w1).
Proof.
  intros (Hok & Hn & Hm) H. unfold PrepareScene in H.
  apply bind_inv in H. destruct H as ([] & wa & Ha & H).
  apply LoadSceneTextures_frame in Ha. destruct Ha as (Ap & Ab & Am & Aok).
  cbv beta in H.
  rewrite (bind_Ok _ _ _ _ _ (DefineObjectMaterials_eq wa)) in H.
  apply bind_inv in H. destruct H as ([] & wc & Hc & H).
  assert (Hp : is_null (m_pShaderManager (this wc)) = false).
  { pose proof (keeps_SetupSceneLights _ _ _ Hc) as Hk. rewrite Hk.
    unfold SetupSceneLights in Hc. apply bind_inv in Hc.
    destruct Hc as (? & ? & Hc & _). apply shader_inv in Hc. exact Hc. }
  apply keeps_SetupSceneLights in Hc.
  assert (Hq : is_null (m_basicMeshes (this wc)) = false /\ this w1 = this wc).
  { repeat (apply bind_inv in H;
            let a := fresh "a" in let w := fresh "w" in let H1 := fresh "H" in
            destruct H as (a & w & H1 & H); apply meshes_inv in H1; cbn in H1;
            destruct H1 as [? ?]).
    apply meshes_inv in H. cbn in H. destruct H as [? H].
    split; [assumption|]. congruence. }
  destruct Hq as [Hq Hw]. rewrite Hw. rewrite Hc in *.
  unfold with_materials, set_this, set_objectMaterials in *.
  cbn [this m_pShaderManager m_basicMeshes m_loadedTextures m_textureIDs
       m_objectMaterials] in *.
  unfold prepared, defined.
  cbn [this m_pShaderManager m_basicMeshes m_loadedTextures m_textureIDs
       m_objectMaterials].
  rewrite Am, Hm. cbn [app].
  split; [exact Hp|]. split; [exact Hq|].
  split; [destruct (Aok Hok) as [A1 A2]; split; assumption|].
  split; [unfold sceneMaterials, INT_MAX; cbn [length]; lia|].
  repeat split; discriminate.
Qed.


(** ** One frame *)

Section Frame.

Variable P : SceneManager -> Prop.
Hypothesis P_shader : forall s, P s -> is_null (m_pShaderManager s) = false.
Hypothesis P_meshes : forall s, P s -> is_null (m_basicMeshes s) = false.
Hypothesis P_registry : forall s, P s -> registry_ok s.
Hypothesis P_materials :
  forall s, P s -> Z.of_nat (length (m_objectMaterials s)) <= INT_MAX.

Lemma writes_seq op1 op2 E1 E2 :
  writes P op1 E1 -> writes P op2 E2 ->
  writes P (op1 ;; op2) (fun s => E1 s ++ E2 s).
Proof.
  intros H1 H2 w Hw. rewrite (bind_Ok _ _ _ _ _ (H1 w Hw)).
  rewrite (H2 (add_trace (E1 (this w)) w) Hw). rewrite add_trace_add. reflexivity.
Qed.

Lemma writes_ext op E E' :
  writes P op E -> (forall s, P s -> E s = E' s) -> writes P op E'.
Proof. intros H He w Hw. rewrite <- (He _ Hw). apply H. exact Hw. Qed.

Lemma writes_SetShaderMaterial tag_ uninit :
  (forall s, P s -> defined tag_ s) ->
  writes P (SetShaderMaterial tag_ uninit) (found_events tag_).
Proof.
  intros Hdef w Hw. pose proof (Hdef _ Hw) as Hd.
  rewrite SetShaderMaterial_Ok by auto.
  unfold found_events, defined, scanned in *.
  destruct (m_objectMaterials (this w)) as [|m mats]; [cbn in Hd; congruence|].
  destruct (first_material tag_ (m :: mats)); [reflexivity|congruence].
Qed.

Lemma writes_SetShaderTexture tag_ :
  writes P (SetShaderTexture tag_)
    (fun s => [setIntValue g_UseTextureName 1;
               setSampler2DValue g_TextureValueName
                 (first_index tag_ (map tex_tag (entries s)) 0)]).
Proof. intros w Hw. apply SetShaderTexture_Ok; auto. Qed.

Lemma writes_SetTransformations lm sc rx ry rz pos :
  writes P (SetTransformations lm sc rx ry rz pos)
    (fun _ => [setMat4Value g_ModelName (modelView lm sc rx ry rz pos)]).
Proof. intros w Hw. apply SetTransformations_Ok. auto. Qed.

Lemma writes_SetShaderColor r g b a :
  writes P (SetShaderColor r g b a)
    (fun _ => [setIntValue g_UseTextureName 0;
               setVec4Value g_ColorValueName (glm.Vec4 r g b a)]).
Proof. intros w Hw. apply SetShaderColor_Ok. auto. Qed.

Lemma writes_meshes e : writes P (meshes e) (fun _ => [e]).
Proof. intros w Hw. apply meshes_Ok. auto. Qed.

End Frame.

Lemma RenderScene_writes lm uninit : writes prepared (RenderScene lm uninit) (frame_events lm).
Proof.
  assert (Hs : forall s, prepared s -> is_null (m_pShaderManager s) = false)
    by (unfold prepared; tauto).
  assert (Hm : forall s, prepared s -> is_null (m_basicMeshes s) = false)
    by (unfold prepared; tauto).
  assert (Hr : forall s, prepared s -> registry_ok s) by (unfold prepared; tauto).
  assert (Hl : forall s, prepared s ->
                         Z.of_nat (length (m_objectMaterials s)) <= INT_MAX)
    by (unfold prepared; tauto).
  eapply writes_ext.
  - unfold RenderScene.
    repeat (apply writes_seq;
            [first [ apply writes_SetTransformations; exact Hs
                   | apply writes_SetShaderColor; exact Hs
                   | apply writes_SetShaderMaterial;
                     [exact Hs|exact Hl|unfold prepared; tauto]
                   | apply writes_SetShaderTexture; [exact Hs|exact Hr]
                   | apply writes_meshes; exact Hm ]|]).
    apply writes_meshes. exact Hm.
  - intros s _. cbv beta.
    unfold frame_events, sceneObjects, object_events, object_matrix, color_events.
    cbn [flat_map meshKind objScale rotationDegrees objPosition overrideColor
         materialTag textureTag glm.x3 glm.y3 glm.z3].
    rewrite <- ?app_assoc. cbn [app]. reflexivity.
Qed.

(** ** GLM against the textbook matrices *)

(** *** Binary32 arithmetic: multiplying by one is exact *)

Section Binary32.

Lemma shift_23 (m : positive) :
  SpecFloat.iter_pos shr_1 23 (Build_shr_record (Z.pos (8388608 * m)) false false)
  = Build_shr_record (Z.pos m) false false.
Proof. reflexivity. Qed.

Lemma digits_23 (m : positive) :
  Zdigits2 (Z.pos (8388608 * m)) = Z.pos (digits2_pos m) + 23.
Proof. lazy [Zdigits2 Pos.mul digits2_pos]. lia. Qed.

Lemma one_mul_finite s m e :
  bounded f32.prec f32.emax m e = true ->
  f32.mul 1%f32 (S754_finite s m e) = S754_finite s m e.
Proof.
  intros Hb. unfold bounded, canonical_mantissa, f32.prec, f32.emax in Hb.
  apply andb_prop in Hb as [Hc He]. apply Z.eqb_eq in Hc.
  change (f32.mul 1%f32 (S754_finite s m e))
    with (binary_round_aux 24 128 s (Z.pos (8388608 * m)) (-23 + e) loc_Exact).
  unfold binary_round_aux, shr_fexp. rewrite digits_23.
  replace (Z.pos (digits2_pos m) + 23 + (-23 + e)) with (Z.pos (digits2_pos m) + e) by lia.
  rewrite Hc. replace (e - (-23 + e)) with 23 by lia.
  unfold shr at 1. cbn [shr_record_of_loc]. rewrite shift_23.
  cbn [shr_m loc_of_shr_record round_nearest_even shr_record_of_loc Zdigits2].
  replace (-23 + e + 23) with e by lia.
  rewrite Hc, Z.sub_diag. cbn [shr shr_m]. rewrite He. reflexivity.
Qed.

Lemma finite_mul_one s m e :
  bounded f32.prec f32.emax m e = true ->
  f32.mul (S754_finite s m e) 1%f32 = S754_finite s m e.
Proof.
  intros Hb. rewrite <- (one_mul_finite s m e Hb) at 2.
  unfold f32.mul, SFmul. change 1%f32 with (S754_finite false 8388608 (-23)).
  cbv beta iota. rewrite Pos.mul_comm, Z.add_comm, xorb_false_r. reflexivity.
Qed.

Lemma one_mul x : finite32 x = true -> (1 * x)%f32 = x.
Proof. destruct x; try discriminate; [reflexivity | apply one_mul_finite]. Qed.

Lemma mul_one x : finite32 x = true -> (x * 1)%f32 = x.
Proof.
  destruct x as [[]| | |]; try discriminate; [reflexivity..| apply finite_mul_one].
Qed.

End Binary32.

(** ** The same value *)

Lemma same_value_refl x : same_value x x.
Proof. left. reflexivity. Qed.

Ltac zero_cases :=
  repeat match goal with
         | H : is_zero ?x = true |- _ =>
             destruct x as [[]|[]| |[] ? ?]; try discriminate H; clear H
         end.

Ltac same_value_solve :=
  first [ left; reflexivity | right; split; reflexivity ].

Lemma add_same x x' y y' :
  same_value x x' -> same_value y y' -> same_value (x + y)%f32 (x' + y')%f32.
Proof.
  intros [->|[Hx Hx']] [->|[Hy Hy']]; [left; reflexivity| | |]; zero_cases;
    try (destruct x' as [[]|[]| |[] ? ?]); try (destruct y' as [[]|[]| |[] ? ?]);
    same_value_solve.
Qed.

Lemma mul_same x x' y y' :
  same_value x x' -> same_value y y' -> same_value (x * y)%f32 (x' * y')%f32.
Proof.
  intros [->|[Hx Hx']] [->|[Hy Hy']]; [left; reflexivity| | |]; zero_cases;
    try (destruct x' as [[]|[]| |[] ? ?]); try (destruct y' as [[]|[]| |[] ? ?]);
    same_value_solve.
Qed.

Lemma nth_same {A} (R : A -> A -> Prop) l l' d d' i :
  Forall2 R l l' -> R d d' -> R (nth i l d) (nth i l' d').
Proof.
  intros H Hd. revert i. induction H as [|a b l l' Hab _ IH]; intros [|i]; cbn; auto.
Qed.

Lemma at_same A B i j :
  same_entries A B -> same_value (Spec.at_ A i j) (Spec.at_ B i j).
Proof.
  intros H. unfold Spec.at_. apply nth_same; [|apply same_value_refl].
  apply nth_same; [exact H | constructor].
Qed.

Lemma product_same A A' B B' :
  same_entries A A' -> same_entries B B' ->
  same_entries (Spec.product A B) (Spec.product A' B').
Proof.
  intros HA HB. unfold Spec.product, same_entries. cbn [map].
  assert (Hentry : forall i j,
             same_value
               (Spec.at_ A i 0 * Spec.at_ B 0 j + Spec.at_ A i 1 * Spec.at_ B 1 j
                + Spec.at_ A i 2 * Spec.at_ B 2 j + Spec.at_ A i 3 * Spec.at_ B 3 j)%f32
               (Spec.at_ A' i 0 * Spec.at_ B' 0 j + Spec.at_ A' i 1 * Spec.at_ B' 1 j
                + Spec.at_ A' i 2 * Spec.at_ B' 2 j + Spec.at_ A' i 3 * Spec.at_ B' 3 j)%f32).
  { intros i j.
    apply add_same; [apply add_same; [apply add_same|]|];
      apply mul_same; apply at_same; assumption. }
  repeat match goal with
         | |- Forall2 _ [] [] => constructor
         | |- Forall2 _ (_ :: _) (_ :: _) => constructor
         | |- same_value _ _ => apply Hentry
         end.
Qed.

Lemma mul_rows A B : rows (glm.mul A B) = Spec.product (rows A) (rows B).
Proof. destruct A as [[] [] [] []], B as [[] [] [] []]. reflexivity. Qed.

(** ** Products and sums with a zero or a one *)

Section Zeros.
Variables (a b s : bool) (m : positive) (e : Z).

Lemma mul_zero_zero : f32.mul (S754_zero a) (S754_zero b) = S754_zero (xorb a b).
Proof. reflexivity. Qed.
Lemma mul_zero_finite : f32.mul (S754_zero a) (S754_finite s m e) = S754_zero (xorb a s).
Proof. reflexivity. Qed.
Lemma mul_finite_zero : f32.mul (S754_finite s m e) (S754_zero b) = S754_zero (xorb s b).
Proof. reflexivity. Qed.
Lemma add_zero_zero : f32.add (S754_zero a) (S754_zero b) = S754_zero (a && b).
Proof. destruct a, b; reflexivity. Qed.
Lemma add_zero_finite : f32.add (S754_zero a) (S754_finite s m e) = S754_finite s m e.
Proof. reflexivity. Qed.
Lemma add_finite_zero : f32.add (S754_finite s m e) (S754_zero b) = S754_finite s m e.
Proof. reflexivity. Qed.
Lemma sub_zero_zero : f32.sub (S754_zero a) (S754_zero b) = S754_zero (a && negb b).
Proof. destruct a, b; reflexivity. Qed.
Lemma sub_zero_finite :
  f32.sub (S754_zero a) (S754_finite s m e) = S754_finite (negb s) m e.
Proof. reflexivity. Qed.
Lemma sub_finite_zero : f32.sub (S754_finite s m e) (S754_zero b) = S754_finite s m e.
Proof. reflexivity. Qed.
Lemma opp_zero : f32.opp (S754_zero a) = S754_zero (negb a).
Proof. reflexivity. Qed.
Lemma opp_finite : f32.opp (S754_finite s m e) = S754_finite (negb s) m e.
Proof. reflexivity. Qed.

End Zeros.

Create Rewrite HintDb f32.

#[local] Hint Rewrite mul_zero_zero mul_zero_finite mul_finite_zero add_zero_zero
  add_zero_finite add_finite_zero sub_zero_zero sub_zero_finite sub_finite_zero
  opp_zero opp_finite : f32.
#[local] Hint Rewrite one_mul_finite finite_mul_one using (assumption || reflexivity) : f32.

Ltac finite_cases x :=
  destruct x as [?| | |? ? ?]; try discriminate;
  cbn [finite32] in *.

Ltac entries :=
  unfold same_entries;
  repeat match goal with
         | |- Forall2 _ [] [] => constructor
         | |- Forall2 _ (_ :: _) (_ :: _) => constructor
         | |- same_value _ _ => first [ left; reflexivity | right; split; reflexivity ]
         end.

Ltac glm_unfold :=
  cbv [rows glm.mul glm.translate glm.rotate glm.scale glm.identity glm.vadd glm.vmul
       glm.x glm.y glm.z glm.w glm.x3 glm.y3 glm.z3
       glm.col0 glm.col1 glm.col2 glm.col3
       Spec.Translation Spec.Scale Spec.identity
       RotationX_glm RotationY_glm RotationZ_glm].

Lemma translate_rows tx ty tz :
  finite32 tx = true -> finite32 ty = true -> finite32 tz = true ->
  same_entries (rows (glm.translate (glm.Vec3 tx ty tz))) (Spec.Translation tx ty tz).
Proof.
  intros Hx Hy Hz. glm_unfold.
  finite_cases tx; finite_cases ty; finite_cases tz; autorewrite with f32; entries.
Qed.

Lemma scale_rows sx sy sz :
  finite32 sx = true -> finite32 sy = true -> finite32 sz = true ->
  same_entries (rows (glm.scale (glm.Vec3 sx sy sz))) (Spec.Scale sx sy sz).
Proof.
  intros Hx Hy Hz. glm_unfold.
  finite_cases sx; finite_cases sy; finite_cases sz; autorewrite with f32; entries.
Qed.

Lemma normalize_x : glm.normalize (glm.Vec3 1 0 0) = glm.Vec3 1 0 0.
Proof. vm_compute. reflexivity. Qed.
Lemma normalize_y : glm.normalize (glm.Vec3 0 1 0) = glm.Vec3 0 1 0.
Proof. vm_compute. reflexivity. Qed.
Lemma normalize_z : glm.normalize (glm.Vec3 0 0 1) = glm.Vec3 0 0 1.
Proof. vm_compute. reflexivity. Qed.

(** [glm::rotate] about a coordinate axis, from the cosine [c], the sine [s],
    [d] for [1 - c] and [u] for [c + d]. *)
Ltac rotate_rows c s :=
  intros Hc Hs Hd Hu; unfold glm.rotate; rewrite ?normalize_x, ?normalize_y, ?normalize_z;
  glm_unfold; unfold axis_entry in *;
  generalize dependent (f32.sub 1%f32 c); intros d Hd Hu;
  rewrite !(mul_one d Hd);
  generalize dependent (f32.add c d); intros u Hu;
  finite_cases c; finite_cases s; finite_cases d; finite_cases u;
  autorewrite with f32; entries.

Lemma rotateX_rows lm a :
  let c := cosf lm a in
  let s := sinf lm a in
  finite32 c = true -> finite32 s = true ->
  finite32 (1 - c)%f32 = true -> finite32 (axis_entry c) = true ->
  same_entries (rows (glm.rotate lm a (glm.Vec3 1 0 0))) (RotationX_glm c s).
Proof. intros c s. subst c s. rotate_rows (cosf lm a) (sinf lm a). Qed.

Lemma rotateY_rows lm a :
  let c := cosf lm a in
  let s := sinf lm a in
  finite32 c = true -> finite32 s = true ->
  finite32 (1 - c)%f32 = true -> finite32 (axis_entry c) = true ->
  same_entries (rows (glm.rotate lm a (glm.Vec3 0 1 0))) (RotationY_glm c s).
Proof. intros c s. subst c s. rotate_rows (cosf lm a) (sinf lm a). Qed.

Lemma rotateZ_rows lm a :
  let c := cosf lm a in
  let s := sinf lm a in
  finite32 c = true -> finite32 s = true ->
  finite32 (1 - c)%f32 = true -> finite32 (axis_entry c) = true ->
  same_entries (rows (glm.rotate lm a (glm.Vec3 0 0 1))) (RotationZ_glm c s).
Proof. intros c s. subst c s. rotate_rows (cosf lm a) (sinf lm a). Qed.

Lemma rotation_finite_rows lm degrees :
  rotation_finite lm degrees = true ->
  let c := cosf lm (glm.radians degrees) in
  let s := sinf lm (glm.radians degrees) in
  same_entries (rows (glm.rotate lm (glm.radians degrees) (glm.Vec3 1 0 0)))
               (RotationX_glm c s) /\
  same_entries (rows (glm.rotate lm (glm.radians degrees) (glm.Vec3 0 1 0)))
               (RotationY_glm c s) /\
  same_entries (rows (glm.rotate lm (glm.radians degrees) (glm.Vec3 0 0 1)))
               (RotationZ_glm c s).
Proof.
  unfold rotation_finite. cbv zeta. intros H.
  apply andb_prop in H as [H Hu]. apply andb_prop in H as [H Hd].
  apply andb_prop in H as [Hc Hs].
  split; [|split]; [apply rotateX_rows | apply rotateY_rows | apply rotateZ_rows];
    assumption.
Qed.

Lemma modelView_rows lm sx sy sz rx ry rz tx ty tz :
  finite32 sx = true -> finite32 sy = true -> finite32 sz = true ->
  finite32 tx = true -> finite32 ty = true -> finite32 tz = true ->
  rotation_finite lm rx = true -> rotation_finite lm ry = true ->
  rotation_finite lm rz = true ->
  same_entries (rows (modelView lm (glm.Vec3 sx sy sz) rx ry rz (glm.Vec3 tx ty tz)))
               (Compose_glm lm sx sy sz rx ry rz tx ty tz).
Proof.
  intros Hsx Hsy Hsz Htx Hty Htz Hrx Hry Hrz.
  unfold modelView, Compose_glm. cbv zeta. rewrite !mul_rows.
  destruct (rotation_finite_rows lm rx Hrx) as (HX & _ & _).
  destruct (rotation_finite_rows lm ry Hry) as (_ & HY & _).
  destruct (rotation_finite_rows lm rz Hrz) as (_ & _ & HZ).
  repeat apply product_same; auto using translate_rows, scale_rows.
Qed.

Lemma same_value_trans x y z : same_value x y -> same_value y z -> same_value x z.
Proof.
  intros [->|[Hx Hy]] [->|[Hy' Hz]]; [left; reflexivity|right..]; auto.
Qed.

Lemma same_entries_trans A B C : same_entries A B -> same_entries B C -> same_entries A C.
Proof.
  unfold same_entries. intros H. revert C.
  induction H as [|a b A B Hab _ IH]; intros C HC; inversion HC; subst; constructor; auto.
  clear - Hab H1. revert y H1.
  induction Hab as [|x x' a b Hx _ IHa]; intros c Hc; inversion Hc; subst; constructor;
    eauto using same_value_trans.
Qed.

Lemma radians_zero : glm.radians 0 = 0%f32.
Proof. reflexivity. Qed.

Lemma rotation_finite_zero lm : exact_at_zero lm -> rotation_finite lm 0 = true.
Proof.
  intros [Hc Hs]. unfold rotation_finite. rewrite radians_zero, Hc, Hs. reflexivity.
Qed.

Lemma same_entries_refl A : same_entries A A.
Proof.
  unfold same_entries. induction A as [|r A IH]; constructor; auto.
  induction r; constructor; auto using same_value_refl.
Qed.

Lemma Rotation_glm_zero :
  same_entries (RotationX_glm 1 0) Spec.identity /\
  same_entries (RotationY_glm 1 0) Spec.identity /\
  same_entries (RotationZ_glm 1 0) Spec.identity.
Proof.
  unfold RotationX_glm, RotationY_glm, RotationZ_glm, Spec.identity.
  change (axis_entry 1) with 1%f32. split; [|split]; entries.
Qed.

Lemma Translation_identity tx ty tz :
  finite32 tx = true -> finite32 ty = true -> finite32 tz = true ->
  same_entries (Spec.product (Spec.Translation tx ty tz) Spec.identity)
               (Spec.Translation tx ty tz).
Proof.
  intros Htx Hty Htz.
  cbv [Spec.product Spec.at_ Spec.Translation Spec.identity map nth].
  finite_cases tx; finite_cases ty; finite_cases tz; autorewrite with f32; entries.
Qed.

Lemma Translation_Scale sx sy sz tx ty tz :
  finite32 sx = true -> finite32 sy = true -> finite32 sz = true ->
  finite32 tx = true -> finite32 ty = true -> finite32 tz = true ->
  same_entries (Spec.product (Spec.Translation tx ty tz) (Spec.Scale sx sy sz))
    [[sx; 0; 0; tx]; [0; sy; 0; ty]; [0; 0; sz; tz]; [0; 0; 0; 1]]%f32.
Proof.
  intros Hsx Hsy Hsz Htx Hty Htz.
  cbv [Spec.product Spec.at_ Spec.Translation Spec.Scale map nth].
  finite_cases sx; finite_cases sy; finite_cases sz;
    finite_cases tx; finite_cases ty; finite_cases tz;
    autorewrite with f32; entries.
Qed.

Lemma Compose_glm_no_rotation lm sx sy sz tx ty tz :
  exact_at_zero lm ->
  finite32 sx = true -> finite32 sy = true -> finite32 sz = true ->
  finite32 tx = true -> finite32 ty = true -> finite32 tz = true ->
  same_entries (Compose_glm lm sx sy sz 0 0 0 tx ty tz)
    [[sx; 0; 0; tx]; [0; sy; 0; ty]; [0; 0; sz; tz]; [0; 0; 0; 1]]%f32.
Proof.
  intros [Hc Hs] Hsx Hsy Hsz Htx Hty Htz.
  unfold Compose_glm. cbv zeta.
  change (Spec.to_radians 0) with 0%f32. rewrite Hc, Hs.
  destruct Rotation_glm_zero as (HX & HY & HZ).
  pose proof (Translation_identity tx ty tz Htx Hty Htz) as HT.
  eapply same_entries_trans; [|apply Translation_Scale; assumption].
  apply product_same; [|apply same_entries_refl].
  eapply same_entries_trans; [apply product_same; [|exact HZ]|exact HT].
  eapply same_entries_trans; [apply product_same; [|exact HY]|exact HT].
  eapply same_entries_trans; [apply product_same; [|exact HX]|exact HT].
  apply same_entries_refl.
Qed.

Lemma rotate_zero lm v :
  exact_at_zero lm ->
  glm.rotate lm (glm.radians 0) v = glm.rotate (mklibm (fun _ => 1%f32) (fun _ => 0%f32)) 0 v.
Proof.
  intros [Hc Hs]. unfold glm.rotate. change (glm.radians 0) with 0%f32.
  cbn [cosf sinf]. rewrite Hc, Hs. reflexivity.
Qed.

Lemma modelView_no_rotation lm s p :
  exact_at_zero lm ->
  modelView lm s 0 0 0 p = modelView (mklibm (fun _ => 1%f32) (fun _ => 0%f32)) s 0 0 0 p.
Proof.
  intros H. unfold modelView. rewrite !(rotate_zero lm _ H). reflexivity.
Qed.

(** * The claims *)

(** C1 (the code departs from the claim).  On a non-empty material registry
    in which no entry carries the tag, [FindMaterial] leaves the caller's
    [material] untouched, as the claim asks, but it returns [true], not
    [false]: the final [return(true)] does not look at [bFound]. *)
Theorem FindMaterial_without_match tag_ out w :
  m_objectMaterials (this w) <> [] ->
  Z.of_nat (length (m_objectMaterials (this w))) <= INT_MAX ->
  (forall m, In m (m_objectMaterials (this w)) -> tag m <> tag_) ->
  FindMaterial tag_ out w = Ok (true, out, w).
Proof.
  intros Hne Hlen Hno. rewrite FindMaterial_spec by exact Hlen.
  unfold scanned. rewrite (first_material_None _ _ Hno).
  destruct (m_objectMaterials (this w)); [congruence|reflexivity].
Qed.

Lemma FindMaterial_without_match_witness :
  FindMaterial "nonexistent" woodMaterial world_gold = Ok (true, woodMaterial, world_gold).
Proof.
  apply FindMaterial_without_match.
  - discriminate.
  - unfold INT_MAX. simpl. lia.
  - intros m [<-|[]]. discriminate.
Defined.

(** C2 (the code departs from the claim).  With a live shader manager and a
    non-empty registry in which no entry carries the tag, [SetShaderMaterial]
    does not skip the push: it pushes the five material uniforms with the
    values its uninitialised local [material] happens to hold. *)
Theorem SetShaderMaterial_without_match tag_ uninit w :
  is_null (m_pShaderManager (this w)) = false ->
  m_objectMaterials (this w) <> [] ->
  Z.of_nat (length (m_objectMaterials (this w))) <= INT_MAX ->
  (forall m, In m (m_objectMaterials (this w)) -> tag m <> tag_) ->
  SetShaderMaterial tag_ uninit w = Ok (tt, add_trace (material_events uninit) w).
Proof.
  intros Hp Hne Hlen Hno. rewrite SetShaderMaterial_Ok by assumption.
  unfold scanned. rewrite (first_material_None _ _ Hno).
  destruct (m_objectMaterials (this w)); [congruence|reflexivity].
Qed.

Lemma SetShaderMaterial_without_match_witness :
  SetShaderMaterial "nonexistent" glossyWood world_gold =
  Ok (tt, add_trace (material_events glossyWood) world_gold).
Proof.
  apply SetShaderMaterial_without_match.
  - reflexivity.
  - discriminate.
  - unfold INT_MAX. simpl. lia.
  - intros m [<-|[]]. discriminate.
Defined.

(** C3 (the code departs from the claim).  With [n] textures registered,
    [DestroyGLTextures] returns after asking the driver for [n] new texture
    names ([glGenTextures]), one per registered slot; it issues no
    [glDeleteTextures], so no held handle is released, and the registry is
    not cleared: it still counts [n] textures. *)
Theorem DestroyGLTextures_generates w :
  registry_ok (this w) ->
  exists w',
    DestroyGLTextures w = Ok (tt, w') /\
    m_loadedTextures (this w') = m_loadedTextures (this w) /\
    trace w' = trace w ++ map glGenTextures
                 (fresh_names (gl_next w) (Z.to_nat (m_loadedTextures (this w)))) /\
    (forall name, In (glDeleteTextures name) (trace w') ->
                  In (glDeleteTextures name) (trace w)).
Proof.
  intros Hok. destruct (DestroyGLTextures_spec w Hok) as (w' & Hd & Hn & Ht).
  exists w'. repeat split; try assumption.
  intros name Hin. rewrite Ht in Hin. apply in_app_or in Hin.
  destruct Hin as [Hin|Hin]; [exact Hin|].
  apply in_map_iff in Hin. destruct Hin as (x & Hx & _). discriminate.
Qed.

Lemma DestroyGLTextures_generates_witness :
  exists w',
    DestroyGLTextures world_apple = Ok (tt, w') /\
    m_loadedTextures (this w') = 1 /\
    trace w' = trace world_apple ++ [glGenTextures 2].
Proof.
  destruct (DestroyGLTextures_generates world_apple) as (w' & Hd & Hn & Ht & _).
  - split; [reflexivity|]. vm_compute. split; discriminate.
  - exists w'. repeat split; assumption.
Defined.

(** C4 (the code departs from the claim).  When the 16 slots are all taken
    and the file decodes to an RGB or RGBA image, [CreateGLTexture] makes no
    capacity check and reports no error: it goes on to store into
    [m_textureIDs[16]], outside the bank. *)
Theorem CreateGLTexture_full_bank f t w img :
  registry_ok (this w) ->
  m_loadedTextures (this w) = Z.of_nat TEXTURE_SLOTS ->
  stbi_load w f = Some img ->
  colorChannels img = 3 \/ colorChannels img = 4 ->
  CreateGLTexture f t w = Fault (OutOfBounds 16).
Proof.
  intros [Hb _] Hn Hf Hc.
  rewrite (CreateGLTexture_full f t w img Hf Hc) by (rewrite Hb; exact Hn).
  rewrite Hn. reflexivity.
Qed.

Lemma CreateGLTexture_full_bank_witness :
  CreateGLTexture "seventeenth.jpg" "extra" world_full = Fault (OutOfBounds 16).
Proof.
  apply (CreateGLTexture_full_bank _ _ _ (mkImage 64 64 3)).
  - split; [reflexivity|]. vm_compute. split; discriminate.
  - reflexivity.
  - reflexivity.
  - left. reflexivity.
Defined.




(** Within the bank.  After any run of texture loads from an empty
    registry that all returned, [FindTextureSlot(tag)] returns the zero-based
    position, among the loads that succeeded, of the first one made under
    that tag, and -1 when none was; the slots those loads stored into are
    pairwise distinct and below 16: a run whose calls all returned has at
    most sixteen successes. *)
Lemma FindTextureSlot_load_order w0 loads w tag_ :
  registry_ok (this w0) ->
  m_loadedTextures (this w0) = 0 ->
  loaded w0 loads w ->
  (exists slot,
      FindTextureSlot tag_ w = Ok (slot, w) /\
      ((slot = -1 /\ forall t s, In (t, s) loads -> t <> tag_) \/
       (exists k : nat,
           slot = Z.of_nat k /\
           loads !! k = Some (tag_, slot) /\
           forall j t s, (j < k)%nat -> loads !! j = Some (t, s) -> t <> tag_))) /\
  NoDup (map snd loads) /\
  Forall (fun s => 0 <= s < 16) (map snd loads).
Proof.
  intros Hok H0 Hl.
  destruct (loaded_invariant w0 loads w Hok H0 Hl) as (Hokw & Hn & He & Hs).
  split; [|split].
  - eexists. split; [apply FindTextureSlot_spec; exact Hokw|].
    rewrite He.
    destruct (first_index_spec tag_ (map fst loads) 0 ltac:(lia))
      as [[Hr Hno]|(k & Hr & Hk & Hlt)].
    + left. split; [exact Hr|]. intros t s Hin Ht. apply Hno.
      apply in_map_iff. exists (t, s). split; [exact Ht|exact Hin].
    + right. exists k. rewrite Hr. split; [lia|].
      rewrite list_lookup_fmap in Hk.
      destruct (loads !! k) as [[t s]|] eqn:Hlk; [|discriminate].
      cbn in Hk. inversion Hk; subst t.
      rewrite (Hs k tag_ s Hlk). split; [f_equal; f_equal; lia|].
      intros j t' s' Hj Hlj. apply (Hlt j t' Hj).
      rewrite list_lookup_fmap, Hlj. reflexivity.
  - apply NoDup_alt. intros i j s Hi Hj.
    rewrite list_lookup_fmap in Hi, Hj.
    destruct (loads !! i) as [[ti si]|] eqn:Hli; [|discriminate].
    destruct (loads !! j) as [[tj sj]|] eqn:Hlj; [|discriminate].
    cbn in Hi, Hj. inversion Hi; inversion Hj; subst.
    pose proof (Hs i ti s Hli). pose proof (Hs j tj s Hlj). lia.
  - apply Forall_lookup. intros k s Hk.
    rewrite list_lookup_fmap in Hk.
    destruct (loads !! k) as [[t s']|] eqn:Hlk; [|discriminate].
    cbn in Hk. inversion Hk; subst s'.
    rewrite (Hs k t s Hlk).
    apply lookup_lt_Some in Hlk. destruct Hokw as [_ Hr].
    unfold TEXTURE_SLOTS in Hr. lia.
Qed.

Lemma world_apple_stem_loaded :
  loaded world0 [("apple", 0); ("stem", 1)] world_apple_stem.
Proof.
  apply (loaded_success world0 [("apple", 0)] world_apple "apple_stem.jpg" "stem"
           world_apple_stem); [|reflexivity].
  apply (loaded_success world0 [] world0 "green_apple.jpg" "apple" world_apple);
    [apply loaded_nil|reflexivity].
Defined.

Lemma FindTextureSlot_load_order_witness :
  (exists slot,
      FindTextureSlot "stem" world_apple_stem = Ok (slot, world_apple_stem) /\
      ((slot = -1 /\
        forall t s, In (t, s) [("apple", 0); ("stem", 1)] -> t <> "stem") \/
       (exists k : nat,
           slot = Z.of_nat k /\
           [("apple", 0); ("stem", 1)] !! k = Some ("stem", slot) /\
           forall j t s, (j < k)%nat ->
                         [("apple", 0); ("stem", 1)] !! j = Some (t, s) -> t <> "stem"))) /\
  NoDup [0; 1] /\
  Forall (fun s => 0 <= s < 16) [0; 1].
Proof.
  apply (FindTextureSlot_load_order world0 [("apple", 0); ("stem", 1)]
           world_apple_stem "stem").
  - split; [reflexivity|]. vm_compute. split; discriminate.
  - reflexivity.
  - exact world_apple_stem_loaded.
Defined.

(** C6 (the code departs from the claim).  A load is given the slot that
    equals the number of loads that succeeded before it, and nothing bounds
    that number: after any run of loads from an empty registry of which
    sixteen succeeded, the count of loaded textures is 16 and the next load
    of a file that decodes to an RGB or RGBA image is given slot 16.
    [CreateGLTexture] goes on to store into [m_textureIDs[16]], outside the
    bank, where the claim has every slot within [0,16). *)
Theorem CreateGLTexture_seventeenth_slot w0 loads w f t img :
  registry_ok (this w0) ->
  m_loadedTextures (this w0) = 0 ->
  loaded w0 loads w ->
  length loads = 16%nat ->
  stbi_load w f = Some img ->
  colorChannels img = 3 \/ colorChannels img = 4 ->
  m_loadedTextures (this w) = 16 /\
  (forall k t' s, loads !! k = Some (t', s) -> s = Z.of_nat k) /\
  CreateGLTexture f t w = Fault (OutOfBounds 16).
Proof.
  intros Hok H0 Hl Hlen Hf Hc.
  destruct (loaded_invariant w0 loads w Hok H0 Hl) as (Hokw & Hn & _ & Hs).
  rewrite Hlen in Hn. split; [exact Hn|]. split; [exact Hs|].
  destruct Hokw as [Hb _].
  rewrite (CreateGLTexture_full f t w img Hf Hc) by (rewrite Hb, Hn; reflexivity).
  rewrite Hn. reflexivity.
Qed.

Lemma loaded_step k wk wk' :
  loaded world0 (loads_upto k) wk ->
  CreateGLTexture "texture.jpg" "texture" wk = Ok (true, wk') ->
  m_loadedTextures (this wk) = Z.of_nat k ->
  loaded world0 (loads_upto (S k)) wk'.
Proof.
  intros Hl Hc Hn. unfold loads_upto. rewrite seq_S, map_app. cbn [map Nat.add].
  rewrite <- Hn. apply (loaded_success world0 _ wk "texture.jpg" "texture" wk' Hl Hc).
Defined.

Ltac load_steps k :=
  lazymatch k with
  | O => apply loaded_nil
  | S ?j =>
      apply (loaded_step j (nth j worlds_full world0));
      [load_steps j | vm_compute; reflexivity | reflexivity]
  end.

Lemma world_full_loaded : loaded world0 (loads_upto 16) world_full.
Proof. load_steps 16%nat. Defined.

Lemma CreateGLTexture_seventeenth_slot_witness :
  m_loadedTextures (this world_full) = 16 /\
  (forall k t' s, loads_upto 16 !! k = Some (t', s) -> s = Z.of_nat k) /\
  CreateGLTexture "seventeenth.jpg" "extra" world_full = Fault (OutOfBounds 16).
Proof.
  apply (CreateGLTexture_seventeenth_slot world0 (loads_upto 16) world_full
           "seventeenth.jpg" "extra" (mkImage 64 64 3)).
  - split; [reflexivity|]. vm_compute. split; discriminate.
  - reflexivity.
  - exact world_full_loaded.
  - reflexivity.
  - reflexivity.
  - left. reflexivity.
Defined.

(** C7.  Through a live shader manager, on a well-formed registry,
    [SetShaderTexture(tag)] pushes [bUseTexture] as 1 (true) and then pushes
    as the [objectTexture] sampler the slot [FindTextureSlot(tag)] resolves;
    when no registered texture carries the tag that value is -1, whatever was
    pushed before, and the call returns normally. *)
Theorem SetShaderTexture_pushes_slot tag_ w :
  is_null (m_pShaderManager (this w)) = false ->
  registry_ok (this w) ->
  exists slot,
    FindTextureSlot tag_ w = Ok (slot, w) /\
    SetShaderTexture tag_ w
    = Ok (tt, add_trace [setIntValue "bUseTexture" 1;
                         setSampler2DValue "objectTexture" slot] w) /\
    ((forall e, In e (entries (this w)) -> tex_tag e <> tag_) -> slot = -1).
Proof.
  intros Hp Hok. eexists. split; [apply FindTextureSlot_spec; exact Hok|].
  split; [apply SetShaderTexture_Ok; assumption|].
  intros Hno. apply first_index_none. intros t Hin.
  apply in_map_iff in Hin. destruct Hin as (e & <- & He). apply Hno. exact He.
Qed.

Lemma SetShaderTexture_pushes_slot_witness :
  exists slot,
    FindTextureSlot "missing" world_apple = Ok (slot, world_apple) /\
    SetShaderTexture "missing" world_apple
    = Ok (tt, add_trace [setIntValue "bUseTexture" 1;
                         setSampler2DValue "objectTexture" slot] world_apple) /\
    ((forall e, In e (entries (this world_apple)) -> tex_tag e <> "missing") ->
     slot = -1).
Proof.
  apply SetShaderTexture_pushes_slot.
  - reflexivity.
  - split; [reflexivity|]. vm_compute. split; discriminate.
Defined.

(** C8.  Lookup in the material registry is first-match-wins over insertion
    order: when [m] is the first entry carrying the tag, [FindMaterial]
    returns [true] with the five values of [m], whatever entries with the
    same tag come after it. *)
Theorem FindMaterial_first_match_wins tag_ out w pre m rest :
  m_objectMaterials (this w) = pre ++ m :: rest ->
  (forall x, In x pre -> tag x <> tag_) ->
  tag m = tag_ ->
  Z.of_nat (length (m_objectMaterials (this w))) <= INT_MAX ->
  FindMaterial tag_ out w = Ok (true, copy_material m out, w).
Proof.
  intros Hm Hpre Htag Hlen. rewrite FindMaterial_spec by exact Hlen.
  unfold scanned. rewrite Hm, (first_material_app _ _ _ _ Hpre Htag).
  destruct pre; reflexivity.
Qed.

Lemma FindMaterial_first_match_wins_witness :
  (push_back woodMaterial ;; push_back glossyWood) world0 = Ok (tt, world_two_woods) /\
  FindMaterial "wood" goldMaterial world_two_woods
  = Ok (true, copy_material woodMaterial goldMaterial, world_two_woods) /\
  shininess (copy_material woodMaterial goldMaterial) = shininess woodMaterial /\
  shininess woodMaterial <> shininess glossyWood.
Proof.
  split; [reflexivity|]. split; [|split].
  - apply (FindMaterial_first_match_wins "wood" goldMaterial world_two_woods
             [] woodMaterial [glossyWood]).
    + reflexivity.
    + intros x [].
    + reflexivity.
    + unfold INT_MAX. simpl. lia.
  - reflexivity.
  - unfold woodMaterial, glossyWood. cbn [shininess]. discriminate.
Defined.

(** C9.  Once [PrepareScene] has run on a freshly constructed manager, two
    consecutive calls of [RenderScene] both return, append the same ordered
    sequence of events to the trace, and leave every member of the manager
    (both registries included) as it was.  That sequence is, for the eleven
    objects of the scene in order, the model matrix, the optional colour, the
    uniforms of the material found under the object's material tag, the slot
    found under its texture tag, and the draw of its mesh kind; it does not
    depend on what the uninitialised locals hold. *)
Theorem RenderScene_deterministic lm w0 w1 uninit1 uninit2 :
  constructed (this w0) ->
  PrepareScene w0 = Ok (tt, w1) ->
  exists w2 w3,
    RenderScene lm uninit1 w1 = Ok (tt, w2) /\
    RenderScene lm uninit2 w2 = Ok (tt, w3) /\
    trace w2 = trace w1 ++ frame_events lm (this w1) /\
    trace w3 = trace w2 ++ frame_events lm (this w1) /\
    this w2 = this w1 /\
    this w3 = this w1.
Proof.
  intros Hc Hp. pose proof (PrepareScene_prepared _ _ Hc Hp) as Hprep.
  exists (add_trace (frame_events lm (this w1)) w1),
         (add_trace (frame_events lm (this w1)) (add_trace (frame_events lm (this w1)) w1)).
  split; [apply RenderScene_writes; exact Hprep|].
  split; [apply (RenderScene_writes lm uninit2 (add_trace (frame_events lm (this w1)) w1));
          exact Hprep|].
  repeat split.
Qed.

Lemma PrepareScene_world0 : PrepareScene world0 = Ok (tt, world_prepared).
Proof. vm_compute. reflexivity. Defined.

Lemma RenderScene_deterministic_witness :
  exists w2 w3,
    RenderScene scene_libm (fun _ => goldMaterial) world_prepared = Ok (tt, w2) /\
    RenderScene scene_libm (fun _ => glossyWood) w2 = Ok (tt, w3) /\
    trace w2 = trace world_prepared ++ frame_events scene_libm (this world_prepared) /\
    trace w3 = trace w2 ++ frame_events scene_libm (this world_prepared) /\
    this w2 = this world_prepared /\
    this w3 = this world_prepared.
Proof.
  apply (RenderScene_deterministic scene_libm world0).
  - split; [split; [reflexivity|vm_compute; split; discriminate]|].
    split; reflexivity.
  - exact PrepareScene_world0.
Defined.

(** C10.  With a null shader-manager pointer, [SetTransformations],
    [SetShaderColor], [SetShaderTexture] and [SetTextureUVScale] each return
    without pushing anything and leave the whole state as it was.
    [SetShaderMaterial] has no such guard: on a non-empty registry it calls
    through the null pointer. *)
Theorem null_shader_manager_guards lm w sc rx ry rz pos r g b a tag_ u v :
  m_pShaderManager (this w) = NULL ->
  SetTransformations lm sc rx ry rz pos w = Ok (tt, w) /\
  SetShaderColor r g b a w = Ok (tt, w) /\
  SetShaderTexture tag_ w = Ok (tt, w) /\
  SetTextureUVScale u v w = Ok (tt, w) /\
  (forall uninit,
      m_objectMaterials (this w) <> [] ->
      Z.of_nat (length (m_objectMaterials (this w))) <= INT_MAX ->
      SetShaderMaterial tag_ uninit w = Fault NullDereference).
Proof.
  intros Hp.
  repeat split;
    try (unfold SetTransformations, SetShaderColor, SetShaderTexture, SetTextureUVScale;
         step (gets_eq m_pShaderManager w); rewrite Hp; reflexivity).
  intros uninit Hne Hlen. unfold SetShaderMaterial.
  step (gets_eq m_objectMaterials w).
  destruct (m_objectMaterials (this w)) as [|m mats] eqn:Hm; [congruence|].
  cbn [length Nat.ltb Nat.leb]. rewrite <- Hm in Hlen.
  step (FindMaterial_spec tag_ uninit w Hlen). rewrite Hm. cbn [Bool.eqb].
  apply bind_Fault. apply shader_Fault. rewrite Hp. reflexivity.
Qed.

Lemma null_shader_manager_guards_witness :
  SetTransformations scene_libm (glm.Vec3 1 1 1) 0 0 0 (glm.Vec3 0 0 0) world_null
  = Ok (tt, world_null) /\
  SetShaderColor 1 1 1 1 world_null = Ok (tt, world_null) /\
  SetShaderTexture "table" world_null = Ok (tt, world_null) /\
  SetTextureUVScale 1 1 world_null = Ok (tt, world_null) /\
  (forall uninit,
      m_objectMaterials (this world_null) <> [] ->
      Z.of_nat (length (m_objectMaterials (this world_null))) <= INT_MAX ->
      SetShaderMaterial "table" uninit world_null = Fault NullDereference).
Proof.
  apply null_shader_manager_guards. reflexivity.
Defined.

(** * Further properties *)

(** ** Loading a texture *)

Lemma CreateGLTexture_unreadable f t w :
  stbi_load w f = None ->
  CreateGLTexture f t w = Ok (false, add_trace [stbi_set_flip_vertically_on_load true] w).
Proof.
  intros Hf. unfold CreateGLTexture.
  erewrite bind_Ok; [|apply emit_eq].
  erewrite bind_Ok; [|reflexivity]. cbn [stbi_load add_trace]. rewrite Hf.
  reflexivity.
Qed.

Lemma CreateGLTexture_prefix f t w img :
  stbi_load w f = Some img ->
  CreateGLTexture f t w =
  (if colorChannels img =? 3 then
     emit (upload_event img) ;; CreateGLTexture_register (gl_next w) t
   else if colorChannels img =? 4 then
     emit (upload_event img) ;; CreateGLTexture_register (gl_next w) t
   else ret false)
    (mkWorld (this w) (gl_next w + 1) (stbi_load w)
             (trace w ++ setup_events (gl_next w))).
Proof.
  intros Hf. unfold CreateGLTexture.
  erewrite bind_Ok; [|apply emit_eq].
  erewrite bind_Ok; [|reflexivity]. cbn [stbi_load add_trace]. rewrite Hf.
  erewrite bind_Ok; [|reflexivity].
  do 5 (erewrite bind_Ok; [|apply emit_eq]).
  unfold add_trace, setup_events, upload_event. members.
  rewrite <- !app_assoc. cbn [app].
  destruct (colorChannels img =? 3) eqn:H3; [reflexivity|].
  reflexivity.
Qed.

Lemma CreateGLTexture_unsupported f t w img :
  stbi_load w f = Some img ->
  colorChannels img <> 3 -> colorChannels img <> 4 ->
  CreateGLTexture f t w =
  Ok (false, mkWorld (this w) (gl_next w + 1) (stbi_load w)
                     (trace w ++ setup_events (gl_next w))).
Proof.
  intros Hf H3 H4. rewrite (CreateGLTexture_prefix f t w img Hf).
  apply Z.eqb_neq in H3, H4. rewrite H3, H4. reflexivity.
Qed.

Lemma CreateGLTexture_registers f t w img e :
  stbi_load w f = Some img ->
  colorChannels img = 3 \/ colorChannels img = 4 ->
  0 <= m_loadedTextures (this w) < INT_MAX ->
  m_textureIDs (this w) !! Z.to_nat (m_loadedTextures (this w)) = Some e ->
  CreateGLTexture f t w =
  Ok (true, mkWorld (registered (gl_next w) t (this w)) (gl_next w + 1) (stbi_load w)
                    (trace w ++ setup_events (gl_next w) ++ [upload_event img]
                             ++ finish_events)).
Proof.
  intros Hf Hc Hn He. rewrite (CreateGLTexture_prefix f t w img Hf).
  assert (Hgo : (emit (upload_event img) ;; CreateGLTexture_register (gl_next w) t)
                  (mkWorld (this w) (gl_next w + 1) (stbi_load w)
                           (trace w ++ setup_events (gl_next w)))
                = Ok (true, mkWorld (registered (gl_next w) t (this w)) (gl_next w + 1)
                                    (stbi_load w)
                                    (trace w ++ setup_events (gl_next w)
                                       ++ [upload_event img] ++ finish_events))).
  { erewrite bind_Ok; [|apply emit_eq].
    erewrite CreateGLTexture_register_Ok; [|exact Hn|exact He].
    unfold set_this, add_trace, finish_events. members.
    rewrite <- !app_assoc. reflexivity. }
  destruct Hc as [Hc|Hc]; rewrite Hc; cbn [Z.eqb Pos.eqb]; exact Hgo.
Qed.

Lemma CreateGLTexture_outcome f t w :
  registry_ok (this w) ->
  m_loadedTextures (this w) < Z.of_nat TEXTURE_SLOTS ->
  exists w',
    CreateGLTexture f t w = Ok (decodable w f, w') /\
    stbi_load w' = stbi_load w /\
    this w' = (if decodable w f then registered (gl_next w) t (this w) else this w).
Proof.
  intros [Hb Hn] Hlt. unfold decodable.
  destruct (stbi_load w f) as [img|] eqn:Hf.
  - destruct (Z.eqb_spec (colorChannels img) 3) as [H3|H3];
      [|destruct (Z.eqb_spec (colorChannels img) 4) as [H4|H4]].
    3: { eexists. split; [apply (CreateGLTexture_unsupported f t w img); assumption|].
         split; reflexivity. }
    all: destruct (lookup_lt_is_Some_2 (m_textureIDs (this w))
                     (Z.to_nat (m_loadedTextures (this w)))) as [e He];
      [rewrite Hb; lia|].
    all: eexists; split;
      [apply (CreateGLTexture_registers f t w img e); auto;
       unfold TEXTURE_SLOTS, INT_MAX in *; lia|].
    all: split; reflexivity.
  - eexists. split; [apply CreateGLTexture_unreadable; exact Hf|]. split; reflexivity.
Qed.

(** ** Looking a texture up *)

Lemma first_index_app tag_ l l' : forall i,
  0 <= i ->
  first_index tag_ (l ++ l') i =
  (if first_index tag_ l i =? -1 then first_index tag_ l' (i + Z.of_nat (length l))
   else first_index tag_ l i).
Proof.
  induction l as [|t l IH]; intros i Hi; cbn [app first_index length].
  - cbn. f_equal. lia.
  - destruct (String.eqb t tag_).
    + destruct (Z.eqb_spec i (-1)); [lia|reflexivity].
    + rewrite IH by lia. replace (i + 1 + Z.of_nat (length l))
        with (i + Z.of_nat (S (length l))) by lia. reflexivity.
Qed.

Lemma first_index_bounds tag_ l : forall i,
  0 <= i -> first_index tag_ l i = -1 \/ i <= first_index tag_ l i < i + Z.of_nat (length l).
Proof.
  induction l as [|t l IH]; intros i Hi; cbn [first_index length].
  - left. reflexivity.
  - destruct (String.eqb t tag_); [right; lia|].
    destruct (IH (i + 1) ltac:(lia)) as [H|H]; [left; exact H|right; lia].
Qed.

Lemma first_index_lookup tag_ l : forall i k,
  0 <= i -> first_index tag_ l i = i + Z.of_nat k ->
  l !! k = Some tag_.
Proof.
  induction l as [|t l IH]; intros i k Hi Hk; cbn [first_index] in Hk.
  - lia.
  - destruct (String.eqb_spec t tag_) as [->|Hne].
    + assert (k = 0%nat) by lia. subst k. reflexivity.
    + destruct (first_index_bounds tag_ l (i + 1) ltac:(lia)) as [H|H]; [lia|].
      destruct k as [|k]; [lia|]. cbn. apply (IH (i + 1)); lia.
Qed.

Lemma first_id_index tag_ es : forall i,
  0 <= i ->
  (first_index tag_ (map tex_tag es) i = -1 /\ first_id tag_ es = -1) \/
  (exists (k : nat) e,
      first_index tag_ (map tex_tag es) i = i + Z.of_nat k /\
      es !! k = Some e /\ tex_tag e = tag_ /\ first_id tag_ es = to_int (ID e)).
Proof.
  induction es as [|e es IH]; intros i Hi; cbn [map first_index first_id].
  - left. split; reflexivity.
  - destruct (String.eqb_spec (tex_tag e) tag_) as [Heq|Hne].
    + right. exists 0%nat, e. repeat split; [lia|exact Heq].
    + destruct (IH (i + 1) ltac:(lia)) as [H|(k & e' & H1 & H2 & H3 & H4)].
      * left. exact H.
      * right. exists (S k), e'. repeat split; [lia|exact H2|exact H3|exact H4].
Qed.

Lemma FindTextureID_cond_eq l w :
  FindTextureID_cond l w =
  Ok ((id_index l <? m_loadedTextures (this w)) && Bool.eqb (id_bFound l) false, w).
Proof. reflexivity. Qed.

Lemma FindTextureID_scan tag_ suf : forall pre fuel w,
  registry_ok (this w) ->
  entries (this w) = pre ++ suf ->
  (length suf < fuel)%nat ->
  exists i b,
    while fuel FindTextureID_cond (FindTextureID_body tag_)
          (mkIDScan (-1) (Z.of_nat (length pre)) false) w
    = Ok (mkIDScan (first_id tag_ suf) i b, w).
Proof.
  induction suf as [|e suf IH]; intros pre fuel w Hok He Hfuel;
    (destruct fuel as [|fuel]; [simpl in Hfuel; lia|]);
    rewrite while_S;
    step (FindTextureID_cond_eq (mkIDScan (-1) (Z.of_nat (length pre)) false) w);
    rewrite <- (entries_length _ Hok), He; cbn [id_index id_bFound Bool.eqb].
  - exists (Z.of_nat (length pre)), false.
    rewrite app_nil_r, Z.ltb_irrefl. reflexivity.
  - rewrite length_app. cbn [length].
    replace (Z.of_nat (length pre) <? Z.of_nat (length pre + S (length suf))) with true
      by (symmetry; apply Z.ltb_lt; lia).
    cbn [andb]. unfold FindTextureID_body at 1. cbn [id_index id_bFound textureID].
    rewrite bind_assoc.
    step (textureIDs_at_entry pre e suf w He).
    cbn [first_id].
    destruct (String.eqb (tex_tag e) tag_) eqn:Htag.
    + exists (Z.of_nat (length pre)), true. rewrite bind_ret.
      destruct fuel as [|fuel]; [simpl in Hfuel; lia|].
      rewrite while_S.
      step (FindTextureID_cond_eq
              (mkIDScan (to_int (ID e)) (Z.of_nat (length pre)) true) w).
      cbn [id_bFound Bool.eqb]. rewrite andb_false_r. reflexivity.
    + assert (Hlt : Z.of_nat (length pre) < INT_MAX).
      { pose proof (entries_length _ Hok) as Hl. rewrite He, length_app in Hl.
        destruct Hok as [_ Hn]. unfold TEXTURE_SLOTS, INT_MAX in *. simpl in Hl. lia. }
      rewrite bind_assoc. step (incr_Ok (Z.of_nat (length pre)) w Hlt).
      rewrite bind_ret.
      replace (Z.of_nat (length pre) + 1) with (Z.of_nat (length (pre ++ [e])))
        by (rewrite length_app; simpl; lia).
      apply IH; [exact Hok| |simpl in Hfuel; lia].
      rewrite <- app_assoc. exact He.
Qed.

Lemma FindTextureID_spec tag_ w :
  registry_ok (this w) ->
  FindTextureID tag_ w = Ok (first_id tag_ (entries (this w)), w).
Proof.
  intros Hok. unfold FindTextureID, bind at 1, gets.
  destruct (FindTextureID_scan tag_ (entries (this w)) []
              (S (Z.to_nat (m_loadedTextures (this w)))) w Hok eq_refl) as (i & b & Hs).
  { pose proof (entries_length _ Hok). lia. }
  cbn [length Z.of_nat] in Hs. step Hs. reflexivity.
Qed.

Lemma first_id_app_found tag_ es es' : forall i,
  first_index tag_ (map tex_tag es) i <> -1 ->
  first_id tag_ (es ++ es') = first_id tag_ es.
Proof.
  induction es as [|e es IH]; intros i H; cbn [map first_index first_id app] in *.
  - congruence.
  - destruct (String.eqb (tex_tag e) tag_); [reflexivity|]. eapply IH. exact H.
Qed.

Lemma first_id_app_missing tag_ es es' :
  (forall e, In e es -> tex_tag e <> tag_) ->
  first_id tag_ (es ++ es') = first_id tag_ es'.
Proof.
  induction es as [|e es IH]; intros H; cbn [first_id app].
  - reflexivity.
  - destruct (String.eqb_spec (tex_tag e) tag_) as [Heq|_].
    + exfalso. apply (H e); [left; reflexivity|exact Heq].
    + apply IH. intros x Hx. apply H. right. exact Hx.
Qed.

Lemma registered_lookup id t s j :
  j <> Z.to_nat (m_loadedTextures s) ->
  m_textureIDs (registered id t s) !! j = m_textureIDs s !! j.
Proof. intros Hj. unfold registered. cbn [m_textureIDs]. apply list_lookup_insert_ne. lia. Qed.

(** X1.  While the bank has a free slot, [CreateGLTexture] always returns,
    and returns [true] exactly when the file decodes to an image of 3 or 4
    channels.  Then the slot at the old count holds the driver's new name
    under the tag, the count is one more and every other slot is as before;
    otherwise the members are unchanged. *)
Theorem CreateGLTexture_result f t w :
  registry_ok (this w) ->
  m_loadedTextures (this w) < Z.of_nat TEXTURE_SLOTS ->
  exists w',
    CreateGLTexture f t w = Ok (decodable w f, w') /\
    (decodable w f = false -> this w' = this w) /\
    (decodable w f = true ->
     m_loadedTextures (this w') = m_loadedTextures (this w) + 1 /\
     m_textureIDs (this w') !! Z.to_nat (m_loadedTextures (this w))
     = Some (mkTEXTURE_INFO (gl_next w) t) /\
     (forall j, j <> Z.to_nat (m_loadedTextures (this w)) ->
                m_textureIDs (this w') !! j = m_textureIDs (this w) !! j) /\
     m_objectMaterials (this w') = m_objectMaterials (this w)).
Proof.
  intros Hok Hlt. destruct (CreateGLTexture_outcome f t w Hok Hlt) as (w' & Hc & _ & Hw).
  exists w'. split; [exact Hc|]. split; intros Hd; rewrite Hd in Hw; [exact Hw|].
  rewrite Hw. repeat split.
  - unfold registered. cbn [m_textureIDs]. apply list_lookup_insert_eq.
    destruct Hok as [Hb Hn]. rewrite Hb. lia.
  - intros j Hj. apply registered_lookup. exact Hj.
Qed.

Lemma CreateGLTexture_result_witness :
  exists w',
    CreateGLTexture "green_apple.jpg" "apple" world0 = Ok (true, w') /\
    m_loadedTextures (this w') = 1 /\
    m_textureIDs (this w') !! 0%nat = Some (mkTEXTURE_INFO 1 "apple").
Proof.
  destruct (CreateGLTexture_result "green_apple.jpg" "apple" world0)
    as (w' & Hc & _ & Ht).
  - split; [reflexivity|]. vm_compute. split; discriminate.
  - reflexivity.
  - exists w'. destruct (Ht eq_refl) as (Hn & Hs & _).
    split; [exact Hc|]. split; [exact Hn|exact Hs].
Defined.

(** X2.  When the file decodes to an image whose channel count is neither 3
    nor 4, [CreateGLTexture] returns [false] with the members unchanged, but
    only after it has generated a texture name and bound it: the call leaves
    through the early [return false], so the image is not freed and the name
    is neither registered nor deleted. *)
Theorem CreateGLTexture_unsupported_channels f t w img :
  stbi_load w f = Some img ->
  colorChannels img <> 3 -> colorChannels img <> 4 ->
  exists w',
    CreateGLTexture f t w = Ok (false, w') /\
    this w' = this w /\
    gl_next w' = gl_next w + 1 /\
    trace w' = trace w ++ setup_events (gl_next w) /\
    In (glGenTextures (gl_next w)) (setup_events (gl_next w)) /\
    ~ In stbi_image_free (setup_events (gl_next w)) /\
    (forall name, ~ In (glDeleteTextures name) (setup_events (gl_next w))).
Proof.
  intros Hf H3 H4. eexists.
  split; [apply (CreateGLTexture_unsupported f t w img); assumption|].
  members. repeat split.
  - right. left. reflexivity.
  - intros H. cbn in H. intuition discriminate.
  - intros name H. cbn in H. intuition discriminate.
Qed.

Lemma CreateGLTexture_unsupported_channels_witness :
  exists w',
    CreateGLTexture "grey.png" "grey" world_grey = Ok (false, w') /\
    this w' = this world_grey /\
    gl_next w' = 2 /\
    trace w' = setup_events 1.
Proof.
  destruct (CreateGLTexture_unsupported_channels "grey.png" "grey" world_grey
              (mkImage 64 64 1)) as (w' & Hc & Ht & Hg & Htr & _).
  - reflexivity.
  - discriminate.
  - discriminate.
  - exists w'. repeat split; assumption.
Defined.

(** X3.  Load and lookup round trip: after a successful load under a tag no
    registered entry carries, [FindTextureSlot] of that tag is the count the
    registry had before the load and [FindTextureID] is the name the driver
    handed out (as an [int]). *)
Theorem CreateGLTexture_then_find f t w :
  registry_ok (this w) ->
  m_loadedTextures (this w) < Z.of_nat TEXTURE_SLOTS ->
  decodable w f = true ->
  (forall e, In e (entries (this w)) -> tex_tag e <> t) ->
  exists w',
    CreateGLTexture f t w = Ok (true, w') /\
    FindTextureSlot t w' = Ok (m_loadedTextures (this w), w') /\
    FindTextureID t w' = Ok (to_int (gl_next w), w').
Proof.
  intros Hok Hlt Hd Hnew.
  destruct (CreateGLTexture_outcome f t w Hok Hlt) as (w' & Hc & _ & Hw).
  rewrite Hd in Hc, Hw. exists w'. split; [exact Hc|].
  assert (Hroom : (Z.to_nat (m_loadedTextures (this w)) < length (m_textureIDs (this w)))%nat).
  { destruct Hok as [Hb Hn]. rewrite Hb. lia. }
  destruct (registered_entries (gl_next w) t (this w) Hok Hroom) as [Hok' He'].
  rewrite <- Hw in Hok', He'.
  split.
  - rewrite (FindTextureSlot_spec t w' Hok'), He', map_app.
    rewrite first_index_app by lia.
    rewrite first_index_none.
    2: { intros x Hx. apply in_map_iff in Hx. destruct Hx as (e & <- & Hin).
         apply Hnew. exact Hin. }
    cbn [Z.eqb map first_index tex_tag]. rewrite String.eqb_refl, length_map.
    rewrite (entries_length _ Hok). reflexivity.
  - rewrite (FindTextureID_spec t w' Hok'), He'.
    rewrite (first_id_app_missing _ _ _ Hnew). cbn [first_id tex_tag ID].
    rewrite String.eqb_refl. reflexivity.
Qed.

Lemma CreateGLTexture_then_find_witness :
  exists w',
    CreateGLTexture "apple_stem.jpg" "stem" world_apple = Ok (true, w') /\
    FindTextureSlot "stem" w' = Ok (1, w') /\
    FindTextureID "stem" w' = Ok (2, w').
Proof.
  apply (CreateGLTexture_then_find "apple_stem.jpg" "stem" world_apple).
  - split; [reflexivity|]. vm_compute. split; discriminate.
  - reflexivity.
  - reflexivity.
  - intros e [<-|[]]. discriminate.
Defined.

(** X4.  Slots are stable: a tag that resolves before a call of
    [CreateGLTexture] resolves to the same slot and the same name after it,
    whatever file and tag the call was given and whether it registered
    anything. *)
Theorem CreateGLTexture_keeps_lookups f t w b w' tag_ :
  registry_ok (this w) ->
  CreateGLTexture f t w = Ok (b, w') ->
  exists slot id,
    FindTextureSlot tag_ w = Ok (slot, w) /\
    FindTextureID tag_ w = Ok (id, w) /\
    (slot <> -1 ->
     FindTextureSlot tag_ w' = Ok (slot, w') /\
     FindTextureID tag_ w' = Ok (id, w')).
Proof.
  intros Hok Hc.
  exists (first_index tag_ (map tex_tag (entries (this w))) 0),
         (first_id tag_ (entries (this w))).
  split; [apply FindTextureSlot_spec; exact Hok|].
  split; [apply FindTextureID_spec; exact Hok|].
  intros Hfound. apply CreateGLTexture_inv in Hc.
  destruct Hc as [[_ Hw]|(_ & Hn & Hlt & id & Hw)].
  - rewrite <- Hw in Hok.
    rewrite (FindTextureSlot_spec tag_ w' Hok), (FindTextureID_spec tag_ w' Hok), Hw.
    split; reflexivity.
  - destruct (registered_entries id t (this w) Hok Hlt) as [Hok' He'].
    rewrite <- Hw in Hok', He'.
    rewrite (FindTextureSlot_spec tag_ w' Hok'), (FindTextureID_spec tag_ w' Hok'), He'.
    rewrite map_app, first_index_app by lia.
    apply Z.eqb_neq in Hfound. rewrite Hfound. apply Z.eqb_neq in Hfound.
    rewrite (first_id_app_found _ _ _ 0 Hfound). split; reflexivity.
Qed.

Lemma CreateGLTexture_keeps_lookups_witness :
  exists slot id,
    FindTextureSlot "apple" world_apple = Ok (slot, world_apple) /\
    FindTextureID "apple" world_apple = Ok (id, world_apple) /\
    (slot <> -1 ->
     FindTextureSlot "apple" world_apple_stem = Ok (slot, world_apple_stem) /\
     FindTextureID "apple" world_apple_stem = Ok (id, world_apple_stem)).
Proof.
  apply (CreateGLTexture_keeps_lookups "apple_stem.jpg" "stem" world_apple true).
  - split; [reflexivity|]. vm_compute. split; discriminate.
  - vm_compute. reflexivity.
Defined.

(** X5.  The two lookups agree: when [FindTextureSlot] finds no entry so
    does [FindTextureID] (both -1), and when it returns a slot, that slot of
    the bank carries the tag and [FindTextureID] returns its name converted
    to [int]. *)
Theorem FindTextureID_agrees_with_slot tag_ w :
  registry_ok (this w) ->
  exists slot id,
    FindTextureSlot tag_ w = Ok (slot, w) /\
    FindTextureID tag_ w = Ok (id, w) /\
    (slot = -1 -> id = -1) /\
    (slot <> -1 ->
     exists e, m_textureIDs (this w) !! Z.to_nat slot = Some e /\
               tex_tag e = tag_ /\ id = to_int (ID e)).
Proof.
  intros Hok. eexists. eexists.
  split; [apply FindTextureSlot_spec; exact Hok|].
  split; [apply FindTextureID_spec; exact Hok|].
  destruct (first_id_index tag_ (entries (this w)) 0 ltac:(lia))
    as [[H1 H2]|(k & e & H1 & H2 & H3 & H4)].
  - split; [intros _; exact H2|]. intros H. congruence.
  - split; [intros H; lia|]. intros _. exists e. rewrite H1.
    replace (Z.to_nat (0 + Z.of_nat k)) with k by lia.
    unfold entries in H2. apply lookup_take_Some in H2.
    split; [apply H2|]. split; assumption.
Qed.

Lemma FindTextureID_agrees_with_slot_witness :
  exists slot id,
    FindTextureSlot "stem" world_apple_stem = Ok (slot, world_apple_stem) /\
    FindTextureID "stem" world_apple_stem = Ok (id, world_apple_stem) /\
    (slot = -1 -> id = -1) /\
    (slot <> -1 ->
     exists e, m_textureIDs (this world_apple_stem) !! Z.to_nat slot = Some e /\
               tex_tag e = "stem" /\ id = to_int (ID e)).
Proof.
  apply FindTextureID_agrees_with_slot.
  split; [reflexivity|]. vm_compute. split; discriminate.
Defined.

(** ** Binding and tearing down *)

Lemma BindGLTextures_loop suf : forall pre fuel w,
  registry_ok (this w) ->
  entries (this w) = pre ++ suf ->
  (length suf < fuel)%nat ->
  while fuel (fun i => n <- gets m_loadedTextures ;; ret (i <? n))
        (fun i => (emit (glActiveTexture i) ;;
                   e <- textureIDs_at i ;;
                   emit (glBindTexture GL_TEXTURE_2D (ID e))) ;;
                  incr i)
        (Z.of_nat (length pre)) w
  = Ok (m_loadedTextures (this w), add_trace (bind_events suf (Z.of_nat (length pre))) w).
Proof.
  induction suf as [|e suf IH]; intros pre fuel w Hok He Hfuel;
    (destruct fuel as [|fuel]; [simpl in Hfuel; lia|]); rewrite while_S;
    rewrite bind_assoc; (erewrite bind_Ok; [|apply gets_eq]); rewrite bind_ret;
    pose proof (entries_length _ Hok) as Hl; rewrite He, length_app in Hl;
    cbn [length] in Hl.
  - replace (Z.of_nat (length pre) <? m_loadedTextures (this w)) with false
      by (symmetry; apply Z.ltb_ge; lia).
    cbn [bind_events]. rewrite add_trace_nil. unfold ret. f_equal. f_equal. lia.
  - replace (Z.of_nat (length pre) <? m_loadedTextures (this w)) with true
      by (symmetry; apply Z.ltb_lt; lia).
    rewrite !bind_assoc. erewrite bind_Ok; [|apply emit_eq].
    rewrite ?bind_assoc.
    erewrite bind_Ok; [|apply (textureIDs_at_entry pre e suf); exact He].
    rewrite ?bind_assoc. erewrite bind_Ok; [|apply emit_eq].
    erewrite bind_Ok;
      [|apply incr_Ok; destruct Hok as [_ Hr]; unfold TEXTURE_SLOTS, INT_MAX in *; lia].
    rewrite add_trace_add.
    replace (Z.of_nat (length pre) + 1) with (Z.of_nat (length (pre ++ [e])))
      by (rewrite length_app; simpl; lia).
    erewrite (IH (pre ++ [e]) fuel);
      [|exact Hok|rewrite <- app_assoc; exact He|simpl in Hfuel; lia].
    rewrite add_trace_add. cbn [bind_events app this add_trace].
    replace (Z.of_nat (length (pre ++ [e]))) with (Z.of_nat (length pre) + 1)
      by (rewrite length_app; simpl; lia).
    reflexivity.
Qed.

Lemma BindGLTextures_spec w :
  registry_ok (this w) ->
  BindGLTextures w = Ok (tt, add_trace (bind_events (entries (this w)) 0) w).
Proof.
  intros Hok. unfold BindGLTextures.
  erewrite bind_Ok; [|apply gets_eq]. unfold for_loop.
  erewrite bind_Ok;
    [|apply (BindGLTextures_loop (entries (this w)) []); [exact Hok|reflexivity|]].
  - reflexivity.
  - pose proof (entries_length _ Hok). lia.
Qed.

Lemma rename_length es : forall g, length (rename es g) = length es.
Proof. induction es as [|e es IH]; intros g; cbn; [reflexivity|]. rewrite IH. reflexivity. Qed.

Lemma rename_tags es : forall g, map tex_tag (rename es g) = map tex_tag es.
Proof. induction es as [|e es IH]; intros g; cbn; [reflexivity|]. rewrite IH. reflexivity. Qed.

Lemma rename_names es : forall g, map ID (rename es g) = fresh_names g (length es).
Proof.
  induction es as [|e es IH]; intros g; cbn [rename map length]; [reflexivity|].
  rewrite fresh_names_S, IH. reflexivity.
Qed.

Lemma DestroyGLTextures_rename todo : forall done rest fuel w,
  registry_ok (this w) ->
  m_textureIDs (this w) = done ++ todo ++ rest ->
  m_loadedTextures (this w) = Z.of_nat (length done + length todo) ->
  (length todo < fuel)%nat ->
  while fuel (fun i => n <- gets m_loadedTextures ;; ret (i <? n))
             (fun i => DestroyGLTextures_body i ;; incr i) (Z.of_nat (length done)) w
  = Ok (m_loadedTextures (this w),
        mkWorld (set_textureIDs (done ++ rename todo (gl_next w) ++ rest) (this w))
                (gl_next w + Z.of_nat (length todo)) (stbi_load w)
                (trace w ++ map glGenTextures (fresh_names (gl_next w) (length todo)))).
Proof.
  induction todo as [|e todo IH]; intros done rest fuel w Hok Hb Hn Hfuel;
    (destruct fuel as [|fuel]; [simpl in Hfuel; lia|]); rewrite while_S;
    rewrite bind_assoc; (erewrite bind_Ok; [|apply gets_eq]); rewrite bind_ret;
    cbn [length] in Hn.
  - replace (Z.of_nat (length done) <? m_loadedTextures (this w)) with false
      by (symmetry; apply Z.ltb_ge; lia).
    unfold ret. cbn [app] in Hb. cbn [rename app length fresh_names seq map Z.of_nat].
    rewrite app_nil_r, Z.add_0_r, <- Hb. f_equal. f_equal; [lia|].
    destruct w as [s g fs tr]. destruct s. reflexivity.
  - replace (Z.of_nat (length done) <? m_loadedTextures (this w)) with true
      by (symmetry; apply Z.ltb_lt; lia).
    rewrite bind_assoc. unfold DestroyGLTextures_body at 1. rewrite bind_assoc.
    erewrite bind_Ok;
      [|apply (textureIDs_at_Ok _ e); [lia|rewrite Hb, Nat2Z.id; apply list_lookup_middle; reflexivity]].
    rewrite bind_assoc. erewrite bind_Ok; [|reflexivity].
    erewrite bind_Ok; [|reflexivity].
    erewrite bind_Ok;
      [|apply incr_Ok; destruct Hok as [_ Hr]; unfold TEXTURE_SLOTS, INT_MAX in *; lia].
    unfold set_this. members. rewrite Hb, Nat2Z.id.
    rewrite insert_app_r_alt by lia. rewrite Nat.sub_diag. cbn [app insert list_insert].
    replace (Z.of_nat (length done) + 1) with (Z.of_nat (length (done ++ [mkTEXTURE_INFO (gl_next w) (tex_tag e)])))
      by (rewrite length_app; simpl; lia).
    erewrite (IH (done ++ [mkTEXTURE_INFO (gl_next w) (tex_tag e)]) rest fuel).
    + unfold set_textureIDs. members. cbn [rename length]. rewrite fresh_names_S.
      cbn [map]. rewrite <- !app_assoc. cbn [app].
      f_equal. f_equal. f_equal. lia.
    + destruct Hok as [Hlen Hr]. split; unfold set_textureIDs; members; [|exact Hr].
      rewrite <- Hlen, Hb, !length_app. cbn [length]. rewrite length_app. lia.
    + unfold set_textureIDs. members. rewrite <- app_assoc. reflexivity.
    + unfold set_textureIDs. members. rewrite Hn, length_app. cbn [length]. lia.
    + simpl in Hfuel. lia.
Qed.

Lemma bind_events_lookup es : forall i k e,
  es !! k = Some e ->
  bind_events es i !! (2 * k)%nat = Some (glActiveTexture (i + Z.of_nat k)) /\
  bind_events es i !! (2 * k + 1)%nat = Some (glBindTexture GL_TEXTURE_2D (ID e)).
Proof.
  induction es as [|x es IH]; intros i k e Hk; [discriminate|].
  destruct k as [|k]; cbn [bind_events].
  - cbn in Hk. inversion Hk; subst. cbn. split; [f_equal; f_equal; lia|reflexivity].
  - cbn in Hk. destruct (IH (i + 1) k e Hk) as [H1 H2].
    replace (2 * S k)%nat with (S (S (2 * k))) by lia.
    replace (S (S (2 * k)) + 1)%nat with (S (S (2 * k + 1))) by lia.
    split.
    + change (bind_events es (i + 1) !! (2 * k)%nat
              = Some (glActiveTexture (i + Z.of_nat (S k)))).
      rewrite H1. f_equal. f_equal. lia.
    + change (bind_events es (i + 1) !! (2 * k + 1)%nat
              = Some (glBindTexture GL_TEXTURE_2D (ID e))).
      exact H2.
Qed.

Lemma bind_events_length es : forall i, length (bind_events es i) = (2 * length es)%nat.
Proof.
  induction es as [|x es IH]; intros i; cbn [bind_events length]; [reflexivity|].
  rewrite IH. lia.
Qed.

(** X6.  On a registry whose count is within the bank, [BindGLTextures]
    returns with the world unchanged but for two calls per registered
    texture, in slot order: it activates unit [k] and then binds the name
    held in slot [k].  Nothing is bound for the slots beyond the count. *)
Theorem BindGLTextures_binds_each_slot w :
  registry_ok (this w) ->
  exists ev,
    BindGLTextures w = Ok (tt, add_trace ev w) /\
    length ev = (2 * Z.to_nat (m_loadedTextures (this w)))%nat /\
    forall (k : nat) e,
      (Z.of_nat k < m_loadedTextures (this w)) ->
      m_textureIDs (this w) !! k = Some e ->
      ev !! (2 * k)%nat = Some (glActiveTexture (Z.of_nat k)) /\
      ev !! (2 * k + 1)%nat = Some (glBindTexture GL_TEXTURE_2D (ID e)).
Proof.
  intros Hok. exists (bind_events (entries (this w)) 0).
  split; [apply BindGLTextures_spec; exact Hok|].
  split.
  - rewrite bind_events_length. pose proof (entries_length _ Hok). lia.
  - intros k e Hk He.
    apply (bind_events_lookup (entries (this w)) 0 k e).
    unfold entries. rewrite lookup_take_lt by lia. exact He.
Qed.

Lemma BindGLTextures_binds_each_slot_witness :
  exists ev,
    BindGLTextures world_apple_stem = Ok (tt, add_trace ev world_apple_stem) /\
    length ev = 4%nat /\
    ev !! 2%nat = Some (glActiveTexture 1) /\
    ev !! 3%nat = Some (glBindTexture GL_TEXTURE_2D 2).
Proof.
  destruct (BindGLTextures_binds_each_slot world_apple_stem) as (ev & Hb & Hl & Hk).
  - split; [reflexivity|]. vm_compute. split; discriminate.
  - exists ev. split; [exact Hb|]. split; [exact Hl|].
    apply (Hk 1%nat (mkTEXTURE_INFO 2 "stem")); reflexivity.
Defined.

(** X7.  [DestroyGLTextures] keeps the registry usable and loses the
    handles: afterwards the registered entries carry the same tags in the
    same slots, so [FindTextureSlot] answers as before, but the name in slot
    [k] has been overwritten by the [k]-th new name of the driver, and the
    slots beyond the count are untouched. *)
Theorem DestroyGLTextures_overwrites_names w :
  registry_ok (this w) ->
  exists w',
    DestroyGLTextures w = Ok (tt, w') /\
    m_loadedTextures (this w') = m_loadedTextures (this w) /\
    map tex_tag (entries (this w')) = map tex_tag (entries (this w)) /\
    map ID (entries (this w'))
    = fresh_names (gl_next w) (Z.to_nat (m_loadedTextures (this w))) /\
    drop (Z.to_nat (m_loadedTextures (this w))) (m_textureIDs (this w'))
    = drop (Z.to_nat (m_loadedTextures (this w))) (m_textureIDs (this w)) /\
    (forall tag_ slot,
        FindTextureSlot tag_ w = Ok (slot, w) -> FindTextureSlot tag_ w' = Ok (slot, w')).
Proof.
  intros Hok. pose proof (entries_length _ Hok) as Hl.
  assert (Hsplit : m_textureIDs (this w)
                   = [] ++ entries (this w)
                        ++ drop (Z.to_nat (m_loadedTextures (this w))) (m_textureIDs (this w))).
  { unfold entries. cbn [app]. symmetry. apply take_drop. }
  pose proof (DestroyGLTextures_rename (entries (this w)) []
                (drop (Z.to_nat (m_loadedTextures (this w))) (m_textureIDs (this w)))
                (S (Z.to_nat (m_loadedTextures (this w)))) w Hok Hsplit) as Hloop.
  cbn [length Nat.add Z.of_nat app] in Hloop.
  eexists. split.
  { unfold DestroyGLTextures. erewrite bind_Ok; [|apply gets_eq]. unfold for_loop.
    erewrite bind_Ok; [|apply Hloop; lia]. reflexivity. }
  unfold set_textureIDs. members.
  assert (Hlen : length (rename (entries (this w)) (gl_next w))
                 = Z.to_nat (m_loadedTextures (this w))).
  { rewrite rename_length. lia. }
  assert (He : entries
                 (mkSceneManager (m_pShaderManager (this w)) (m_basicMeshes (this w))
                    (m_loadedTextures (this w))
                    (rename (entries (this w)) (gl_next w)
                       ++ drop (Z.to_nat (m_loadedTextures (this w))) (m_textureIDs (this w)))
                    (m_objectMaterials (this w)))
               = rename (entries (this w)) (gl_next w)).
  { unfold entries at 1. members. apply take_app_length'. symmetry. exact Hlen. }
  split; [reflexivity|]. rewrite He.
  split; [apply rename_tags|].
  split; [rewrite rename_names; f_equal; lia|].
  split; [apply drop_app_length'; symmetry; exact Hlen|].
  intros tag_ slot Hs. rewrite (FindTextureSlot_spec tag_ w Hok) in Hs.
  inversion Hs as [Hslot].
  rewrite FindTextureSlot_spec.
  - members. rewrite He, rename_tags. reflexivity.
  - destruct Hok as [Hb Hn]. split; members; [|exact Hn].
    rewrite length_app, Hlen, length_drop. lia.
Qed.

Lemma DestroyGLTextures_overwrites_names_witness :
  exists w',
    DestroyGLTextures world_apple_stem = Ok (tt, w') /\
    map tex_tag (entries (this w')) = ["apple"; "stem"] /\
    map ID (entries (this world_apple_stem)) = [1; 2] /\
    map ID (entries (this w')) = [3; 4] /\
    FindTextureSlot "stem" w' = Ok (1, w').
Proof.
  destruct (DestroyGLTextures_overwrites_names world_apple_stem)
    as (w' & Hd & _ & Ht & Hi & _ & Hf).
  - split; [reflexivity|]. vm_compute. split; discriminate.
  - exists w'. split; [exact Hd|]. split; [exact Ht|]. split; [reflexivity|].
    split; [exact Hi|]. apply Hf. vm_compute. reflexivity.
Defined.

(** ** Defining and finding materials *)

Lemma first_material_snoc tag_ l m :
  first_material tag_ (l ++ [m]) =
  match first_material tag_ l with
  | Some x => Some x
  | None => if String.eqb (tag m) tag_ then Some m else None
  end.
Proof.
  unfold first_material. induction l as [|x l IH]; cbn [app List.find].
  - reflexivity.
  - destruct (String.eqb (tag x) tag_); [reflexivity|exact IH].
Qed.

(** X8.  Define and find round trip: after [push_back m], [FindMaterial] of
    any tag that already had an entry returns that entry's values as before
    (the new entry never shadows an older one); a tag that had none and is
    the tag of [m] returns the values of [m]; any other tag leaves the
    caller's [material] untouched. *)
Theorem push_back_then_FindMaterial m tag_ out w :
  Z.of_nat (length (m_objectMaterials (this w))) < INT_MAX ->
  exists w',
    push_back m w = Ok (tt, w') /\
    m_objectMaterials (this w') = m_objectMaterials (this w) ++ [m] /\
    FindMaterial tag_ out w'
    = Ok (true,
          match first_material tag_ (m_objectMaterials (this w)) with
          | Some x => copy_material x out
          | None => if String.eqb (tag m) tag_ then copy_material m out else out
          end, w').
Proof.
  intros Hlen. eexists. split; [apply push_back_eq|].
  unfold with_materials, set_this, set_objectMaterials. split; [reflexivity|].
  rewrite FindMaterial_spec; members.
  - unfold scanned. rewrite first_material_snoc.
    destruct (m_objectMaterials (this w)) as [|x l]; cbn [app];
      destruct (first_material tag_ _); try reflexivity;
      destruct (String.eqb (tag m) tag_); reflexivity.
  - rewrite length_app. cbn [length]. lia.
Qed.

Lemma push_back_then_FindMaterial_witness :
  exists w',
    push_back glossyWood world_gold = Ok (tt, w') /\
    m_objectMaterials (this w') = [goldMaterial; glossyWood] /\
    FindMaterial "wood" goldMaterial w'
    = Ok (true, copy_material glossyWood goldMaterial, w').
Proof.
  apply (push_back_then_FindMaterial glossyWood "wood" goldMaterial world_gold).
  unfold INT_MAX. simpl. lia.
Defined.

(** X9.  On an empty material registry [FindMaterial] returns [false] and
    leaves the caller's [material] untouched, and [SetShaderMaterial]
    returns without pushing anything and without touching the shader
    manager, so it is safe even when that pointer is null. *)
Theorem empty_material_registry tag_ out uninit w :
  m_objectMaterials (this w) = [] ->
  FindMaterial tag_ out w = Ok (false, out, w) /\
  SetShaderMaterial tag_ uninit w = Ok (tt, w).
Proof.
  intros Hm. split.
  - unfold FindMaterial. step (gets_eq m_objectMaterials w). rewrite Hm. reflexivity.
  - unfold SetShaderMaterial. step (gets_eq m_objectMaterials w). rewrite Hm. reflexivity.
Qed.

Lemma empty_material_registry_witness :
  FindMaterial "gold" goldMaterial world_null = Ok (false, goldMaterial, world_null) /\
  SetShaderMaterial "gold" goldMaterial world_null = Ok (tt, world_null).
Proof. apply empty_material_registry. reflexivity. Defined.

(** ** Colour against texture *)

Lemma last_int_app name tr ev :
  last_int name (tr ++ ev) =
  match last_int name ev with
  | Some v => Some v
  | None => last_int name tr
  end.
Proof.
  induction tr as [|e tr IH]; cbn [app last_int].
  - destruct (last_int name ev); reflexivity.
  - rewrite IH. destruct (last_int name ev); reflexivity.
Qed.

(** X10.  [SetShaderColor] and [SetShaderTexture] both write [bUseTexture],
    so the later call wins: a colour set before the texture, the order
    [RenderScene] uses, leaves texturing switched on (1), and a colour set
    after the texture switches it off (0). *)
Theorem color_texture_order r g b a tag_ w :
  is_null (m_pShaderManager (this w)) = false ->
  registry_ok (this w) ->
  exists w1 w2,
    (SetShaderColor r g b a ;; SetShaderTexture tag_) w = Ok (tt, w1) /\
    last_int "bUseTexture" (trace w1) = Some 1 /\
    (SetShaderTexture tag_ ;; SetShaderColor r g b a) w = Ok (tt, w2) /\
    last_int "bUseTexture" (trace w2) = Some 0.
Proof.
  intros Hp Hok. eexists. eexists.
  split; [|split; [|split]].
  - erewrite bind_Ok; [|apply SetShaderColor_Ok; exact Hp].
    apply SetShaderTexture_Ok; assumption.
  - unfold add_trace. members. rewrite !last_int_app. reflexivity.
  - erewrite bind_Ok; [|apply SetShaderTexture_Ok; assumption].
    apply SetShaderColor_Ok. exact Hp.
  - unfold add_trace. members. rewrite !last_int_app. reflexivity.
Qed.

Lemma color_texture_order_witness :
  exists w1 w2,
    (SetShaderColor 1 1 1 1 ;; SetShaderTexture "apple") world_apple = Ok (tt, w1) /\
    last_int "bUseTexture" (trace w1) = Some 1 /\
    (SetShaderTexture "apple" ;; SetShaderColor 1 1 1 1) world_apple = Ok (tt, w2) /\
    last_int "bUseTexture" (trace w2) = Some 0.
Proof.
  apply color_texture_order.
  - reflexivity.
  - split; [reflexivity|]. vm_compute. split; discriminate.
Defined.

(** ** What the methods leave alone *)

Section Respects.

Variable R : World -> World -> Prop.
Hypothesis R_refl : forall w, R w w.
Hypothesis R_trans : forall w1 w2 w3, R w1 w2 -> R w2 w3 -> R w1 w3.
Hypothesis R_emit : forall e w, is_delete e = false -> R w (add_trace [e] w).
Hypothesis R_modify : forall f w, R w (set_this (f (this w)) w).
Hypothesis R_gen :
  forall w, R w (mkWorld (this w) (gl_next w + 1) (stbi_load w)
                         (trace w ++ [glGenTextures (gl_next w)])).

Lemma respects_bind {A B} (c : M A) (k : A -> M B) :
  respects R c -> (forall a, respects R (k a)) -> respects R (bind c k).
Proof.
  intros Hc Hk w b w' H. apply bind_inv in H. destruct H as (a & w1 & H1 & H2).
  exact (R_trans _ _ _ (Hc _ _ _ H1) (Hk a _ _ _ H2)).
Qed.

Lemma respects_ret {A} (a : A) : respects R (ret a).
Proof. intros w b w' H. inversion H. apply R_refl. Qed.

Lemma respects_raise {A} f : respects R (@raise A f).
Proof. intros w b w' H. discriminate. Qed.

Lemma respects_gets {A} (f : SceneManager -> A) : respects R (gets f).
Proof. intros w b w' H. inversion H. apply R_refl. Qed.

Lemma respects_incr i : respects R (incr i).
Proof. unfold incr. destruct (i <? INT_MAX); [apply respects_ret|apply respects_raise]. Qed.

Lemma respects_emit e : is_delete e = false -> respects R (emit e).
Proof. intros He w b w' H. inversion H. apply R_emit. exact He. Qed.

Lemma respects_modify f : respects R (modify f).
Proof. intros w b w' H. inversion H. apply R_modify. Qed.

Lemma respects_gl_GenTexture : respects R gl_GenTexture.
Proof. intros w b w' H. inversion H. apply R_gen. Qed.

Lemma respects_while {St} (cond : St -> M bool) (body : St -> M St) :
  (forall s, respects R (cond s)) -> (forall s, respects R (body s)) ->
  forall fuel s, respects R (while fuel cond body s).
Proof.
  intros Hc Hb. induction fuel as [|fuel IH]; intros s.
  - intros w a w' H. discriminate.
  - rewrite while_S. apply respects_bind; [apply Hc|].
    intros [|]; [|apply respects_ret].
    apply respects_bind; [apply Hb|apply IH].
Qed.

(** One step of a proof that a computation respects [R]. *)
Ltac respects_step :=
  match goal with
  | |- respects _ (bind _ _) => apply respects_bind; [|intros ?]
  | |- respects _ (ret _) => apply respects_ret
  | |- respects _ (raise _) => apply respects_raise
  | |- respects _ (gets _) => apply respects_gets
  | |- respects _ (incr _) => apply respects_incr
  | |- respects _ (emit _) => apply respects_emit; reflexivity
  | |- respects _ (modify _) => apply respects_modify
  | |- respects _ gl_GenTexture => apply respects_gl_GenTexture
  | |- respects _ (while _ _ _ _) => apply respects_while; intros ?
  | |- respects _ (if ?c then _ else _) => destruct c
  | |- respects _ (match ?x with Some _ => _ | None => _ end) => destruct x
  | |- respects _ (let (_, _) := ?x in _) => destruct x
  end.

Lemma respects_textureIDs_at i : respects R (textureIDs_at i).
Proof. unfold textureIDs_at. repeat respects_step. Qed.

Lemma respects_objectMaterials_at i : respects R (objectMaterials_at i).
Proof. unfold objectMaterials_at. repeat respects_step. Qed.

Lemma respects_FindTextureSlot tag_ : respects R (FindTextureSlot tag_).
Proof.
  unfold FindTextureSlot, FindTextureSlot_cond, FindTextureSlot_body.
  repeat first [apply respects_textureIDs_at | respects_step].
Qed.

Lemma respects_FindTextureID tag_ : respects R (FindTextureID tag_).
Proof.
  unfold FindTextureID, FindTextureID_cond, FindTextureID_body.
  repeat first [apply respects_textureIDs_at | respects_step].
Qed.

Lemma respects_FindMaterial tag_ out : respects R (FindMaterial tag_ out).
Proof.
  unfold FindMaterial, FindMaterial_cond, FindMaterial_body.
  repeat first [apply respects_objectMaterials_at | respects_step].
Qed.

Lemma respects_call_through p e :
  is_delete e = false -> respects R (call_through p e).
Proof.
  intros He. unfold call_through. repeat respects_step. apply respects_emit. exact He.
Qed.

Ltac respects_call :=
  first [ apply respects_call_through; reflexivity
        | apply respects_FindTextureSlot
        | apply respects_FindMaterial
        | apply respects_textureIDs_at
        | respects_step ].

Lemma respects_SetTransformations lm sc rx ry rz pos :
  respects R (SetTransformations lm sc rx ry rz pos).
Proof. unfold SetTransformations, shader. repeat respects_call. Qed.

Lemma respects_SetShaderColor r g b a : respects R (SetShaderColor r g b a).
Proof. unfold SetShaderColor, shader. repeat respects_call. Qed.

Lemma respects_SetShaderTexture tag_ : respects R (SetShaderTexture tag_).
Proof. unfold SetShaderTexture, shader. repeat respects_call. Qed.

Lemma respects_SetTextureUVScale u v : respects R (SetTextureUVScale u v).
Proof. unfold SetTextureUVScale, shader. repeat respects_call. Qed.

Lemma respects_SetShaderMaterial tag_ uninit : respects R (SetShaderMaterial tag_ uninit).
Proof. unfold SetShaderMaterial, shader. repeat respects_call. Qed.

Lemma respects_BindGLTextures : respects R BindGLTextures.
Proof. unfold BindGLTextures, for_loop. repeat respects_call. Qed.

Lemma respects_SetupSceneLights : respects R SetupSceneLights.
Proof. unfold SetupSceneLights, shader. repeat respects_call. Qed.

Lemma respects_RenderScene lm uninit : respects R (RenderScene lm uninit).
Proof.
  unfold RenderScene, meshes.
  repeat first [ apply respects_SetTransformations
               | apply respects_SetShaderColor
               | apply respects_SetShaderMaterial
               | apply respects_SetShaderTexture
               | apply respects_call_through; reflexivity
               | apply respects_bind; [|intros _] ].
Qed.

Lemma respects_CreateGLTexture f t : respects R (CreateGLTexture f t).
Proof.
  unfold CreateGLTexture, CreateGLTexture_register, textureIDs_store.
  apply respects_bind; [apply respects_emit; reflexivity|intros _].
  apply respects_bind; [intros w a w' H; inversion H; apply R_refl|intros image].
  destruct image as [img|]; [|apply respects_ret].
  repeat respects_call.
Qed.

Lemma respects_DestroyGLTextures : respects R DestroyGLTextures.
Proof.
  unfold DestroyGLTextures, for_loop, DestroyGLTextures_body. repeat respects_call.
Qed.

Lemma respects_PrepareScene : respects R PrepareScene.
Proof.
  unfold PrepareScene, LoadSceneTextures, DefineObjectMaterials, push_back, meshes.
  repeat first [ apply respects_CreateGLTexture
               | apply respects_BindGLTextures
               | apply respects_SetupSceneLights
               | apply respects_modify
               | apply respects_call_through; reflexivity
               | apply respects_bind; [|intros ?] ].
Qed.

End Respects.

Lemma same_members_refl w : same_members w w.
Proof. repeat split. Qed.

Lemma same_members_trans w1 w2 w3 :
  same_members w1 w2 -> same_members w2 w3 -> same_members w1 w3.
Proof.
  intros (A1 & B1 & C1) (A2 & B2 & C2). repeat split; congruence.
Qed.

Lemma no_delete_refl w : no_delete w w.
Proof. exists []. split; [symmetry; apply app_nil_r|reflexivity]. Qed.

Lemma no_delete_trans w1 w2 w3 : no_delete w1 w2 -> no_delete w2 w3 -> no_delete w1 w3.
Proof.
  intros (e1 & H1 & F1) (e2 & H2 & F2). exists (e1 ++ e2). split.
  - rewrite H2, H1, app_assoc. reflexivity.
  - rewrite forallb_app, F1, F2. reflexivity.
Qed.

Lemma no_delete_emit e w : is_delete e = false -> no_delete w (add_trace [e] w).
Proof.
  intros He. exists [e]. split; [reflexivity|]. cbn. rewrite He. reflexivity.
Qed.

(** X11.  Lookups and dispatch never write to the registries.  The three
    lookups return in the very world they were called in; the five setters,
    [BindGLTextures] and [RenderScene], whenever they return, have changed
    nothing but the trace: members, texture names of the driver and files
    are as before, for every state and every argument. *)
Theorem lookups_and_dispatch_keep_members :
  (forall tag_, respects (fun w w' => w' = w) (FindTextureSlot tag_)) /\
  (forall tag_, respects (fun w w' => w' = w) (FindTextureID tag_)) /\
  (forall tag_ out, respects (fun w w' => w' = w) (FindMaterial tag_ out)) /\
  (forall lm sc rx ry rz pos, respects same_members (SetTransformations lm sc rx ry rz pos)) /\
  (forall r g b a, respects same_members (SetShaderColor r g b a)) /\
  (forall tag_, respects same_members (SetShaderTexture tag_)) /\
  (forall u v, respects same_members (SetTextureUVScale u v)) /\
  (forall tag_ uninit, respects same_members (SetShaderMaterial tag_ uninit)) /\
  respects same_members BindGLTextures /\
  (forall lm uninit, respects same_members (RenderScene lm uninit)).
Proof.
  assert (Heq : forall w1 w2 w3 : World, w2 = w1 -> w3 = w2 -> w3 = w1) by congruence.
  assert (Hemit : forall e w, is_delete e = false -> same_members w (add_trace [e] w))
    by (intros; repeat split).
  repeat match goal with |- _ /\ _ => split end; intros.
  - apply respects_FindTextureSlot; eauto.
  - apply respects_FindTextureID; eauto.
  - apply respects_FindMaterial; eauto.
  - apply respects_SetTransformations; eauto using same_members_refl, same_members_trans.
  - apply respects_SetShaderColor; eauto using same_members_refl, same_members_trans.
  - apply respects_SetShaderTexture; eauto using same_members_refl, same_members_trans.
  - apply respects_SetTextureUVScale; eauto using same_members_refl, same_members_trans.
  - apply respects_SetShaderMaterial; eauto using same_members_refl, same_members_trans.
  - apply respects_BindGLTextures; eauto using same_members_refl, same_members_trans.
  - apply respects_RenderScene; eauto using same_members_refl, same_members_trans.
Qed.

(** X12.  No method releases a texture: whatever [CreateGLTexture],
    [BindGLTextures], [DestroyGLTextures], [PrepareScene], [RenderScene] and
    the setters append to the trace, there is no [glDeleteTextures] in it.
    A name the driver has handed out is never given back. *)
Theorem no_method_deletes_textures :
  (forall f t, respects no_delete (CreateGLTexture f t)) /\
  respects no_delete BindGLTextures /\
  respects no_delete DestroyGLTextures /\
  respects no_delete PrepareScene /\
  (forall lm uninit, respects no_delete (RenderScene lm uninit)) /\
  (forall tag_, respects no_delete (SetShaderTexture tag_)) /\
  (forall tag_ uninit, respects no_delete (SetShaderMaterial tag_ uninit)).
Proof.
  assert (Hmod : forall f w, no_delete w (set_this (f (this w)) w))
    by (intros f w; exists []; split; [symmetry; apply app_nil_r|reflexivity]).
  assert (Hgen : forall w, no_delete w (mkWorld (this w) (gl_next w + 1) (stbi_load w)
                                          (trace w ++ [glGenTextures (gl_next w)])))
    by (intros w; exists [glGenTextures (gl_next w)]; split; reflexivity).
  repeat match goal with |- _ /\ _ => split end; intros.
  - apply respects_CreateGLTexture; eauto using no_delete_refl, no_delete_trans, no_delete_emit.
  - apply respects_BindGLTextures; eauto using no_delete_refl, no_delete_trans, no_delete_emit.
  - apply respects_DestroyGLTextures; eauto using no_delete_refl, no_delete_trans, no_delete_emit.
  - apply respects_PrepareScene; eauto using no_delete_refl, no_delete_trans, no_delete_emit.
  - apply respects_RenderScene; eauto using no_delete_refl, no_delete_trans, no_delete_emit.
  - apply respects_SetShaderTexture; eauto using no_delete_refl, no_delete_trans, no_delete_emit.
  - apply respects_SetShaderMaterial; eauto using no_delete_refl, no_delete_trans, no_delete_emit.
Qed.

(** ** Preparing the scene *)

Lemma decodable_stbi_load w w' f : stbi_load w' = stbi_load w -> decodable w' f = decodable w f.
Proof. intros H. unfold decodable. rewrite H. reflexivity. Qed.

Lemma decoded_tags_stbi_load w w' files :
  stbi_load w' = stbi_load w -> decoded_tags w' files = decoded_tags w files.
Proof.
  intros H. unfold decoded_tags. f_equal. apply filter_ext. intros p.
  apply decodable_stbi_load. exact H.
Qed.

Lemma loads_then_spec {A} (k : M A) files : forall w,
  registry_ok (this w) ->
  m_loadedTextures (this w) + Z.of_nat (length files) <= Z.of_nat TEXTURE_SLOTS ->
  exists w',
    loads_then files k w = k w' /\
    stbi_load w' = stbi_load w /\
    registry_ok (this w') /\
    m_pShaderManager (this w') = m_pShaderManager (this w) /\
    m_basicMeshes (this w') = m_basicMeshes (this w) /\
    m_objectMaterials (this w') = m_objectMaterials (this w) /\
    map tex_tag (entries (this w'))
    = map tex_tag (entries (this w)) ++ decoded_tags w files.
Proof.
  induction files as [|[f t] files IH]; intros w Hok Hn.
  - exists w. unfold decoded_tags. cbn [loads_then List.filter map]. rewrite app_nil_r.
    split; [reflexivity|]. split; [reflexivity|]. split; [exact Hok|]. repeat split.
  - cbn [length] in Hn.
    destruct (CreateGLTexture_outcome f t w Hok ltac:(lia)) as (w1 & Hc & Hs & Hw).
    assert (Hroom : (Z.to_nat (m_loadedTextures (this w))
                     < length (m_textureIDs (this w)))%nat).
    { destruct Hok as [Hb Hr]. rewrite Hb. unfold TEXTURE_SLOTS in *. lia. }
    assert (H1 : registry_ok (this w1) /\
                 m_loadedTextures (this w1) <= m_loadedTextures (this w) + 1 /\
                 m_pShaderManager (this w1) = m_pShaderManager (this w) /\
                 m_basicMeshes (this w1) = m_basicMeshes (this w) /\
                 m_objectMaterials (this w1) = m_objectMaterials (this w) /\
                 map tex_tag (entries (this w1))
                 = map tex_tag (entries (this w))
                     ++ (if decodable w f then [t] else [])).
    { rewrite Hw. destruct (decodable w f).
      - destruct (registered_entries (gl_next w) t (this w) Hok Hroom) as [Ho He].
        rewrite He, map_app. cbn. repeat split; try apply Ho. lia.
      - rewrite app_nil_r. repeat split; try apply Hok. lia. }
    destruct H1 as (Hok1 & Hn1 & Hp1 & Hm1 & Ho1 & Ht1).
    destruct (IH w1 Hok1 ltac:(lia)) as (w' & Hl & Hs' & Hok' & Hp' & Hm' & Ho' & Ht').
    exists w'. cbn [loads_then]. erewrite bind_Ok; [|exact Hc].
    split; [exact Hl|]. split; [congruence|]. split; [exact Hok'|].
    split; [congruence|]. split; [congruence|]. split; [congruence|].
    rewrite Ht', Ht1, (decoded_tags_stbi_load w w1 files Hs), <- app_assoc.
    f_equal. unfold decoded_tags. cbn [List.filter fst]. destruct (decodable w f); reflexivity.
Qed.

Lemma writes_shader (P : SceneManager -> Prop) e :
  (forall s, P s -> is_null (m_pShaderManager s) = false) ->
  writes P (shader e) (fun _ => [e]).
Proof. intros HP w Hw. apply shader_Ok. auto. Qed.

Lemma SetupSceneLights_writes :
  exists E, writes (fun s => is_null (m_pShaderManager s) = false) SetupSceneLights E.
Proof.
  eexists. unfold SetupSceneLights.
  repeat (apply writes_seq; [apply writes_shader; auto|]).
  apply writes_shader. auto.
Qed.

Lemma load_meshes_writes :
  exists E,
    writes (fun s => is_null (m_basicMeshes s) = false)
      (meshes (LoadMesh Box) ;; meshes (LoadMesh Plane) ;; meshes (LoadMesh Cylinder) ;;
       meshes (LoadMesh Cone) ;; meshes (LoadMesh Prism) ;; meshes (LoadMesh Pyramid4) ;;
       meshes (LoadMesh Sphere) ;; meshes (LoadMesh TaperedCylinder) ;;
       meshes (LoadMesh Torus)) E.
Proof.
  eexists.
  repeat (apply writes_seq; [apply writes_meshes; auto|]).
  apply writes_meshes. auto.
Qed.

Lemma PrepareScene_spec w :
  registry_ok (this w) ->
  m_loadedTextures (this w) + 5 <= Z.of_nat TEXTURE_SLOTS ->
  is_null (m_pShaderManager (this w)) = false ->
  is_null (m_basicMeshes (this w)) = false ->
  exists w',
    PrepareScene w = Ok (tt, w') /\
    stbi_load w' = stbi_load w /\
    registry_ok (this w') /\
    m_pShaderManager (this w') = m_pShaderManager (this w) /\
    m_basicMeshes (this w') = m_basicMeshes (this w) /\
    m_objectMaterials (this w') = m_objectMaterials (this w) ++ sceneMaterials /\
    map tex_tag (entries (this w'))
    = map tex_tag (entries (this w)) ++ decoded_tags w sceneTextures.
Proof.
  intros Hok Hn Hp Hm.
  destruct (loads_then_spec BindGLTextures sceneTextures w Hok Hn)
    as (w1 & Hl & Hs1 & Hok1 & Hp1 & Hm1 & Ho1 & Ht1).
  destruct SetupSceneLights_writes as [EL HL].
  destruct load_meshes_writes as [EM HM].
  eexists. split.
  - unfold PrepareScene.
    change LoadSceneTextures with (loads_then sceneTextures BindGLTextures).
    erewrite bind_Ok; [|rewrite Hl; apply BindGLTextures_spec; exact Hok1].
    erewrite bind_Ok; [|apply DefineObjectMaterials_eq].
    erewrite bind_Ok;
      [|apply HL; unfold with_materials, set_this, set_objectMaterials, add_trace;
        cbv beta; members; rewrite Hp1; exact Hp].
    apply HM. unfold with_materials, set_this, set_objectMaterials, add_trace.
    cbv beta. members. rewrite Hm1. exact Hm.
  - unfold with_materials, set_this, set_objectMaterials, add_trace. members.
    split; [exact Hs1|]. split; [exact Hok1|]. split; [exact Hp1|]. split; [exact Hm1|].
    split; [rewrite Ho1; reflexivity|exact Ht1].
Qed.

Lemma PrepareScene_null w :
  registry_ok (this w) ->
  m_loadedTextures (this w) + 5 <= Z.of_nat TEXTURE_SLOTS ->
  is_null (m_pShaderManager (this w)) = true ->
  PrepareScene w = Fault NullDereference.
Proof.
  intros Hok Hn Hp.
  destruct (loads_then_spec BindGLTextures sceneTextures w Hok Hn)
    as (w1 & Hl & Hs1 & Hok1 & Hp1 & Hm1 & Ho1 & Ht1).
  unfold PrepareScene.
  change LoadSceneTextures with (loads_then sceneTextures BindGLTextures).
  erewrite bind_Ok; [|rewrite Hl; apply BindGLTextures_spec; exact Hok1].
  erewrite bind_Ok; [|apply DefineObjectMaterials_eq].
  apply bind_Fault. unfold SetupSceneLights. apply bind_Fault. apply shader_Fault.
  unfold with_materials, set_this, set_objectMaterials, add_trace. members.
  rewrite Hp1. exact Hp.
Qed.

Lemma first_index_missing tag_ tags i :
  0 <= i -> first_index tag_ tags i = -1 -> forall t, In t tags -> t <> tag_.
Proof.
  intros Hi H t Hin Heq. subst t.
  destruct (first_index_spec tag_ tags i Hi) as [[_ Hno]|(k & Hk & _)];
    [exact (Hno Hin)|lia].
Qed.

Lemma first_index_repeat tag_ l d :
  first_index tag_ ((l ++ d) ++ d) 0 = first_index tag_ (l ++ d) 0.
Proof.
  rewrite (first_index_app tag_ (l ++ d) d 0) by lia.
  destruct (Z.eqb_spec (first_index tag_ (l ++ d) 0) (-1)) as [H|H]; [|reflexivity].
  rewrite H. apply first_index_none. intros t Hin.
  apply (first_index_missing tag_ (l ++ d) 0 ltac:(lia) H). apply in_or_app. right. exact Hin.
Qed.

Lemma first_material_append tag_ l l' :
  first_material tag_ (l ++ l') =
  match first_material tag_ l with
  | Some x => Some x
  | None => first_material tag_ l'
  end.
Proof.
  unfold first_material. induction l as [|x l IH]; cbn [app List.find].
  - reflexivity.
  - destruct (String.eqb (tag x) tag_); [reflexivity|exact IH].
Qed.

Lemma first_material_repeat tag_ l d :
  first_material tag_ ((l ++ d) ++ d) = first_material tag_ (l ++ d).
Proof.
  rewrite (first_material_append tag_ (l ++ d) d).
  destruct (first_material tag_ (l ++ d)) eqn:H; [reflexivity|].
  rewrite first_material_append in H.
  destruct (first_material tag_ l); [discriminate|exact H].
Qed.

(** X13.  On a freshly constructed manager with both pointers live,
    [PrepareScene] always returns, whichever of the five files decode.  The
    textures registered are those whose file decodes, in the order of
    [LoadSceneTextures], so the slot of a tag is its position among the
    decoded ones and a tag whose file did not decode resolves to -1; the
    materials are the nine of [DefineObjectMaterials]. *)
Theorem PrepareScene_on_constructed w :
  constructed (this w) ->
  is_null (m_pShaderManager (this w)) = false ->
  is_null (m_basicMeshes (this w)) = false ->
  exists w',
    PrepareScene w = Ok (tt, w') /\
    m_objectMaterials (this w') = sceneMaterials /\
    map tex_tag (entries (this w')) = decoded_tags w sceneTextures /\
    m_loadedTextures (this w') = Z.of_nat (length (decoded_tags w sceneTextures)) /\
    (forall tag_,
        FindTextureSlot tag_ w'
        = Ok (first_index tag_ (decoded_tags w sceneTextures) 0, w')).
Proof.
  intros (Hok & Hn & Hm) Hp Hq.
  destruct (PrepareScene_spec w Hok) as (w' & Hr & _ & Hok' & _ & _ & Ho & Ht);
    [rewrite Hn; unfold TEXTURE_SLOTS; lia|exact Hp|exact Hq|].
  assert (He : entries (this w) = []) by (unfold entries; rewrite Hn; reflexivity).
  rewrite He in Ht. cbn [map app] in Ht. rewrite Hm in Ho. cbn [app] in Ho.
  exists w'. split; [exact Hr|]. split; [exact Ho|]. split; [exact Ht|].
  split.
  - rewrite <- (entries_length _ Hok'), <- Ht, length_map. reflexivity.
  - intros tag_. rewrite (FindTextureSlot_spec tag_ w' Hok'), Ht. reflexivity.
Qed.

Lemma PrepareScene_on_constructed_witness :
  exists w',
    PrepareScene world_no_files = Ok (tt, w') /\
    m_objectMaterials (this w') = sceneMaterials /\
    map tex_tag (entries (this w')) = [] /\
    m_loadedTextures (this w') = 0 /\
    (forall tag_, FindTextureSlot tag_ w' = Ok (-1, w')).
Proof.
  apply (PrepareScene_on_constructed world_no_files).
  - split; [split; [reflexivity|vm_compute; split; discriminate]|].
    split; reflexivity.
  - reflexivity.
  - reflexivity.
Defined.

Lemma bind_cases {A B} (c : M A) (k : A -> M B) w :
  bind c k w = match c w with
               | Ok (a, w') => k a w'
               | Fault f => Fault f
               | OutOfFuel => OutOfFuel
               end.
Proof. reflexivity. Qed.

Lemma SetupSceneLights_null w :
  is_null (m_pShaderManager (this w)) = true -> SetupSceneLights w = Fault NullDereference.
Proof.
  intros Hp. unfold SetupSceneLights. apply bind_Fault. apply shader_Fault. exact Hp.
Qed.

(** X14.  [SetupSceneLights] has no null guard: on a null shader-manager
    pointer it faults with a null dereference whatever the state.  On such a
    manager [PrepareScene] never completes, and the texture loading comes
    before the lights: when [LoadSceneTextures] faults, [PrepareScene] ends
    in that fault, and when it returns, in the null dereference.  So on a
    bank with room for the five textures the outcome is the null dereference,
    and on a full bank whose first file decodes to an RGB or RGBA image it is
    the out-of-bounds store of the first load. *)
Theorem PrepareScene_null_shader_manager w :
  is_null (m_pShaderManager (this w)) = true ->
  SetupSceneLights w = Fault NullDereference /\
  PrepareScene w = match LoadSceneTextures w with
                   | Ok _ => Fault NullDereference
                   | Fault f => Fault f
                   | OutOfFuel => OutOfFuel
                   end /\
  (registry_ok (this w) ->
   m_loadedTextures (this w) + 5 <= Z.of_nat TEXTURE_SLOTS ->
   PrepareScene w = Fault NullDereference) /\
  (forall img,
      registry_ok (this w) ->
      m_loadedTextures (this w) = Z.of_nat TEXTURE_SLOTS ->
      stbi_load w "../../Utilities/textures/green_apple.jpg" = Some img ->
      colorChannels img = 3 \/ colorChannels img = 4 ->
      PrepareScene w = Fault (OutOfBounds 16)).
Proof.
  intros Hp. split; [apply SetupSceneLights_null; exact Hp|].
  split; [|split].
  - unfold PrepareScene. rewrite (bind_cases LoadSceneTextures).
    destruct (LoadSceneTextures w) as [[[] w1]|f|] eqn:HL; try reflexivity.
    erewrite bind_Ok; [|apply DefineObjectMaterials_eq].
    apply bind_Fault. apply SetupSceneLights_null.
    destruct (LoadSceneTextures_frame w w1 HL) as (Hp1 & _).
    unfold with_materials, set_this, set_objectMaterials. members.
    rewrite Hp1. exact Hp.
  - intros Hok Hn. apply PrepareScene_null; assumption.
  - intros img [Hb Hr] Hn Hf Hc. unfold PrepareScene, LoadSceneTextures.
    apply bind_Fault. apply bind_Fault.
    rewrite (CreateGLTexture_full _ _ w img Hf Hc) by (rewrite Hb; exact Hn).
    rewrite Hn. reflexivity.
Qed.

Lemma PrepareScene_null_shader_manager_witness :
  SetupSceneLights world_null = Fault NullDereference /\
  PrepareScene world_null = Fault NullDereference /\
  LoadSceneTextures world_null_full = Fault (OutOfBounds 16) /\
  PrepareScene world_null_full = Fault (OutOfBounds 16).
Proof.
  destruct (PrepareScene_null_shader_manager world_null) as (HL & _ & Hroom & _);
    [reflexivity|].
  destruct (PrepareScene_null_shader_manager world_null_full) as (_ & _ & _ & Hfull);
    [reflexivity|].
  split; [exact HL|]. split; [|split].
  - apply Hroom.
    + split; [reflexivity|]. vm_compute. split; discriminate.
    + vm_compute. discriminate.
  - vm_compute. reflexivity.
  - apply (Hfull (mkImage 64 64 3)).
    + split; [reflexivity|]. vm_compute. split; discriminate.
    + reflexivity.
    + reflexivity.
    + left. reflexivity.
Defined.

(** X15.  [PrepareScene] is not idempotent but a second run is harmless to
    lookups: it registers every decodable texture a second time and appends
    the nine materials again, and since lookups return the first match,
    [FindTextureSlot] and [FindMaterial] answer after the second run exactly
    as after the first. *)
Theorem PrepareScene_twice w :
  registry_ok (this w) ->
  m_loadedTextures (this w) + 10 <= Z.of_nat TEXTURE_SLOTS ->
  is_null (m_pShaderManager (this w)) = false ->
  is_null (m_basicMeshes (this w)) = false ->
  Z.of_nat (length (m_objectMaterials (this w))) + 18 <= INT_MAX ->
  exists w1 w2,
    PrepareScene w = Ok (tt, w1) /\
    PrepareScene w1 = Ok (tt, w2) /\
    m_loadedTextures (this w2)
    = m_loadedTextures (this w1) + Z.of_nat (length (decoded_tags w sceneTextures)) /\
    length (m_objectMaterials (this w2)) = (length (m_objectMaterials (this w1)) + 9)%nat /\
    (forall tag_ slot,
        FindTextureSlot tag_ w1 = Ok (slot, w1) -> FindTextureSlot tag_ w2 = Ok (slot, w2)) /\
    (forall tag_ out r,
        FindMaterial tag_ out w1 = Ok (r, w1) -> FindMaterial tag_ out w2 = Ok (r, w2)).
Proof.
  intros Hok Hn Hp Hq Hlen.
  destruct (PrepareScene_spec w Hok) as (w1 & Hr1 & Hs1 & Hok1 & Hp1 & Hq1 & Ho1 & Ht1);
    [lia|exact Hp|exact Hq|].
  assert (Hd : (length (decoded_tags w sceneTextures) <= 5)%nat).
  { unfold decoded_tags. rewrite length_map.
    apply (List.filter_length_le (fun p => decodable w (fst p)) sceneTextures). }
  assert (Hn1 : m_loadedTextures (this w1)
                = m_loadedTextures (this w) + Z.of_nat (length (decoded_tags w sceneTextures))).
  { rewrite <- (entries_length _ Hok1), <- (entries_length _ Hok).
    rewrite <- (length_map tex_tag (entries (this w1))), Ht1, length_app, length_map. lia. }
  destruct (PrepareScene_spec w1 Hok1) as (w2 & Hr2 & Hs2 & Hok2 & Hp2 & Hq2 & Ho2 & Ht2);
    [lia|congruence|congruence|].
  rewrite (decoded_tags_stbi_load w w1 sceneTextures Hs1) in Ht2.
  exists w1, w2. split; [exact Hr1|]. split; [exact Hr2|].
  split.
  { rewrite <- (entries_length _ Hok2), <- (entries_length _ Hok1).
    rewrite <- (length_map tex_tag (entries (this w2))), Ht2, length_app, length_map. lia. }
  split; [rewrite Ho2, length_app; reflexivity|].
  split.
  - intros tag_ slot Hf. rewrite (FindTextureSlot_spec tag_ w1 Hok1) in Hf.
    inversion Hf as [Hslot].
    rewrite (FindTextureSlot_spec tag_ w2 Hok2), Ht2, Ht1.
    rewrite first_index_repeat. reflexivity.
  - intros tag_ out r Hf.
    assert (Hl1 : Z.of_nat (length (m_objectMaterials (this w1))) <= INT_MAX).
    { rewrite Ho1, length_app. cbn [sceneMaterials length]. lia. }
    assert (Hl2 : Z.of_nat (length (m_objectMaterials (this w2))) <= INT_MAX).
    { rewrite Ho2, Ho1, !length_app. cbn [sceneMaterials length]. lia. }
    rewrite (FindMaterial_spec tag_ out w1 Hl1) in Hf. inversion Hf as [Hres].
    rewrite (FindMaterial_spec tag_ out w2 Hl2). unfold scanned.
    rewrite Ho2, Ho1, first_material_repeat.
    destruct (m_objectMaterials (this w)); reflexivity.
Qed.

Lemma PrepareScene_twice_witness :
  exists w1 w2,
    PrepareScene world0 = Ok (tt, w1) /\
    PrepareScene w1 = Ok (tt, w2) /\
    m_loadedTextures (this w2) = m_loadedTextures (this w1) + 5 /\
    length (m_objectMaterials (this w2)) = (length (m_objectMaterials (this w1)) + 9)%nat /\
    (forall tag_ slot,
        FindTextureSlot tag_ w1 = Ok (slot, w1) -> FindTextureSlot tag_ w2 = Ok (slot, w2)) /\
    (forall tag_ out r,
        FindMaterial tag_ out w1 = Ok (r, w1) -> FindMaterial tag_ out w2 = Ok (r, w2)).
Proof.
  apply (PrepareScene_twice world0).
  - split; [reflexivity|]. vm_compute. split; discriminate.
  - vm_compute. discriminate.
  - reflexivity.
  - reflexivity.
  - vm_compute. discriminate.
Defined.

(** ** Rendering outside the prepared state *)

Lemma draws_of_app tr ev : draws_of (tr ++ ev) = draws_of tr ++ draws_of ev.
Proof.
  induction tr as [|e tr IH]; cbn [app draws_of]; [reflexivity|].
  destruct e; cbn [app]; rewrite IH; reflexivity.
Qed.

Lemma draws_of_pushed_material tag_ uninit s : draws_of (pushed_material tag_ uninit s) = [].
Proof. unfold pushed_material. destruct (m_objectMaterials s); reflexivity. Qed.

Lemma writes_SetShaderMaterial_any (P : SceneManager -> Prop) tag_ uninit :
  (forall s, P s -> is_null (m_pShaderManager s) = false) ->
  (forall s, P s -> Z.of_nat (length (m_objectMaterials s)) <= INT_MAX) ->
  writes P (SetShaderMaterial tag_ uninit) (pushed_material tag_ uninit).
Proof. intros Hp Hl w Hw. apply SetShaderMaterial_Ok; auto. Qed.

Lemma RenderScene_renderable lm uninit :
  exists E,
    writes renderable (RenderScene lm uninit) E /\
    forall s, draws_of (E s) = map meshKind sceneObjects.
Proof.
  assert (Hs : forall s, renderable s -> is_null (m_pShaderManager s) = false)
    by (unfold renderable; tauto).
  assert (Hm : forall s, renderable s -> is_null (m_basicMeshes s) = false)
    by (unfold renderable; tauto).
  assert (Hr : forall s, renderable s -> registry_ok s) by (unfold renderable; tauto).
  assert (Hl : forall s, renderable s ->
                         Z.of_nat (length (m_objectMaterials s)) <= INT_MAX)
    by (unfold renderable; tauto).
  eexists. split.
  - unfold RenderScene.
    repeat (apply writes_seq;
            [first [ apply writes_SetTransformations; exact Hs
                   | apply writes_SetShaderColor; exact Hs
                   | apply writes_SetShaderMaterial_any; [exact Hs|exact Hl]
                   | apply writes_SetShaderTexture; [exact Hs|exact Hr]
                   | apply writes_meshes; exact Hm ]|]).
    apply writes_meshes. exact Hm.
  - intros s. cbv beta. rewrite !draws_of_app, !draws_of_pushed_material. reflexivity.
Qed.

(** X16.  A missing tag never aborts the frame: with both pointers live, a
    count within the bank and a material registry an [int] can index,
    [RenderScene] returns whatever tags are registered, leaves the members
    as they were, and draws the eleven meshes of the scene in the order of
    the source. *)
Theorem RenderScene_draws_every_mesh lm uninit w :
  is_null (m_pShaderManager (this w)) = false ->
  is_null (m_basicMeshes (this w)) = false ->
  registry_ok (this w) ->
  Z.of_nat (length (m_objectMaterials (this w))) <= INT_MAX ->
  exists ev,
    RenderScene lm uninit w = Ok (tt, add_trace ev w) /\
    draws_of ev = [Plane; Sphere; Cylinder; Cylinder; Sphere; Torus; Cylinder;
                   Box; Box; TaperedCylinder; Torus].
Proof.
  intros Hp Hq Hok Hlen. destruct (RenderScene_renderable lm uninit) as (E & HE & Hd).
  exists (E (this w)). split; [|apply Hd].
  apply HE. unfold renderable. tauto.
Qed.

Lemma RenderScene_draws_every_mesh_witness :
  exists ev,
    RenderScene scene_libm (fun _ => goldMaterial) world_gold = Ok (tt, add_trace ev world_gold) /\
    draws_of ev = [Plane; Sphere; Cylinder; Cylinder; Sphere; Torus; Cylinder;
                   Box; Box; TaperedCylinder; Torus].
Proof.
  apply RenderScene_draws_every_mesh.
  - reflexivity.
  - reflexivity.
  - split; [reflexivity|]. vm_compute. split; discriminate.
  - unfold INT_MAX. simpl. lia.
Defined.

Lemma SetTransformations_null lm sc rx ry rz pos w :
  is_null (m_pShaderManager (this w)) = true ->
  SetTransformations lm sc rx ry rz pos w = Ok (tt, w).
Proof.
  intros Hp. unfold SetTransformations. step (gets_eq m_pShaderManager w).
  rewrite Hp. reflexivity.
Qed.

Lemma SetShaderColor_null r g b a w :
  is_null (m_pShaderManager (this w)) = true -> SetShaderColor r g b a w = Ok (tt, w).
Proof.
  intros Hp. unfold SetShaderColor. step (gets_eq m_pShaderManager w).
  rewrite Hp. reflexivity.
Qed.

Lemma SetShaderTexture_null tag_ w :
  is_null (m_pShaderManager (this w)) = true -> SetShaderTexture tag_ w = Ok (tt, w).
Proof.
  intros Hp. unfold SetShaderTexture. step (gets_eq m_pShaderManager w).
  rewrite Hp. reflexivity.
Qed.

Lemma SetShaderMaterial_empty tag_ uninit w :
  m_objectMaterials (this w) = [] -> SetShaderMaterial tag_ uninit w = Ok (tt, w).
Proof.
  intros Hm. unfold SetShaderMaterial. step (gets_eq m_objectMaterials w).
  rewrite Hm. reflexivity.
Qed.

Lemma writes_nothing (P : SceneManager -> Prop) op :
  (forall w, P (this w) -> op w = Ok (tt, w)) -> writes P op (fun _ => []).
Proof. intros H w Hw. rewrite add_trace_nil. apply H. exact Hw. Qed.

Lemma SetShaderMaterial_null tag_ m w :
  is_null (m_pShaderManager (this w)) = true ->
  Z.of_nat (length (m_objectMaterials (this w))) <= INT_MAX ->
  m_objectMaterials (this w) <> [] ->
  SetShaderMaterial tag_ m w = Fault NullDereference.
Proof.
  intros Hp Hlen Hne. unfold SetShaderMaterial.
  step (gets_eq m_objectMaterials w).
  destruct (m_objectMaterials (this w)) as [|x mats] eqn:Hm; [congruence|].
  cbn [length Nat.ltb Nat.leb]. rewrite <- Hm in Hlen.
  step (FindMaterial_spec tag_ m w Hlen). rewrite Hm.
  cbn [Bool.eqb]. apply bind_Fault. apply shader_Fault. exact Hp.
Qed.

(** X17.  [RenderScene] on a null shader manager.  When materials are
    defined, [SetShaderMaterial] faults with a null dereference for every
    tag, and so the frame does not complete: it ends in that fault, whether
    or not the mesh pointer is live.  When none is defined, every setter is
    skipped and, through a live mesh pointer, the eleven meshes are drawn
    with no uniform pushed at all. *)
Theorem RenderScene_null_shader_manager lm uninit w :
  is_null (m_pShaderManager (this w)) = true ->
  Z.of_nat (length (m_objectMaterials (this w))) <= INT_MAX ->
  (m_objectMaterials (this w) <> [] ->
   (forall tag_ m, SetShaderMaterial tag_ m w = Fault NullDereference) /\
   RenderScene lm uninit w = Fault NullDereference) /\
  (m_objectMaterials (this w) = [] ->
   is_null (m_basicMeshes (this w)) = false ->
   RenderScene lm uninit w
   = Ok (tt, add_trace (map DrawMesh (map meshKind sceneObjects)) w)).
Proof.
  intros Hp Hlen. split.
  - intros Hne. split; [intros tag_ m; apply SetShaderMaterial_null; assumption|].
    unfold RenderScene.
    erewrite bind_Ok; [|apply SetTransformations_null; exact Hp].
    erewrite bind_Ok; [|apply SetShaderColor_null; exact Hp].
    apply bind_Fault. apply SetShaderMaterial_null; assumption.
  - intros Hm Hq.
    set (P := fun s => is_null (m_pShaderManager s) = true /\
                       m_objectMaterials s = [] /\ is_null (m_basicMeshes s) = false).
    assert (HW : exists E, writes P (RenderScene lm uninit) E /\
                           forall s, E s = map DrawMesh (map meshKind sceneObjects)).
    { eexists. split.
      - unfold RenderScene.
        repeat (apply writes_seq;
                [first [ apply writes_nothing; intros w0 Hw0;
                         first [ apply SetTransformations_null; apply Hw0
                               | apply SetShaderColor_null; apply Hw0
                               | apply SetShaderTexture_null; apply Hw0
                               | apply SetShaderMaterial_empty; apply Hw0 ]
                       | apply writes_meshes; intros s Hs; apply Hs ]|]).
        apply writes_meshes. intros s Hs. apply Hs.
      - intros s. reflexivity. }
    destruct HW as (E & HE & HEq). rewrite <- (HEq (this w)). apply HE.
    unfold P. tauto.
Qed.

Lemma RenderScene_null_shader_manager_witness :
  ((forall tag_ m, SetShaderMaterial tag_ m world_null_gold = Fault NullDereference) /\
   RenderScene scene_libm (fun _ => goldMaterial) world_null_gold = Fault NullDereference) /\
  RenderScene scene_libm (fun _ => goldMaterial) world_null
  = Ok (tt, add_trace (map DrawMesh (map meshKind sceneObjects)) world_null).
Proof.
  split.
  - apply (RenderScene_null_shader_manager scene_libm (fun _ => goldMaterial) world_null_gold).
    + reflexivity.
    + unfold INT_MAX. simpl. lia.
    + discriminate.
  - apply (RenderScene_null_shader_manager scene_libm (fun _ => goldMaterial) world_null).
    + reflexivity.
    + vm_compute. discriminate.
    + reflexivity.
    + reflexivity.
Defined.
